(** * obsidian-ai-chat: the request-orchestration core, embedded in Rocq

    A shallow embedding of the TypeScript sources

      - src/context/live-selection.ts   (module [LiveSelection])
      - types.ts, constants.ts          (the record modules, [Constants])
      - settings/validation.ts, settings/settings-manager.ts
                                        (modules [Validation], [Settings])
      - src/state/chat-state.ts         (module [ChatState])
      - context/context-manager.ts      (module [Context])
      - src/services/ai-client.ts       (module [AIClient])

    together with the platform functions they call: the string and
    array methods ([JS], [Arr]), [TextDecoder] and [JSON.parse].

    JavaScript strings are sequences of UTF-16 code units, objects that
    the code mutates in place are records threaded through the
    operations, and everything the code obtains from its environment
    ([Date.now()], [Math.random()], [fetch], the stream reader) is an
    explicit argument. *)

From Stdlib Require Import List NArith ZArith String Ascii Bool Lia.
From Stdlib Require Import Permutation Sorted DecimalString.
Import ListNotations.

Set Implicit Arguments.
Set Warnings "-register-all".

(* ================================================================== *)
(** ** JavaScript strings and the String.prototype methods in use     *)
(* ================================================================== *)

Module JS.

(** A JS string: its UTF-16 code units, each in [0, 0xFFFF]. *)
Definition jsstring := list N.

(** A string literal of the source (ASCII only). *)
Definition js (s : string) : jsstring :=
  map N_of_ascii (list_ascii_of_string s).

(** [a === b] on strings. *)
Fixpoint eqb (a b : jsstring) : bool :=
  match a, b with
  | [], [] => true
  | x :: a', y :: b' => N.eqb x y && eqb a' b'
  | _, _ => false
  end.

(** [s.length] *)
Definition length (s : jsstring) : Z := Z.of_nat (List.length s).

(** [!s] for a string: only the empty string is falsy. *)
Definition falsy (s : jsstring) : bool :=
  match s with [] => true | _ => false end.

(** ECMAScript WhiteSpace and LineTerminator code points, the set
    stripped by [trim] (and skipped by [parseInt]). *)
Definition isWhiteSpace (c : N) : bool :=
  let c := Z.of_N c in
  ((9 <=? c) && (c <=? 13) ||
   (c =? 32) || (c =? 160) || (c =? 5760) ||
   ((8192 <=? c) && (c <=? 8202)) ||
   (c =? 8232) || (c =? 8233) || (c =? 8239) || (c =? 8287) ||
   (c =? 12288) || (c =? 65279))%Z.

Fixpoint trimStart (s : jsstring) : jsstring :=
  match s with
  | c :: r => if isWhiteSpace c then trimStart r else s
  | [] => []
  end.

Definition trimEnd (s : jsstring) : jsstring := rev (trimStart (rev s)).

(** [s.trim()] *)
Definition trim (s : jsstring) : jsstring := trimEnd (trimStart s).

(** [s.startsWith(p)] *)
Fixpoint startsWith (s p : jsstring) {struct p} : bool :=
  match p, s with
  | [], _ => true
  | y :: p', x :: s' => N.eqb x y && startsWith s' p'
  | _ :: _, [] => false
  end.

(** [s.slice(n)] for a literal [n >= 0]. *)
Definition slice (s : jsstring) (n : nat) : jsstring := skipn n s.

(** An argument of [substring] is clamped into [0, s.length]. *)
Definition clamp (s : jsstring) (k : Z) : nat :=
  Z.to_nat (Z.min (Z.max k 0) (length s)).

(** [s.substring(a, b)]: both ends clamped, swapped when [a > b]. *)
Definition substring (s : jsstring) (a b : Z) : jsstring :=
  let a' := clamp s a in
  let b' := clamp s b in
  firstn (Nat.max a' b' - Nat.min a' b') (skipn (Nat.min a' b') s).

(** [s.split('\n')]: the pieces between line feeds; never empty. *)
Definition LF : N := 10%N.

Fixpoint split (s : jsstring) : list jsstring :=
  match s with
  | [] => [[]]
  | c :: r =>
      if N.eqb c LF then [] :: split r
      else match split r with
           | h :: t => (c :: h) :: t
           | [] => [[c]]
           end
  end.

(** [a.join(sep)] *)
Fixpoint join (sep : jsstring) (l : list jsstring) : jsstring :=
  match l with
  | [] => []
  | [x] => x
  | x :: r => x ++ sep ++ join sep r
  end.

End JS.

Abbreviation jsstring := JS.jsstring.
Abbreviation js := JS.js.

(* ================================================================== *)
(** ** src/context/live-selection.ts                                  *)
(* ================================================================== *)

Module LiveSelection.

Record LiveSelection := {
  content : jsstring;
  sourcePath : option jsstring;
  timestamp : Z
}.

(** The manager object.  The registered change callback is a closure
    of the caller; it is named by a handle, and [fired] logs the
    handles invoked so far, oldest first. *)
Record LiveSelectionManager := {
  currentSelection : option LiveSelection;
  onChangeCallback : option nat;
  fired : list nat
}.

Definition initial : LiveSelectionManager :=
  {| currentSelection := None; onChangeCallback := None; fired := [] |}.

Definition setOnChangeCallback (m : LiveSelectionManager)
    (callback : option nat) : LiveSelectionManager :=
  {| currentSelection := currentSelection m;
     onChangeCallback := callback;
     fired := fired m |}.

Definition notifyChange (m : LiveSelectionManager) : LiveSelectionManager :=
  match onChangeCallback m with
  | Some cb =>
      {| currentSelection := currentSelection m;
         onChangeCallback := onChangeCallback m;
         fired := fired m ++ [cb] |}
  | None => m
  end.

Definition clearSelection (m : LiveSelectionManager) : LiveSelectionManager :=
  let hadSelection :=
    match currentSelection m with Some _ => true | None => false end in
  let m' := {| currentSelection := None;
               onChangeCallback := onChangeCallback m;
               fired := fired m |} in
  if hadSelection then notifyChange m' else m'.

(** [setSelection(content, sourcePath)]; [now] is [Date.now()]. *)
Definition setSelection (m : LiveSelectionManager) (content : jsstring)
    (sourcePath : option jsstring) (now : Z) : LiveSelectionManager :=
  if JS.falsy content || (JS.length (JS.trim content) =? 0)%Z then
    clearSelection m
  else
    notifyChange
      {| currentSelection :=
           Some {| content := content;
                   sourcePath := sourcePath;
                   timestamp := now |};
         onChangeCallback := onChangeCallback m;
         fired := fired m |}.

Definition hasSelection (m : LiveSelectionManager) : bool :=
  match currentSelection m with Some _ => true | None => false end.

(** [getPreview(maxLength)] *)
Definition getPreview (m : LiveSelectionManager) (maxLength : Z) : jsstring :=
  match currentSelection m with
  | None => []
  | Some sel =>
      let content := content sel in
      if (JS.length content <=? maxLength)%Z then content
      else JS.substring content 0 (maxLength - 3) ++ js "..."
  end.

(** [formatForAPI()] *)
Definition formatForAPI (m : LiveSelectionManager) : jsstring :=
  match currentSelection m with
  | None => []
  | Some sel =>
      let sourcePart :=
        match sourcePath sel with
        | Some p => if JS.falsy p then [] else js " (from " ++ p ++ js ")"
        | None => []
        end in
      js "[Live Selection" ++ sourcePart ++ js "]" ++ [JS.LF] ++ content sel
  end.

(** What the specification says [getPreview] returns for a stored
    [content] and a given [maxLength]. *)
Definition preview_as_specified (content preview : jsstring)
    (maxLength : Z) : Prop :=
  ((JS.length content <= maxLength)%Z -> preview = content) /\
  ((maxLength < JS.length content)%Z ->
     preview = firstn (Z.to_nat (maxLength - 3)) content ++ js "..." /\
     JS.length preview = maxLength).

End LiveSelection.

(* ================================================================== *)
(** ** Arrays, and what the environment supplies                      *)
(* ================================================================== *)

Module Arr.
Section Ops.
Variable A : Type.

(** [a.findIndex(p)]; [None] stands for [-1]. *)
Fixpoint findIndex (p : A -> bool) (l : list A) : option nat :=
  match l with
  | [] => None
  | x :: r =>
      if p x then Some 0%nat
      else match findIndex p r with
           | Some i => Some (S i)
           | None => None
           end
  end.

(** [a.splice(i, 1)] *)
Fixpoint removeAt (i : nat) (l : list A) : list A :=
  match l, i with
  | [], _ => []
  | _ :: r, O => r
  | x :: r, S j => x :: removeAt j r
  end.

(** The element at index [i] replaced by [f] of it: [a[i] = v], and
    a field assignment on the object stored at [a[i]]. *)
Fixpoint updateAt (i : nat) (f : A -> A) (l : list A) : list A :=
  match l, i with
  | [], _ => []
  | x :: r, O => f x :: r
  | x :: r, S j => x :: updateAt j f r
  end.

(** [a.sort(cmp)].  The ECMAScript sort is stable, so for a
    consistent comparator its result is the one computed here:
    [x] is placed before the first later element it does not have
    to follow. *)
Fixpoint insert (cmp : A -> A -> Z) (x : A) (l : list A) : list A :=
  match l with
  | [] => [x]
  | y :: r =>
      if (cmp x y <=? 0)%Z then x :: y :: r
      else y :: insert cmp x r
  end.

Fixpoint sort (cmp : A -> A -> Z) (l : list A) : list A :=
  match l with
  | [] => []
  | x :: r => insert cmp x (sort cmp r)
  end.
End Ops.
End Arr.

Module Env.
(** Decimal rendering of an integer, as in a template literal. *)
Definition decimal (n : Z) : jsstring :=
  js (NilZero.string_of_int (Z.to_int n)).

(** [generateId()]: [`${Date.now()}-${Math.random().toString(36).substring(2, 11)}`],
    from the clock reading [now] and the random suffix [rnd]. *)
Definition generateId (now : Z) (rnd : jsstring) : jsstring :=
  decimal now ++ js "-" ++ rnd.
End Env.

(* ================================================================== *)
(** ** types.ts                                                       *)
(* ================================================================== *)

Inductive ProviderType := openai | anthropic | custom.

Module AIProvider.
Record t := {
  id : jsstring;
  name : jsstring;
  baseUrl : jsstring;
  apiKey : jsstring;
  enabled : bool;
  type : ProviderType
}.
End AIProvider.

Module AIModel.
Record t := {
  id : jsstring;
  name : jsstring;
  providerId : jsstring;
  modelIdentifier : jsstring;
  isDefault : bool
}.

Definition with_isDefault (b : bool) (m : t) : t :=
  {| id := id m; name := name m; providerId := providerId m;
     modelIdentifier := modelIdentifier m; isDefault := b |}.
End AIModel.

Inductive Role := user | assistant | system.

Module ChatMessage.
Record t := {
  id : jsstring;
  role : Role;
  content : jsstring;
  timestamp : Z;
  modelId : option jsstring
}.
End ChatMessage.

Inductive ContextType := file | folder | selection.

Module ContextItem.
Record t := {
  id : jsstring;
  type : ContextType;
  path : option jsstring;
  content : jsstring;
  displayName : jsstring
}.
End ContextItem.

Module ChatSession.
Record t := {
  id : jsstring;
  messages : list ChatMessage.t;
  contextItems : list ContextItem.t;
  currentModelId : jsstring;
  createdAt : Z;
  updatedAt : Z
}.
End ChatSession.

Module PluginSettings.
Record t := {
  providers : list AIProvider.t;
  models : list AIModel.t;
  currentSessionId : option jsstring;
  sessions : list ChatSession.t;
  maxHistorySize : Z;
  streamingEnabled : bool
}.

Definition with_providers (l : list AIProvider.t) (s : t) : t :=
  {| providers := l; models := models s;
     currentSessionId := currentSessionId s; sessions := sessions s;
     maxHistorySize := maxHistorySize s;
     streamingEnabled := streamingEnabled s |}.

Definition with_models (l : list AIModel.t) (s : t) : t :=
  {| providers := providers s; models := l;
     currentSessionId := currentSessionId s; sessions := sessions s;
     maxHistorySize := maxHistorySize s;
     streamingEnabled := streamingEnabled s |}.
End PluginSettings.

(* ================================================================== *)
(** ** constants.ts                                                   *)
(* ================================================================== *)

Module Constants.
Definition DEFAULT_SETTINGS : PluginSettings.t :=
  {| PluginSettings.providers := [];
     PluginSettings.models := [];
     PluginSettings.currentSessionId := None;
     PluginSettings.sessions := [];
     PluginSettings.maxHistorySize := 50;
     PluginSettings.streamingEnabled := true |}.

Definition MAX_SESSIONS : nat := 10.
End Constants.

(* ================================================================== *)
(** ** settings/validation.ts                                         *)
(* ================================================================== *)

Module Validation.

(** [!field || field.trim() === ''] on an optional string field. *)
Definition missing (field : option jsstring) : bool :=
  match field with
  | None => true
  | Some v => JS.falsy v || JS.eqb (JS.trim v) []
  end.

Definition check (field : option jsstring) (message : string)
    : list jsstring :=
  if missing field then [js message] else [].

Record ValidationResult := { valid : bool; errors : list jsstring }.

Definition result (errors : list jsstring) : ValidationResult :=
  {| valid := (List.length errors =? 0)%nat; errors := errors |}.

(** [validateProvider(provider: Partial<AIProvider>)] *)
Definition validateProvider (name baseUrl apiKey : option jsstring)
    : ValidationResult :=
  result (check name "Provider name is required"
          ++ check baseUrl "Base URL is required"
          ++ check apiKey "API key is required").

(** [validateModel(model: Partial<AIModel>)] *)
Definition validateModel (name providerId modelIdentifier : option jsstring)
    : ValidationResult :=
  result (check name "Model name is required"
          ++ check providerId "Provider ID is required"
          ++ check modelIdentifier "Model identifier is required").

End Validation.

(* ================================================================== *)
(** ** settings/settings-manager.ts                                   *)
(* ================================================================== *)

Module Settings.
Import PluginSettings.

(** The manager's [settings] object.  Every entry of [providers] and
    [models] is an object of its own: [addModel], [updateModel] and
    their provider counterparts store freshly built objects, so an
    in-place assignment to a field of one entry is the update of that
    entry alone. *)
Definition state := PluginSettings.t.

Definition initial : state := Constants.DEFAULT_SETTINGS.

Definition hasProviderId (id : jsstring) (p : AIProvider.t) : bool :=
  JS.eqb (AIProvider.id p) id.

Definition hasModelId (id : jsstring) (m : AIModel.t) : bool :=
  JS.eqb (AIModel.id m) id.

Definition getProvider (s : state) (id : jsstring) : option AIProvider.t :=
  find (hasProviderId id) (providers s).

Definition getModel (s : state) (id : jsstring) : option AIModel.t :=
  find (hasModelId id) (models s).

(** The outcome of an add or update: [{success, provider|model, errors}]. *)
Inductive outcome (A : Type) :=
| Success (value : A)
| Failure (errors : list jsstring).
Arguments Failure {A} errors.

(** [Omit<AIProvider, 'id'>] *)
Record NewProvider := {
  np_name : jsstring;
  np_baseUrl : jsstring;
  np_apiKey : jsstring;
  np_enabled : bool;
  np_type : ProviderType
}.

(** [addProvider(provider)]; [newId] is the result of [generateId()]. *)
Definition addProvider (s : state) (provider : NewProvider)
    (newId : jsstring) : outcome AIProvider.t * state :=
  let validation :=
    Validation.validateProvider (Some (np_name provider))
      (Some (np_baseUrl provider)) (Some (np_apiKey provider)) in
  if negb (Validation.valid validation) then
    (Failure (Validation.errors validation), s)
  else
    let newProvider :=
      {| AIProvider.id := newId;
         AIProvider.name := np_name provider;
         AIProvider.baseUrl := np_baseUrl provider;
         AIProvider.apiKey := np_apiKey provider;
         AIProvider.enabled := np_enabled provider;
         AIProvider.type := np_type provider |} in
    (Success newProvider, with_providers (providers s ++ [newProvider]) s).

(** [deleteProvider(id)] *)
Definition deleteProvider (s : state) (id : jsstring) : bool * state :=
  match Arr.findIndex (hasProviderId id) (providers s) with
  | None => (false, s)
  | Some index =>
      let s1 := with_providers (Arr.removeAt index (providers s)) s in
      let s2 :=
        with_models
          (filter (fun m => negb (JS.eqb (AIModel.providerId m) id))
                  (models s1)) s1 in
      (true, s2)
  end.

(** [toggleProvider(id)]: [None] is [{success: false}]. *)
Definition toggleProvider (s : state) (id : jsstring)
    : option bool * state :=
  match Arr.findIndex (hasProviderId id) (providers s) with
  | None => (None, s)
  | Some index =>
      let flip p :=
        {| AIProvider.id := AIProvider.id p;
           AIProvider.name := AIProvider.name p;
           AIProvider.baseUrl := AIProvider.baseUrl p;
           AIProvider.apiKey := AIProvider.apiKey p;
           AIProvider.enabled := negb (AIProvider.enabled p);
           AIProvider.type := AIProvider.type p |} in
      let s' := with_providers (Arr.updateAt index flip (providers s)) s in
      (option_map AIProvider.enabled (nth_error (providers s') index), s')
  end.

(** [getAvailableModels()] *)
Definition getAvailableModels (s : state) : list AIModel.t :=
  let enabledProviderIds :=
    map AIProvider.id (filter AIProvider.enabled (providers s)) in
  filter (fun m => existsb (JS.eqb (AIModel.providerId m)) enabledProviderIds)
         (models s).

(** [Omit<AIModel, 'id'>] *)
Record NewModel := {
  nm_name : jsstring;
  nm_providerId : jsstring;
  nm_modelIdentifier : jsstring;
  nm_isDefault : bool
}.

Definition unsetDefaults (l : list AIModel.t) : list AIModel.t :=
  map (AIModel.with_isDefault false) l.

(** [addModel(model)]; [newId] is the result of [generateId()]. *)
Definition addModel (s : state) (model : NewModel) (newId : jsstring)
    : outcome AIModel.t * state :=
  let validation :=
    Validation.validateModel (Some (nm_name model))
      (Some (nm_providerId model)) (Some (nm_modelIdentifier model)) in
  if negb (Validation.valid validation) then
    (Failure (Validation.errors validation), s)
  else
    match find (hasProviderId (nm_providerId model)) (providers s) with
    | None => (Failure [js "Provider not found"], s)
    | Some _ =>
        let newModel :=
          {| AIModel.id := newId;
             AIModel.name := nm_name model;
             AIModel.providerId := nm_providerId model;
             AIModel.modelIdentifier := nm_modelIdentifier model;
             AIModel.isDefault := nm_isDefault model |} in
        let others :=
          if AIModel.isDefault newModel then unsetDefaults (models s)
          else models s in
        (Success newModel, with_models (others ++ [newModel]) s)
    end.

(** [Partial<Omit<AIModel, 'id'>>]: a field is absent or given. *)
Record ModelUpdates := {
  u_name : option jsstring;
  u_providerId : option jsstring;
  u_modelIdentifier : option jsstring;
  u_isDefault : option bool
}.

Definition override {A : Type} (old : A) (upd : option A) : A :=
  match upd with Some v => v | None => old end.

(** [{ ...model, ...updates }] *)
Definition applyUpdates (m : AIModel.t) (u : ModelUpdates) : AIModel.t :=
  {| AIModel.id := AIModel.id m;
     AIModel.name := override (AIModel.name m) (u_name u);
     AIModel.providerId := override (AIModel.providerId m) (u_providerId u);
     AIModel.modelIdentifier :=
       override (AIModel.modelIdentifier m) (u_modelIdentifier u);
     AIModel.isDefault := override (AIModel.isDefault m) (u_isDefault u) |}.

(** [updateModel(id, updates)] *)
Definition updateModel (s : state) (id : jsstring) (updates : ModelUpdates)
    : outcome AIModel.t * state :=
  match Arr.findIndex (hasModelId id) (models s) with
  | None => (Failure [js "Model not found"], s)
  | Some index =>
      match nth_error (models s) index with
      | None => (Failure [js "Model not found"], s)
      | Some old =>
          let updatedModel := applyUpdates old updates in
          let validation :=
            Validation.validateModel (Some (AIModel.name updatedModel))
              (Some (AIModel.providerId updatedModel))
              (Some (AIModel.modelIdentifier updatedModel)) in
          if negb (Validation.valid validation) then
            (Failure (Validation.errors validation), s)
          else
            let providerMissing :=
              match u_providerId updates with
              | Some pid =>
                  negb (JS.falsy pid) &&
                  match find (hasProviderId pid) (providers s) with
                  | Some _ => false
                  | None => true
                  end
              | None => false
              end in
            if providerMissing then (Failure [js "Provider not found"], s)
            else
              let others :=
                match u_isDefault updates with
                | Some true => unsetDefaults (models s)
                | _ => models s
                end in
              (Success updatedModel,
               with_models
                 (Arr.updateAt index (fun _ => updatedModel) others) s)
      end
  end.

(** [deleteModel(id)] *)
Definition deleteModel (s : state) (id : jsstring) : bool * state :=
  match Arr.findIndex (hasModelId id) (models s) with
  | None => (false, s)
  | Some index => (true, with_models (Arr.removeAt index (models s)) s)
  end.

(** [setDefaultModel(id)].  [find] yields the first model with that
    id; every entry is unset and then that object is set. *)
Definition setDefaultModel (s : state) (id : jsstring) : bool * state :=
  match Arr.findIndex (hasModelId id) (models s) with
  | None => (false, s)
  | Some index =>
      (true,
       with_models
         (Arr.updateAt index (AIModel.with_isDefault true)
            (unsetDefaults (models s))) s)
  end.

(** [getDefaultModel()] *)
Definition getDefaultModel (s : state) : option AIModel.t :=
  find AIModel.isDefault (models s).

(** The registry operations a caller may issue, each with what the
    environment supplies to it, and the state after a call. *)
Inductive call :=
| AddProvider (provider : NewProvider) (newId : jsstring)
| DeleteProvider (id : jsstring)
| ToggleProvider (id : jsstring)
| AddModel (model : NewModel) (newId : jsstring)
| UpdateModel (id : jsstring) (updates : ModelUpdates)
| DeleteModel (id : jsstring)
| SetDefaultModel (id : jsstring).

Definition perform (s : state) (c : call) : state :=
  match c with
  | AddProvider provider newId => snd (addProvider s provider newId)
  | DeleteProvider id => snd (deleteProvider s id)
  | ToggleProvider id => snd (toggleProvider s id)
  | AddModel model newId => snd (addModel s model newId)
  | UpdateModel id updates => snd (updateModel s id updates)
  | DeleteModel id => snd (deleteModel s id)
  | SetDefaultModel id => snd (setDefaultModel s id)
  end.

Definition performAll (s : state) (calls : list call) : state :=
  fold_left perform calls s.

(** The number of models whose [isDefault] is set. *)
Definition defaultCount (s : state) : nat :=
  List.length (filter AIModel.isDefault (models s)).

End Settings.

(* ================================================================== *)
(** ** src/state/chat-state.ts                                        *)
(* ================================================================== *)

Module ChatState.

Record ChatStateManager := {
  sessions : list ChatSession.t;
  currentSessionId : option jsstring
}.

Definition hasId (id : jsstring) (s : ChatSession.t) : bool :=
  JS.eqb (ChatSession.id s) id.

(** [getSession(sessionId)] *)
Definition getSession (m : ChatStateManager) (sessionId : jsstring)
    : option ChatSession.t :=
  find (hasId sessionId) (sessions m).

(** [getCurrentSession()] *)
Definition getCurrentSession (m : ChatStateManager) : option ChatSession.t :=
  match currentSessionId m with
  | Some c => if JS.falsy c then None else find (hasId c) (sessions m)
  | None => None
  end.

(** The comparator [(a, b) => b.updatedAt - a.updatedAt]. *)
Definition byUpdatedAtDesc (a b : ChatSession.t) : Z :=
  (ChatSession.updatedAt b - ChatSession.updatedAt a)%Z.

(** [pruneSessions()] *)
Definition pruneSessions (m : ChatStateManager) : ChatStateManager :=
  if (Constants.MAX_SESSIONS <? List.length (sessions m))%nat then
    let sorted := Arr.sort byUpdatedAtDesc (sessions m) in
    let kept := firstn Constants.MAX_SESSIONS sorted in
    let current :=
      match currentSessionId m with
      | Some c =>
          if negb (JS.falsy c) &&
             negb (match find (hasId c) kept with
                   | Some _ => true
                   | None => false
                   end)
          then match kept with
               | first :: _ => Some (ChatSession.id first)
               | [] => None
               end
          else Some c
      | None => None
      end in
    {| sessions := kept; currentSessionId := current |}
  else m.

(** [createSession(modelId)].  The environment supplies the clock
    reading and random suffix used by [generateId()] and the two
    later clock readings stored in [createdAt] and [updatedAt]. *)
Definition createSession (m : ChatStateManager) (modelId : jsstring)
    (idTime : Z) (rnd : jsstring) (createdAt updatedAt : Z)
    : ChatSession.t * ChatStateManager :=
  let session :=
    {| ChatSession.id := Env.generateId idTime rnd;
       ChatSession.messages := [];
       ChatSession.contextItems := [];
       ChatSession.currentModelId := modelId;
       ChatSession.createdAt := createdAt;
       ChatSession.updatedAt := updatedAt |} in
  let pushed :=
    {| sessions := sessions m ++ [session];
       currentSessionId := Some (ChatSession.id session) |} in
  (session, pruneSessions pushed).

(** [deleteSession(sessionId)] *)
Definition deleteSession (m : ChatStateManager) (sessionId : jsstring)
    : bool * ChatStateManager :=
  match Arr.findIndex (hasId sessionId) (sessions m) with
  | None => (false, m)
  | Some index =>
      let rest := Arr.removeAt index (sessions m) in
      let current :=
        match currentSessionId m with
        | Some c =>
            if JS.eqb c sessionId
            then match rev rest with
                 | lastOne :: _ => Some (ChatSession.id lastOne)
                 | [] => None
                 end
            else Some c
        | None => None
        end in
      (true, {| sessions := rest; currentSessionId := current |})
  end.

(** Sessions in the order of the sort: later ones were updated no
    later than earlier ones. *)
Definition newerFirst (a b : ChatSession.t) : Prop :=
  (ChatSession.updatedAt b <= ChatSession.updatedAt a)%Z.

End ChatState.

(* ================================================================== *)
(** ** context/context-manager.ts                                     *)
(* ================================================================== *)

Module Context.

(** [formatFileContext(path, content)] *)
Definition formatFileContext (path content : jsstring) : jsstring :=
  js "--- File: " ++ path ++ js " ---" ++ [JS.LF] ++ content
  ++ [JS.LF] ++ js "--- End of " ++ path ++ js " ---".

(** [formatSelectionContext(content)] *)
Definition formatSelectionContext (content : jsstring) : jsstring :=
  let lines := JS.split content in
  JS.join [JS.LF] (map (fun line => js "> " ++ line) lines).

(** The manager's [Map<string, ContextItem>]: keys in insertion
    order, at most one entry per key. *)
Record ContextManager := {
  contextItems : list (jsstring * ContextItem.t)
}.

(** [Map.prototype.set]: an existing key keeps its position. *)
Fixpoint mapSet (k : jsstring) (v : ContextItem.t)
    (l : list (jsstring * ContextItem.t)) : list (jsstring * ContextItem.t) :=
  match l with
  | [] => [(k, v)]
  | (k', v') :: r =>
      if JS.eqb k' k then (k', v) :: r else (k', v') :: mapSet k v r
  end.

(** [loadContext(items)] *)
Definition loadContext (items : list ContextItem.t) : ContextManager :=
  {| contextItems :=
       fold_left (fun acc item => mapSet (ContextItem.id item) item acc)
                 items [] |}.

(** [removeContext(id)] *)
Definition removeContext (m : ContextManager) (id : jsstring)
    : bool * ContextManager :=
  (existsb (fun kv => JS.eqb (fst kv) id) (contextItems m),
   {| contextItems :=
        filter (fun kv => negb (JS.eqb (fst kv) id)) (contextItems m) |}).

(** [getActiveContext()] *)
Definition getActiveContext (m : ContextManager) : list ContextItem.t :=
  map snd (contextItems m).

(** [item.path || item.displayName] *)
Definition pathOrDisplayName (item : ContextItem.t) : jsstring :=
  match ContextItem.path item with
  | Some p => if JS.falsy p then ContextItem.displayName item else p
  | None => ContextItem.displayName item
  end.

(** [formatContextForAPI()] *)
Definition formatContextForAPI (m : ContextManager) : jsstring :=
  let items := getActiveContext m in
  if (List.length items =? 0)%nat then []
  else
    let formattedItems :=
      map (fun item =>
             match ContextItem.type item with
             | selection =>
                 js "[Selected Text]" ++ [JS.LF]
                 ++ formatSelectionContext (ContextItem.content item)
             | _ =>
                 formatFileContext (pathOrDisplayName item)
                                   (ContextItem.content item)
             end) items in
    js "The following context has been provided:" ++ [JS.LF; JS.LF]
    ++ JS.join [JS.LF; JS.LF] formattedItems.

End Context.

(* ================================================================== *)
(** ** TextDecoder: the UTF-8 decoder of the Encoding standard         *)
(* ================================================================== *)

Module TextDecoder.

(** The state kept between [decode(value, { stream: true })] calls: the
    UTF-8 decoder's variables and the decoder object's BOM-seen flag. *)
Record t := {
  codePoint : N;
  bytesSeen : N;
  bytesNeeded : N;
  lowerBoundary : N;
  upperBoundary : N;
  bomSeen : bool
}.

(** [new TextDecoder()] *)
Definition initial : t :=
  {| codePoint := 0; bytesSeen := 0; bytesNeeded := 0;
     lowerBoundary := 128; upperBoundary := 191; bomSeen := false |}.

Definition reset (d : t) : t :=
  {| codePoint := 0; bytesSeen := 0; bytesNeeded := 0;
     lowerBoundary := 128; upperBoundary := 191; bomSeen := bomSeen d |}.

Definition expect (d : t) (needed lower upper cp : N) : t :=
  {| codePoint := cp; bytesSeen := 0; bytesNeeded := needed;
     lowerBoundary := lower; upperBoundary := upper; bomSeen := bomSeen d |}.

Definition REPLACEMENT : N := 65533.

(** The handler on a byte when no continuation byte is awaited; the
    code points it emits (U+FFFD for an error). *)
Definition lead (d : t) (b : N) : t * list N :=
  if (b <=? 127)%N then (d, [b])
  else if ((194 <=? b) && (b <=? 223))%N then
    (expect d 1 128 191 (N.land b 31), [])
  else if ((224 <=? b) && (b <=? 239))%N then
    (expect d 2 (if (b =? 224)%N then 160 else 128)
       (if (b =? 237)%N then 159 else 191) (N.land b 15), [])
  else if ((240 <=? b) && (b <=? 244))%N then
    (expect d 3 (if (b =? 240)%N then 144 else 128)
       (if (b =? 244)%N then 143 else 191) (N.land b 7), [])
  else (d, [REPLACEMENT]).

(** The handler on any byte.  A byte outside the awaited range ends
    the sequence with an error and is handled again as a lead byte. *)
Definition handler (d : t) (b : N) : t * list N :=
  if (bytesNeeded d =? 0)%N then lead d b
  else if ((b <? lowerBoundary d) || (upperBoundary d <? b))%N then
    let '(d', out) := lead (reset d) b in (d', REPLACEMENT :: out)
  else
    let cp := N.lor (N.shiftl (codePoint d) 6) (N.land b 63) in
    let seen := (bytesSeen d + 1)%N in
    if (seen =? bytesNeeded d)%N then (reset d, [cp])
    else
      ({| codePoint := cp; bytesSeen := seen; bytesNeeded := bytesNeeded d;
          lowerBoundary := 128; upperBoundary := 191; bomSeen := bomSeen d |},
       []).

(** A code point as UTF-16 code units. *)
Definition units (cp : N) : jsstring :=
  if (cp <? 65536)%N then [cp]
  else
    let v := (cp - 65536)%N in
    [(55296 + N.shiftr v 10)%N; (56320 + N.land v 1023)%N].

(** Output of one code point: the first one is dropped when it is the
    byte order mark U+FEFF. *)
Definition emit (d : t) (cp : N) : t * jsstring :=
  if bomSeen d then (d, units cp)
  else
    let d' :=
      {| codePoint := codePoint d; bytesSeen := bytesSeen d;
         bytesNeeded := bytesNeeded d; lowerBoundary := lowerBoundary d;
         upperBoundary := upperBoundary d; bomSeen := true |} in
    if (cp =? 65279)%N then (d', []) else (d', units cp).

Fixpoint emitAll (d : t) (cps : list N) : t * jsstring :=
  match cps with
  | [] => (d, [])
  | cp :: r =>
      let '(d1, u1) := emit d cp in
      let '(d2, u2) := emitAll d1 r in
      (d2, u1 ++ u2)
  end.

(** One byte through the decoder. *)
Definition step (d : t) (b : Byte.byte) : t * jsstring :=
  let '(d1, cps) := handler d (Byte.to_N b) in emitAll d1 cps.

(** [decoder.decode(value, { stream: true })]: the text decoded from
    the bytes of [value]; an incomplete sequence at the end stays in
    the state. *)
Fixpoint decode (d : t) (value : list Byte.byte) : t * jsstring :=
  match value with
  | [] => (d, [])
  | b :: r =>
      let '(d1, u1) := step d b in
      let '(d2, u2) := decode d1 r in
      (d2, u1 ++ u2)
  end.

End TextDecoder.

(* ================================================================== *)
(** ** JSON.parse and the values it yields                            *)
(* ================================================================== *)

Module JSON.

(** A number literal [(-1)^negative * mantissa * 10^exponent]; the JS
    number is the double nearest to it. *)
Record number := {
  negative : bool;
  mantissa : N;
  exponent : Z
}.

(** The values [JSON.parse] returns.  An object keeps its members in
    source order; a later member overrides an earlier one of the same
    name. *)
Inductive value :=
| JNull
| JBool (b : bool)
| JNumber (n : number)
| JString (s : jsstring)
| JArray (elements : list value)
| JObject (members : list (jsstring * value)).

(** The double nearest to the literal is [0] or [-0]: the literal is
    zero or at most 2^-1075, half the least positive double. *)
Definition isZero (n : number) : bool :=
  (mantissa n =? 0)%N ||
  ((exponent n <? 0)%Z &&
   (Z.of_N (mantissa n) * 2 ^ 1075 <=? 10 ^ (- exponent n))%Z).

(** [Boolean(v)] *)
Definition truthy (v : value) : bool :=
  match v with
  | JNull => false
  | JBool b => b
  | JNumber n => negb (isZero n)
  | JString s => negb (JS.falsy s)
  | JArray _ | JObject _ => true
  end.

Definition isSpace (c : N) : bool :=
  ((c =? 32) || (c =? 9) || (c =? 10) || (c =? 13))%N.

Fixpoint skipSpace (s : jsstring) : jsstring :=
  match s with
  | c :: r => if isSpace c then skipSpace r else s
  | [] => []
  end.

Definition isDigit (c : N) : bool := ((48 <=? c) && (c <=? 57))%N.

Definition hexDigit (c : N) : option N :=
  if ((48 <=? c) && (c <=? 57))%N then Some (c - 48)%N
  else if ((65 <=? c) && (c <=? 70))%N then Some (c - 55)%N
  else if ((97 <=? c) && (c <=? 102))%N then Some (c - 87)%N
  else None.

Definition hex4 (a b c d : N) : option N :=
  match hexDigit a, hexDigit b, hexDigit c, hexDigit d with
  | Some a, Some b, Some c, Some d => Some (((a * 16 + b) * 16 + c) * 16 + d)%N
  | _, _, _, _ => None
  end.

(** The character after a backslash, [u] apart. *)
Definition escape (c : N) : option N :=
  if (c =? 34)%N then Some 34%N
  else if (c =? 92)%N then Some 92%N
  else if (c =? 47)%N then Some 47%N
  else if (c =? 98)%N then Some 8%N
  else if (c =? 102)%N then Some 12%N
  else if (c =? 110)%N then Some 10%N
  else if (c =? 114)%N then Some 13%N
  else if (c =? 116)%N then Some 9%N
  else None.

(** The rest of a string literal after its opening quote: the string
    ([acc] holds it reversed) and what follows the closing quote. *)
Fixpoint parseString (s acc : jsstring) : option (jsstring * jsstring) :=
  match s with
  | [] => None
  | c :: r =>
      if (c =? 34)%N then Some (rev acc, r)
      else if (c =? 92)%N then
        match r with
        | [] => None
        | e :: r1 =>
            if (e =? 117)%N then
              match r1 with
              | h1 :: h2 :: h3 :: h4 :: r2 =>
                  match hex4 h1 h2 h3 h4 with
                  | Some u => parseString r2 (u :: acc)
                  | None => None
                  end
              | _ => None
              end
            else
              match escape e with
              | Some u => parseString r1 (u :: acc)
              | None => None
              end
        end
      else if (c <? 32)%N then None
      else parseString r (c :: acc)
  end.

(** The leading decimal digits: their value, their count, the rest. *)
Fixpoint spanDigits (s : jsstring) (acc : N) (count : nat)
    : N * nat * jsstring :=
  match s with
  | c :: r =>
      if isDigit c then spanDigits r (acc * 10 + (c - 48))%N (S count)
      else (acc, count, s)
  | [] => (acc, count, s)
  end.

(** A number literal: an optional minus; 0, or a non-zero digit and
    further digits; optionally a point and one or more digits;
    optionally e or E, a sign, and one or more digits. *)
Definition parseNumber (s : jsstring) : option (number * jsstring) :=
  let '(neg, s1) :=
    match s with
    | c :: r => if (c =? 45)%N then (true, r) else (false, s)
    | [] => (false, s)
    end in
  let integer :=
    match s1 with
    | c :: r =>
        if (c =? 48)%N then Some (0%N, r)
        else if isDigit c then
          let '(v, _, r') := spanDigits s1 0 0 in Some (v, r')
        else None
    | [] => None
    end in
  match integer with
  | None => None
  | Some (int, s2) =>
      let fraction :=
        match s2 with
        | c :: r =>
            if (c =? 46)%N then
              let '(v, n, r') := spanDigits r 0 0 in
              match n with
              | O => None
              | _ => Some ((int * 10 ^ N.of_nat n + v)%N, Z.of_nat n, r')
              end
            else Some (int, 0%Z, s2)
        | [] => Some (int, 0%Z, s2)
        end in
      match fraction with
      | None => None
      | Some (mant, scale, s3) =>
          let exponentPart :=
            match s3 with
            | c :: r =>
                if ((c =? 101) || (c =? 69))%N then
                  let '(minus, r1) :=
                    match r with
                    | g :: r' =>
                        if (g =? 45)%N then (true, r')
                        else if (g =? 43)%N then (false, r')
                        else (false, r)
                    | [] => (false, r)
                    end in
                  let '(v, n, r2) := spanDigits r1 0 0 in
                  match n with
                  | O => None
                  | _ => Some ((if minus then - Z.of_N v else Z.of_N v)%Z, r2)
                  end
                else Some (0%Z, s3)
            | [] => Some (0%Z, s3)
            end in
          match exponentPart with
          | None => None
          | Some (e, s4) =>
              Some ({| negative := neg; mantissa := mant;
                       exponent := (e - scale)%Z |}, s4)
          end
      end
  end.

(** The result of parsing a prefix of the text. *)
Inductive parsed (A : Type) :=
| Parsed (a : A) (rest : jsstring)
| SyntaxError
| OutOfFuel.
Arguments SyntaxError {A}.
Arguments OutOfFuel {A}.

(** A value, the elements of an array after its first bracket, the
    members of an object after its first brace.  Every call is on a
    shorter text than its caller's; [fuel] bounds the call depth. *)
Fixpoint parseValue (fuel : nat) (s : jsstring) {struct fuel} : parsed value :=
  match fuel with
  | O => OutOfFuel
  | S fuel' =>
      match skipSpace s with
      | [] => SyntaxError
      | c :: r =>
          if (c =? 123)%N then
            match skipSpace r with
            | [] => SyntaxError
            | c' :: r' =>
                if (c' =? 125)%N then Parsed (JObject []) r'
                else parseMembers fuel' (c' :: r') []
            end
          else if (c =? 91)%N then
            match skipSpace r with
            | [] => SyntaxError
            | c' :: r' =>
                if (c' =? 93)%N then Parsed (JArray []) r'
                else parseElements fuel' (c' :: r') []
            end
          else if (c =? 34)%N then
            match parseString r [] with
            | Some (str, r') => Parsed (JString str) r'
            | None => SyntaxError
            end
          else if JS.startsWith (c :: r) (js "true") then
            Parsed (JBool true) (JS.slice (c :: r) 4)
          else if JS.startsWith (c :: r) (js "false") then
            Parsed (JBool false) (JS.slice (c :: r) 5)
          else if JS.startsWith (c :: r) (js "null") then
            Parsed JNull (JS.slice (c :: r) 4)
          else
            match parseNumber (c :: r) with
            | Some (n, r') => Parsed (JNumber n) r'
            | None => SyntaxError
            end
      end
  end

with parseElements (fuel : nat) (s : jsstring) (acc : list value)
    {struct fuel} : parsed value :=
  match fuel with
  | O => OutOfFuel
  | S fuel' =>
      match parseValue fuel' s with
      | Parsed v r =>
          match skipSpace r with
          | [] => SyntaxError
          | c :: r' =>
              if (c =? 44)%N then parseElements fuel' r' (v :: acc)
              else if (c =? 93)%N then Parsed (JArray (rev (v :: acc))) r'
              else SyntaxError
          end
      | SyntaxError => SyntaxError
      | OutOfFuel => OutOfFuel
      end
  end

with parseMembers (fuel : nat) (s : jsstring) (acc : list (jsstring * value))
    {struct fuel} : parsed value :=
  match fuel with
  | O => OutOfFuel
  | S fuel' =>
      match skipSpace s with
      | [] => SyntaxError
      | q :: r =>
          if (q =? 34)%N then
            match parseString r [] with
            | None => SyntaxError
            | Some (name, r1) =>
                match skipSpace r1 with
                | [] => SyntaxError
                | c1 :: r2 =>
                    if (c1 =? 58)%N then
                      match parseValue fuel' r2 with
                      | Parsed v r3 =>
                          match skipSpace r3 with
                          | [] => SyntaxError
                          | c3 :: r4 =>
                              if (c3 =? 44)%N then
                                parseMembers fuel' r4 ((name, v) :: acc)
                              else if (c3 =? 125)%N then
                                Parsed (JObject (rev ((name, v) :: acc))) r4
                              else SyntaxError
                          end
                      | SyntaxError => SyntaxError
                      | OutOfFuel => OutOfFuel
                      end
                    else SyntaxError
                end
            end
          else SyntaxError
      end
  end.

(** Enough fuel for any text of this length. *)
Definition fuelFor (text : jsstring) : nat := S (2 * List.length text).

(** [JSON.parse(text)]; [None] is a thrown [SyntaxError]. *)
Definition parse (text : jsstring) : option value :=
  match parseValue (fuelFor text) text with
  | Parsed v rest =>
      match skipSpace rest with
      | [] => Some v
      | _ :: _ => None
      end
  | _ => None
  end.

(** The property names the client reads. *)
Inductive key := choices | index0 | delta | content | text.

Definition keyName (k : key) : jsstring :=
  match k with
  | choices => js "choices"
  | index0 => js "0"
  | delta => js "delta"
  | content => js "content"
  | text => js "text"
  end.

Fixpoint lookup (name : jsstring) (members : list (jsstring * value))
    : option value :=
  match members with
  | [] => None
  | (k, v) :: r =>
      match lookup name r with
      | Some later => Some later
      | None => if JS.eqb k name then Some v else None
      end
  end.

(** [v[k]] for a [v] that is neither [null] nor [undefined]; [None] is
    [undefined].  None of these names is on a prototype: a number or a
    boolean has none of them, an array or a string only the index. *)
Definition get (v : value) (k : key) : option value :=
  match v with
  | JObject members => lookup (keyName k) members
  | JArray elements =>
      match k with
      | index0 => nth_error elements 0
      | _ => None
      end
  | JString s =>
      match k, s with
      | index0, c :: _ => Some (JString [c])
      | _, _ => None
      end
  | _ => None
  end.

(** [v?.k] and [v?.[k]] *)
Definition getOptional (v : option value) (k : key) : option value :=
  match v with
  | None | Some JNull => None
  | Some v => get v k
  end.

(** [Boolean(v)] for a [v] that may be [undefined]. *)
Definition truthyOrUndefined (v : option value) : bool :=
  match v with
  | Some v => truthy v
  | None => false
  end.

End JSON.

(* ================================================================== *)
(** ** src/services/ai-client.ts: errors, dispatch, request build     *)
(* ================================================================== *)

Module AIClient.

Inductive APIErrorType :=
| auth | rate_limit | network | server | timeout | unknown.

(** The result of [parseInt]: an integer or [NaN].  (A JS number is a
    double; the header values of interest are far below 2^53, where
    the double is the integer itself.) *)
Inductive jsint := NaN | Int (z : Z).

Record APIError := {
  message : jsstring;
  type : APIErrorType;
  statusCode : option Z;
  retryAfter : option jsint
}.

(** How a call ends: with a value, or with a thrown [APIError]. *)
Inductive completion (A : Type) :=
| Returns (value : A)
| Throws (error : APIError).
Arguments Throws {A} error.

Definition MAX_RETRIES : nat := 3.
Definition TIMEOUT_NON_STREAMING : Z := 30000.
Definition TIMEOUT_STREAMING : Z := 60000.
Definition BACKOFF_DELAYS : list Z := [1000; 2000; 4000]%Z.

(** What the code reads of a fetch [Response]: the status (and [ok],
    which the Fetch standard defines as a status in 200..299), the
    value of [headers.get('retry-after')], and the chunks that the
    body's reader delivers before the stream closes ([None] when
    there is no body). *)
Record Response := {
  status : Z;
  retryAfterHeader : option jsstring;
  body : option (list (list Byte.byte))
}.

Definition ok (response : Response) : bool :=
  ((200 <=? status response) && (status response <=? 299))%Z.

(** [parseInt(s, 10)]: leading white space, an optional sign, then
    the longest run of decimal digits. *)
Definition digit (c : N) : option Z :=
  if ((48 <=? c) && (c <=? 57))%N then Some (Z.of_N c - 48)%Z else None.

Fixpoint digits (s : jsstring) (acc : option Z) : option Z :=
  match s with
  | [] => acc
  | c :: r =>
      match digit c with
      | Some d =>
          digits r (Some (10 * match acc with Some a => a | None => 0 end + d)%Z)
      | None => acc
      end
  end.

Definition parseInt (s : jsstring) : jsint :=
  let s := JS.trimStart s in
  let '(negative, s) :=
    match s with
    | c :: r =>
        if (c =? 45)%N then (true, r)
        else if (c =? 43)%N then (false, r)
        else (false, s)
    | [] => (false, s)
    end in
  match digits s None with
  | Some n => Int (if negative then - n else n)
  | None => NaN
  end.

(** [classifyError(response)] *)
Definition classifyError (response : Response) : APIError :=
  let statusCode := status response in
  if ((statusCode =? 401) || (statusCode =? 403))%Z then
    {| message := js "Invalid API key. Please check your provider settings.";
       type := auth;
       statusCode := Some statusCode;
       retryAfter := None |}
  else if (statusCode =? 429)%Z then
    let retryAfterHeader := retryAfterHeader response in
    let retryAfter :=
      match retryAfterHeader with
      | Some h => if JS.falsy h then None else Some (parseInt h)
      | None => None
      end in
    {| message :=
         js "Rate limit exceeded. Please wait before sending another message.";
       type := rate_limit;
       statusCode := Some statusCode;
       retryAfter := retryAfter |}
  else if (statusCode >=? 500)%Z then
    {| message := js "AI provider service error. Please try again later.";
       type := server;
       statusCode := Some statusCode;
       retryAfter := None |}
  else
    {| message := js "API error: " ++ Env.decimal statusCode;
       type := unknown;
       statusCode := Some statusCode;
       retryAfter := None |}.

(** How one [fetch] call ends: with a response, with the
    [AbortError] raised when the timeout fires, or with any other
    exception of the transport. *)
Inductive FetchOutcome :=
| Responds (response : Response)
| Aborts
| Fails.

(** The effects of [makeRequest]: how many times [fetch] was called
    and which delays were awaited, oldest first ([None] is
    [BACKOFF_DELAYS[attempt]] out of range). *)
Record Effects := {
  fetches : nat;
  delays : list (option Z)
}.

Definition noEffects : Effects := {| fetches := 0; delays := [] |}.

Definition fetched (w : Effects) : Effects :=
  {| fetches := S (fetches w); delays := delays w |}.

Definition delay (ms : option Z) (w : Effects) : Effects :=
  {| fetches := fetches w; delays := delays w ++ [ms] |}.

Definition timeoutError : APIError :=
  {| message := js "Request timeout. Please try again.";
     type := timeout; statusCode := None; retryAfter := None |}.

Definition networkError : APIError :=
  {| message :=
       js "Network error. Please check your connection and try again.";
     type := network; statusCode := None; retryAfter := None |}.

Definition unknownError : APIError :=
  {| message := js "Unknown error";
     type := unknown; statusCode := None; retryAfter := None |}.

(** The [for] loop of [makeRequest], entered with [attempt] and
    [remaining = MAX_RETRIES - attempt] iterations to go.  [fetch k]
    is how the [k]-th call of [fetch] (counting from 0) ends. *)
Fixpoint attempts (fetch : nat -> FetchOutcome) (remaining attempt : nat)
    (lastError : option APIError) (w : Effects)
    : completion Response * Effects :=
  match remaining with
  | O =>
      (Throws (match lastError with Some e => e | None => unknownError end), w)
  | S remaining' =>
      let w1 := fetched w in
      match fetch (fetches w) with
      | Responds response =>
          if negb (ok response) then
            let error := classifyError response in
            match type error with
            | auth => (Throws error, w1)
            | rate_limit => (Throws error, w1)
            | _ =>
                if (attempt =? MAX_RETRIES - 1)%nat then (Throws error, w1)
                else
                  attempts fetch remaining' (S attempt) (Some error)
                    (delay (nth_error BACKOFF_DELAYS attempt) w1)
            end
          else (Returns response, w1)
      | outcome =>
          let lastError :=
            match outcome with
            | Aborts => timeoutError
            | _ => networkError
            end in
          if (attempt =? MAX_RETRIES - 1)%nat then (Throws lastError, w1)
          else
            attempts fetch remaining' (S attempt) (Some lastError)
              (delay (nth_error BACKOFF_DELAYS attempt) w1)
      end
  end.

(** [makeRequest(provider, requestBody, timeout)] *)
Definition makeRequest (fetch : nat -> FetchOutcome)
    : completion Response * Effects :=
  attempts fetch MAX_RETRIES 0 None noEffects.

(** A [fetch] that answers from a script, then keeps failing. *)
Definition scripted (script : list FetchOutcome) (k : nat) : FetchOutcome :=
  nth k script Fails.

Definition answering (statusCode : Z) : FetchOutcome :=
  Responds {| status := statusCode; retryAfterHeader := None; body := None |}.

(** An outcome after which the loop goes on when attempts remain. *)
Definition retried (o : FetchOutcome) : bool :=
  match o with
  | Responds response =>
      negb (ok response) &&
      match type (classifyError response) with
      | auth | rate_limit => false
      | _ => true
      end
  | Aborts | Fails => true
  end.

(** The error [makeRequest] keeps for a failed attempt. *)
Definition errorOf (o : FetchOutcome) : APIError :=
  match o with
  | Responds response => classifyError response
  | Aborts => timeoutError
  | Fails => networkError
  end.


(** A non-ok answer that [classifyError] leaves unclassified. *)
Definition unclassified (o : FetchOutcome) : bool :=
  match o with
  | Responds response =>
      negb (ok response) &&
      match type (classifyError response) with
      | unknown => true
      | _ => false
      end
  | Aborts | Fails => false
  end.

(** The rendering of one context item inside the context message:
    [item => `[${item.displayName}]\n${item.content}`]. *)
Definition renderItem (item : ContextItem.t) : jsstring :=
  js "[" ++ ContextItem.displayName item ++ js "]"
  ++ [JS.LF] ++ ContextItem.content item.

(** C3 as the specification words it. *)
Definition unknown_surfaced_at_once : Prop :=
  forall fetch response,
    fetch 0%nat = Responds response ->
    ok response = false ->
    type (classifyError response) = unknown ->
    makeRequest fetch
    = (Throws (classifyError response), {| fetches := 1; delays := [] |}).

(** [prependContext(messages, contextItems)]; [idTime] and
    [timestamp] are the two readings of [Date.now()]. *)
Definition prependContext (messages : list ChatMessage.t)
    (contextItems : list ContextItem.t) (idTime timestamp : Z)
    : list ChatMessage.t :=
  if (List.length contextItems =? 0)%nat then messages
  else
    let contextContent :=
      JS.join ([JS.LF; JS.LF] ++ js "---" ++ [JS.LF; JS.LF])
        (map renderItem contextItems) in
    let contextMessage :=
      {| ChatMessage.id := js "context-" ++ Env.decimal idTime;
         ChatMessage.role := system;
         ChatMessage.content :=
           js "Context:" ++ [JS.LF; JS.LF] ++ contextContent;
         ChatMessage.timestamp := timestamp;
         ChatMessage.modelId := None |} in
    contextMessage :: messages.

(** C4 as the specification words it. *)
Definition context_rendered_by_formatter : Prop :=
  forall messages contextItems idTime timestamp,
    contextItems <> [] ->
    exists contextMessage,
      prependContext messages contextItems idTime timestamp
      = contextMessage :: messages /\
      ChatMessage.role contextMessage = system /\
      ChatMessage.content contextMessage
      = Context.formatContextForAPI (Context.loadContext contextItems).

(** *** Streaming *)

(** [choices?.[0]?.delta?.content] for [choices = parsed.choices], and
    [delta?.text] for [delta = parsed.delta], on a [parsed] other than
    [null]. *)
Definition deltaContent (parsed : JSON.value) : option JSON.value :=
  let choices := JSON.get parsed JSON.choices in
  JSON.getOptional
    (JSON.getOptional (JSON.getOptional choices JSON.index0) JSON.delta)
    JSON.content.

Definition deltaText (parsed : JSON.value) : option JSON.value :=
  let delta := JSON.get parsed JSON.delta in
  JSON.getOptional delta JSON.text.

(** A property that is missing or holds the empty string. *)
Definition absentOrEmpty (v : option JSON.value) : Prop :=
  v = None \/ v = Some (JSON.JString []).

(** [extractStreamContent(parsed)]; [None] is the [TypeError] thrown
    when a property of [null] is read ([parsed.choices] on a parsed
    [null]).  At run time the result is whatever value sits at
    [choices[0].delta.content] or [delta.text], or the empty string. *)
Definition extractStreamContent (parsed : JSON.value) : option JSON.value :=
  match parsed with
  | JSON.JNull => None
  | _ =>
      if JSON.truthyOrUndefined (deltaContent parsed) then deltaContent parsed
      else if JSON.truthyOrUndefined (deltaText parsed) then deltaText parsed
      else Some (JSON.JString [])
  end.

(** The body of the [try] around [JSON.parse]: the arguments with
    which [onChunk] is called (none or one); a thrown [SyntaxError] or
    [TypeError] is caught and nothing is delivered. *)
Definition deliver (data : jsstring) : list JSON.value :=
  match JSON.parse data with
  | None => []
  | Some parsed =>
      match extractStreamContent parsed with
      | None => []
      | Some content => if JSON.truthy content then [content] else []
      end
  end.

(** How the body of the [for] loop over the lines ends. *)
Inductive exit := Continue | Return.

(** The body of the loop over the complete lines, for [lines[i]];
    [delivered] lists the arguments of the [onChunk] calls so far. *)
Definition handleLine (raw : jsstring) (delivered : list JSON.value)
    : exit * list JSON.value :=
  let line := JS.trim raw in
  if JS.falsy line then (Continue, delivered)
  else if JS.startsWith line (js "data: ") then
    let data := JS.slice line 6 in
    if JS.eqb data (js "[DONE]") then (Return, delivered)
    else (Continue, delivered ++ deliver data)
  else (Continue, delivered).

(** [for (let i = 0; i < lines.length - 1; i++)], over the lines but
    the last. *)
Fixpoint handleLines (lines : list jsstring) (delivered : list JSON.value)
    : exit * list JSON.value :=
  match lines with
  | [] => (Continue, delivered)
  | line :: rest =>
      match handleLine line delivered with
      | (Return, delivered') => (Return, delivered')
      | (Continue, delivered') => handleLines rest delivered'
      end
  end.

(** "Process any remaining buffer", after the read loop. *)
Definition flush (buffer : jsstring) : list JSON.value :=
  if JS.startsWith (JS.trim buffer) (js "data: ") then
    let data := JS.slice (JS.trim buffer) 6 in
    if negb (JS.eqb data (js "[DONE]")) then deliver data else []
  else [].

(** What a run of [handleStreamResponse] did: the arguments of the
    [onChunk] calls in order, the number of [reader.read()] calls,
    whether it returned on [[DONE]], and the buffer it ended with. *)
Record Run := {
  delivered : list JSON.value;
  reads : nat;
  stoppedAtDone : bool;
  buffer : jsstring
}.

(** The [while (true)] loop and what follows it.  [pending] holds the
    chunks the reader has yet to deliver; when none is left the next
    read reports [done]. *)
Fixpoint readLoop (pending : list (list Byte.byte)) (decoder : TextDecoder.t)
    (buffer : jsstring) (delivered : list JSON.value) (reads : nat) : Run :=
  match pending with
  | [] =>
      {| delivered := delivered ++ flush buffer;
         reads := S reads;
         stoppedAtDone := false;
         buffer := buffer |}
  | value :: rest =>
      let '(decoder', decoded) := TextDecoder.decode decoder value in
      let buffer := buffer ++ decoded in
      let lines := JS.split buffer in
      let buffer := last lines [] in
      match handleLines (removelast lines) delivered with
      | (Return, delivered') =>
          {| delivered := delivered';
             reads := S reads;
             stoppedAtDone := true;
             buffer := buffer |}
      | (Continue, delivered') =>
          readLoop rest decoder' buffer delivered' (S reads)
      end
  end.

(** [handleStreamResponse(response, onChunk)], for a body whose stream
    closes after its chunks and an [onChunk] that returns normally. *)
Definition handleStreamResponse (response : Response) : completion Run :=
  match body response with
  | None =>
      Throws {| message := js "Response body is not readable";
                type := unknown; statusCode := None; retryAfter := None |}
  | Some chunks => Returns (readLoop chunks TextDecoder.initial [] [] 0)
  end.

(** The [onChunk] calls of a run ([[]] when it throws). *)
Definition callbacks (response : Response) : list JSON.value :=
  match handleStreamResponse response with
  | Returns run => delivered run
  | Throws _ => []
  end.

(** A streaming response delivering [chunks]. *)
Definition streaming (chunks : list (list Byte.byte)) : Response :=
  {| status := 200; retryAfterHeader := None; body := Some chunks |}.

(** The bytes of an ASCII text. *)
Definition bytes (s : string) : list Byte.byte := list_byte_of_string s.

(** The text the decoder yields for the whole byte sequence. *)
Definition decoded (all : list Byte.byte) : jsstring :=
  snd (TextDecoder.decode TextDecoder.initial all).

(** A line is the [[DONE]] sentinel. *)
Definition isDone (raw : jsstring) : bool :=
  let line := JS.trim raw in
  negb (JS.falsy line) && JS.startsWith line (js "data: ")
  && JS.eqb (JS.slice line 6) (js "[DONE]").

(** What a line other than the sentinel delivers: nothing when it is
    blank, is no [data: ] line, or holds malformed JSON or no delta. *)
Definition lineDeltas (raw : jsstring) : list JSON.value :=
  let line := JS.trim raw in
  if JS.falsy line then []
  else if JS.startsWith line (js "data: ") then deliver (JS.slice line 6)
  else [].

(** The lines before the first sentinel. *)
Fixpoint untilDone (lines : list jsstring) : list jsstring :=
  match lines with
  | [] => []
  | line :: rest => if isDone line then [] else line :: untilDone rest
  end.

(** The deltas of a byte stream as the specification describes them:
    the text is cut at line feeds; each complete line before the first
    sentinel delivers its delta, if it has one, in order; without a
    sentinel among the complete lines, what follows the last line feed
    is flushed when the stream closes. *)
Definition streamDeltas (all : list Byte.byte) : list JSON.value :=
  let lines := JS.split (decoded all) in
  let complete := removelast lines in
  flat_map lineDeltas (untilDone complete)
  ++ (if existsb isDone complete then [] else flush (last lines [])).

(** The parser seen one code unit at a time: a line feed hands the
    buffered line to the loop body, any other unit joins the buffer,
    and after the sentinel nothing is looked at any more. *)
Record Scan := {
  scanExit : exit;
  scanDelivered : list JSON.value;
  scanBuffer : jsstring
}.

Definition feed (st : Scan) (c : N) : Scan :=
  match scanExit st with
  | Return => st
  | Continue =>
      if N.eqb c JS.LF then
        let '(e, d) := handleLine (scanBuffer st) (scanDelivered st) in
        {| scanExit := e; scanDelivered := d; scanBuffer := [] |}
      else
        {| scanExit := Continue;
           scanDelivered := scanDelivered st;
           scanBuffer := scanBuffer st ++ [c] |}
  end.

Definition scan (st : Scan) (text : jsstring) : Scan := fold_left feed text st.

(** What has been delivered once the stream closes after [st]. *)
Definition closed (st : Scan) : list JSON.value :=
  match scanExit st with
  | Return => scanDelivered st
  | Continue => scanDelivered st ++ flush (scanBuffer st)
  end.

(** No line feed in a string. *)
Definition noLF (s : jsstring) : Prop := ~ In JS.LF s.

(** Source text with ['] for the double quote and [|] for the line
    feed. *)
Fixpoint spell (s : string) : string :=
  match s with
  | EmptyString => EmptyString
  | String c r =>
      String (if Ascii.eqb c "'" then ascii_of_nat 34
              else if Ascii.eqb c "|" then ascii_of_nat 10
              else c) (spell r)
  end.

(** The frames of section 8 of the specification. *)
Definition exampleFrames : string :=
  spell ("data: {'choices':[{'delta':{'content':'Hel'}}]}||"
         ++ "data: {'choices':[{'delta':{'content':'lo'}}]}||"
         ++ "data: [DONE]||").

End AIClient.

(* ================================================================== *)
(** ** Further string methods                                         *)
(* ================================================================== *)

Module JSX.

(** [s.includes(t)] *)
Fixpoint includes (s t : jsstring) : bool :=
  JS.startsWith s t ||
  match s with
  | [] => false
  | _ :: r => includes r t
  end.

(** [s.endsWith(t)] *)
Definition endsWith (s t : jsstring) : bool :=
  JS.startsWith (rev s) (rev t).

(** [s.split(sep)] for a separator of one code unit; never empty. *)
Fixpoint splitOn (sep : N) (s : jsstring) : list jsstring :=
  match s with
  | [] => [[]]
  | c :: r =>
      if N.eqb c sep then [] :: splitOn sep r
      else match splitOn sep r with
           | h :: t => (c :: h) :: t
           | [] => [[c]]
           end
  end.

(** [s.split('/').pop()]: the text after the last slash. *)
Definition SLASH : N := 47%N.
Definition BACKSLASH : N := 92%N.
Definition DOT : N := 46%N.
Definition NUL : N := 0%N.

Definition lastSegment (s : jsstring) : jsstring :=
  last (splitOn SLASH s) [].

(** [s.replace(/\\/g, '/')] *)
Definition slashes (s : jsstring) : jsstring :=
  map (fun c => if N.eqb c BACKSLASH then SLASH else c) s.

(** [a || b] on strings. *)
Definition orElse (a b : jsstring) : jsstring :=
  if JS.falsy a then b else a.

End JSX.

(* ================================================================== *)
(** ** src/state/chat-state.ts: messages, context, persistence        *)
(* ================================================================== *)

Module ChatStateOps.
Import ChatState.

(** [new ChatStateManager()] *)
Definition empty : ChatStateManager :=
  {| sessions := []; currentSessionId := None |}.

Definition withSessions (l : list ChatSession.t) (m : ChatStateManager)
    : ChatStateManager :=
  {| sessions := l; currentSessionId := currentSessionId m |}.

(** [switchSession(sessionId)] *)
Definition switchSession (m : ChatStateManager) (sessionId : jsstring)
    : bool * ChatStateManager :=
  match find (hasId sessionId) (sessions m) with
  | None => (false, m)
  | Some _ =>
      (true, {| sessions := sessions m; currentSessionId := Some sessionId |})
  end.

(** [clearSession(sessionId)]; [now] is [Date.now()].  The session
    found is an entry of the array and is updated in place. *)
Definition clearSession (m : ChatStateManager) (sessionId : jsstring) (now : Z)
    : bool * ChatStateManager :=
  match Arr.findIndex (hasId sessionId) (sessions m) with
  | None => (false, m)
  | Some index =>
      let clear s :=
        {| ChatSession.id := ChatSession.id s;
           ChatSession.messages := [];
           ChatSession.contextItems := ChatSession.contextItems s;
           ChatSession.currentModelId := ChatSession.currentModelId s;
           ChatSession.createdAt := ChatSession.createdAt s;
           ChatSession.updatedAt := now |} in
      (true, withSessions (Arr.updateAt index clear (sessions m)) m)
  end.

(** [Omit<ChatMessage, 'id' | 'timestamp'>] *)
Record NewMessage := {
  role : Role;
  content : jsstring;
  modelId : option jsstring
}.

(** [addMessage(sessionId, message)]; [idTime] and [rnd] feed
    [generateId()], [timestamp] and [updatedAt] are the two later
    readings of the clock.  [None] is [null]. *)
Definition addMessage (m : ChatStateManager) (sessionId : jsstring)
    (message : NewMessage) (idTime : Z) (rnd : jsstring)
    (timestamp updatedAt : Z)
    : option ChatMessage.t * ChatStateManager :=
  match Arr.findIndex (hasId sessionId) (sessions m) with
  | None => (None, m)
  | Some index =>
      let newMessage :=
        {| ChatMessage.id := Env.generateId idTime rnd;
           ChatMessage.role := role message;
           ChatMessage.content := content message;
           ChatMessage.timestamp := timestamp;
           ChatMessage.modelId := modelId message |} in
      let push s :=
        {| ChatSession.id := ChatSession.id s;
           ChatSession.messages := ChatSession.messages s ++ [newMessage];
           ChatSession.contextItems := ChatSession.contextItems s;
           ChatSession.currentModelId := ChatSession.currentModelId s;
           ChatSession.createdAt := ChatSession.createdAt s;
           ChatSession.updatedAt := updatedAt |} in
      (Some newMessage, withSessions (Arr.updateAt index push (sessions m)) m)
  end.

(** The comparator [(a, b) => a.timestamp - b.timestamp]. *)
Definition byTimestamp (a b : ChatMessage.t) : Z :=
  (ChatMessage.timestamp a - ChatMessage.timestamp b)%Z.

(** [getMessages(sessionId)] *)
Definition getMessages (m : ChatStateManager) (sessionId : jsstring)
    : list ChatMessage.t :=
  match find (hasId sessionId) (sessions m) with
  | None => []
  | Some session => Arr.sort byTimestamp (ChatSession.messages session)
  end.

(** [addContextItem(sessionId, contextItem)] *)
Definition addContextItem (m : ChatStateManager) (sessionId : jsstring)
    (contextItem : ContextItem.t) (now : Z) : bool * ChatStateManager :=
  match Arr.findIndex (hasId sessionId) (sessions m) with
  | None => (false, m)
  | Some index =>
      let push s :=
        {| ChatSession.id := ChatSession.id s;
           ChatSession.messages := ChatSession.messages s;
           ChatSession.contextItems := ChatSession.contextItems s ++ [contextItem];
           ChatSession.currentModelId := ChatSession.currentModelId s;
           ChatSession.createdAt := ChatSession.createdAt s;
           ChatSession.updatedAt := now |} in
      (true, withSessions (Arr.updateAt index push (sessions m)) m)
  end.

(** [removeContextItem(sessionId, contextItemId)] *)
Definition removeContextItem (m : ChatStateManager) (sessionId : jsstring)
    (contextItemId : jsstring) (now : Z) : bool * ChatStateManager :=
  match Arr.findIndex (hasId sessionId) (sessions m) with
  | None => (false, m)
  | Some index =>
      match nth_error (sessions m) index with
      | None => (false, m)
      | Some session =>
          match Arr.findIndex
                  (fun c => JS.eqb (ContextItem.id c) contextItemId)
                  (ChatSession.contextItems session) with
          | None => (false, m)
          | Some position =>
              let splice s :=
                {| ChatSession.id := ChatSession.id s;
                   ChatSession.messages := ChatSession.messages s;
                   ChatSession.contextItems :=
                     Arr.removeAt position (ChatSession.contextItems s);
                   ChatSession.currentModelId := ChatSession.currentModelId s;
                   ChatSession.createdAt := ChatSession.createdAt s;
                   ChatSession.updatedAt := now |} in
              (true, withSessions (Arr.updateAt index splice (sessions m)) m)
          end
      end
  end.

(** [getContextItems(sessionId)] *)
Definition getContextItems (m : ChatStateManager) (sessionId : jsstring)
    : list ContextItem.t :=
  match find (hasId sessionId) (sessions m) with
  | None => []
  | Some session => ChatSession.contextItems session
  end.

(** [setSessionModel(sessionId, modelId)] *)
Definition setSessionModel (m : ChatStateManager) (sessionId : jsstring)
    (newModelId : jsstring) (now : Z) : bool * ChatStateManager :=
  match Arr.findIndex (hasId sessionId) (sessions m) with
  | None => (false, m)
  | Some index =>
      let assign s :=
        {| ChatSession.id := ChatSession.id s;
           ChatSession.messages := ChatSession.messages s;
           ChatSession.contextItems := ChatSession.contextItems s;
           ChatSession.currentModelId := newModelId;
           ChatSession.createdAt := ChatSession.createdAt s;
           ChatSession.updatedAt := now |} in
      (true, withSessions (Arr.updateAt index assign (sessions m)) m)
  end.

(** [loadState(sessions, currentSessionId)] *)
Definition loadState (loaded : list ChatSession.t)
    (current : option jsstring) : ChatStateManager :=
  let current :=
    match current with
    | Some c =>
        if negb (JS.falsy c) &&
           negb (match find (hasId c) loaded with
                 | Some _ => true
                 | None => false
                 end)
        then match loaded with
             | first :: _ => Some (ChatSession.id first)
             | [] => None
             end
        else Some c
    | None => None
    end in
  {| sessions := loaded; currentSessionId := current |}.

(** [exportState()] *)
Definition exportState (m : ChatStateManager)
    : list ChatSession.t * option jsstring :=
  (sessions m, currentSessionId m).

(** The calls that change the manager, each with what the environment
    supplies to it. *)
Inductive call :=
| CreateSession (modelId : jsstring) (idTime : Z) (rnd : jsstring)
    (createdAt updatedAt : Z)
| SwitchSession (sessionId : jsstring)
| ClearSession (sessionId : jsstring) (now : Z)
| DeleteSession (sessionId : jsstring)
| AddMessage (sessionId : jsstring) (message : NewMessage) (idTime : Z)
    (rnd : jsstring) (timestamp updatedAt : Z)
| AddContextItem (sessionId : jsstring) (contextItem : ContextItem.t) (now : Z)
| RemoveContextItem (sessionId contextItemId : jsstring) (now : Z)
| SetSessionModel (sessionId newModelId : jsstring) (now : Z)
| LoadState (loaded : list ChatSession.t) (current : option jsstring).

Definition perform (m : ChatStateManager) (c : call) : ChatStateManager :=
  match c with
  | CreateSession modelId idTime rnd createdAt updatedAt =>
      snd (createSession m modelId idTime rnd createdAt updatedAt)
  | SwitchSession sessionId => snd (switchSession m sessionId)
  | ClearSession sessionId now => snd (clearSession m sessionId now)
  | DeleteSession sessionId => snd (deleteSession m sessionId)
  | AddMessage sessionId message idTime rnd timestamp updatedAt =>
      snd (addMessage m sessionId message idTime rnd timestamp updatedAt)
  | AddContextItem sessionId contextItem now =>
      snd (addContextItem m sessionId contextItem now)
  | RemoveContextItem sessionId contextItemId now =>
      snd (removeContextItem m sessionId contextItemId now)
  | SetSessionModel sessionId newModelId now =>
      snd (setSessionModel m sessionId newModelId now)
  | LoadState loaded current => loadState loaded current
  end.

Definition performAll (m : ChatStateManager) (calls : list call)
    : ChatStateManager :=
  fold_left perform calls m.

(** The current pointer does not dangle: it is [null], the empty
    string, or the id of a stored session. *)
Definition pointerValid (m : ChatStateManager) : Prop :=
  match currentSessionId m with
  | None => True
  | Some c =>
      c = [] \/ exists s, In s (sessions m) /\ ChatSession.id s = c
  end.

(** Messages in the order of [getMessages]: by timestamp, ascending. *)
Definition chronological (a b : ChatMessage.t) : Prop :=
  (ChatMessage.timestamp a <= ChatMessage.timestamp b)%Z.

End ChatStateOps.

(* ================================================================== *)
(** ** settings/settings-manager.ts: provider updates                 *)
(* ================================================================== *)

Module SettingsOps.
Import PluginSettings Settings.

(** [Partial<Omit<AIProvider, 'id'>>]: a field is absent or given. *)
Record ProviderUpdates := {
  pu_name : option jsstring;
  pu_baseUrl : option jsstring;
  pu_apiKey : option jsstring;
  pu_enabled : option bool;
  pu_type : option ProviderType
}.

(** [{ ...provider, ...updates }] *)
Definition applyProviderUpdates (p : AIProvider.t) (u : ProviderUpdates)
    : AIProvider.t :=
  {| AIProvider.id := AIProvider.id p;
     AIProvider.name := override (AIProvider.name p) (pu_name u);
     AIProvider.baseUrl := override (AIProvider.baseUrl p) (pu_baseUrl u);
     AIProvider.apiKey := override (AIProvider.apiKey p) (pu_apiKey u);
     AIProvider.enabled := override (AIProvider.enabled p) (pu_enabled u);
     AIProvider.type := override (AIProvider.type p) (pu_type u) |}.

(** [updateProvider(id, updates)] *)
Definition updateProvider (s : state) (id : jsstring) (updates : ProviderUpdates)
    : outcome AIProvider.t * state :=
  match Arr.findIndex (hasProviderId id) (providers s) with
  | None => (Failure [js "Provider not found"], s)
  | Some index =>
      match nth_error (providers s) index with
      | None => (Failure [js "Provider not found"], s)
      | Some old =>
          let updatedProvider := applyProviderUpdates old updates in
          let validation :=
            Validation.validateProvider
              (Some (AIProvider.name updatedProvider))
              (Some (AIProvider.baseUrl updatedProvider))
              (Some (AIProvider.apiKey updatedProvider)) in
          if negb (Validation.valid validation) then
            (Failure (Validation.errors validation), s)
          else
            (Success updatedProvider,
             with_providers
               (Arr.updateAt index (fun _ => updatedProvider) (providers s)) s)
      end
  end.

(** Every registry call, [updateProvider] included. *)
Inductive call :=
| Registry (c : Settings.call)
| UpdateProvider (id : jsstring) (updates : ProviderUpdates).

Definition perform (s : state) (c : call) : state :=
  match c with
  | Registry c => Settings.perform s c
  | UpdateProvider id updates => snd (updateProvider s id updates)
  end.

Definition performAll (s : state) (calls : list call) : state :=
  fold_left perform calls s.

(** Every model references a stored provider. *)
Definition referencesHold (s : state) : Prop :=
  forall m, In m (models s) ->
    exists p, In p (providers s) /\ AIProvider.id p = AIModel.providerId m.

(** A field that is given and has a character other than white space. *)
Definition filled (field : option jsstring) : Prop :=
  exists v c, field = Some v /\ In c v /\ JS.isWhiteSpace c = false.

End SettingsOps.

(* ================================================================== *)
(** ** context/context-manager.ts: the manager's operations           *)
(* ================================================================== *)

Module ContextOps.
Import Context.

(** [generateContextId()], from the clock reading and the random
    suffix. *)
Definition generateContextId (now : Z) (rnd : jsstring) : jsstring :=
  js "ctx-" ++ Env.decimal now ++ js "-" ++ rnd.

(** [validateFilePath(path)] *)
Definition validateFilePath (path : jsstring) : bool :=
  if JS.falsy path then false
  else
    let normalized := JSX.slashes path in
    if JSX.includes normalized (js "..") || JS.startsWith normalized (js "/")
    then false
    else true.

(** A call that returns a value or throws an [Error] with a message. *)
Inductive attempt (A : Type) :=
| Ok (value : A)
| Error (message : jsstring).
Arguments Error {A} message.

(** What the manager uses of its [FileSystemAdapter]: whether
    [getFile] finds a file, and [readFile], which resolves to the
    content or rejects. *)
Record FileSystemAdapter := {
  getFile : jsstring -> bool;
  readFile : jsstring -> attempt jsstring
}.

Definition setItem (m : ContextManager) (item : ContextItem.t)
    : ContextManager :=
  {| contextItems := mapSet (ContextItem.id item) item (contextItems m) |}.

(** [addFile(path)]; [fileSystem] is the adapter field, [None] when
    it was never configured. *)
Definition addFile (fileSystem : option FileSystemAdapter)
    (m : ContextManager) (path : jsstring) (now : Z) (rnd : jsstring)
    : attempt ContextItem.t * ContextManager :=
  if negb (validateFilePath path) then
    (Error (js "Invalid file path: " ++ path), m)
  else
    match fileSystem with
    | None => (Error (js "File system adapter not configured"), m)
    | Some fs =>
        if negb (getFile fs path) then
          (Error (js "File not found: " ++ path), m)
        else
          match readFile fs path with
          | Error message => (Error message, m)
          | Ok content =>
              let displayName := JSX.orElse (JSX.lastSegment path) path in
              let contextItem :=
                {| ContextItem.id := generateContextId now rnd;
                   ContextItem.type := file;
                   ContextItem.path := Some path;
                   ContextItem.content := content;
                   ContextItem.displayName := displayName |} in
              (Ok contextItem, setItem m contextItem)
          end
    end.

(** [addSelection(content, sourcePath?)] *)
Definition addSelection (m : ContextManager) (content : jsstring)
    (sourcePath : option jsstring) (now : Z) (rnd : jsstring)
    : attempt ContextItem.t * ContextManager :=
  if JS.falsy content || (JS.length (JS.trim content) =? 0)%Z then
    (Error (js "Selection content cannot be empty"), m)
  else
    let displayName :=
      match sourcePath with
      | Some p =>
          if JS.falsy p then js "Text selection"
          else js "Selection from " ++ JSX.lastSegment p
      | None => js "Text selection"
      end in
    let contextItem :=
      {| ContextItem.id := generateContextId now rnd;
         ContextItem.type := selection;
         ContextItem.path := sourcePath;
         ContextItem.content := content;
         ContextItem.displayName := displayName |} in
    (Ok contextItem, setItem m contextItem).

(** [getContextItem(id)] *)
Definition getContextItem (m : ContextManager) (id : jsstring)
    : option ContextItem.t :=
  option_map snd (find (fun kv => JS.eqb (fst kv) id) (contextItems m)).

(** [hasContext(id)] *)
Definition hasContext (m : ContextManager) (id : jsstring) : bool :=
  existsb (fun kv => JS.eqb (fst kv) id) (contextItems m).

(** [clearContext()] *)
Definition clearContext (m : ContextManager) : ContextManager :=
  {| contextItems := [] |}.

(** [getContextCount()] *)
Definition getContextCount (m : ContextManager) : nat :=
  List.length (contextItems m).

(** [exportContext()] *)
Definition exportContext (m : ContextManager) : list ContextItem.t :=
  getActiveContext m.

Definition empty : ContextManager := {| contextItems := [] |}.

(** The calls that change the manager's items. *)
Inductive call :=
| AddFile (fileSystem : option FileSystemAdapter) (path : jsstring)
    (now : Z) (rnd : jsstring)
| AddSelection (content : jsstring) (sourcePath : option jsstring)
    (now : Z) (rnd : jsstring)
| RemoveContext (id : jsstring)
| ClearContext
| LoadContext (items : list ContextItem.t).

Definition perform (m : ContextManager) (c : call) : ContextManager :=
  match c with
  | AddFile fileSystem path now rnd => snd (addFile fileSystem m path now rnd)
  | AddSelection content sourcePath now rnd =>
      snd (addSelection m content sourcePath now rnd)
  | RemoveContext id => snd (removeContext m id)
  | ClearContext => clearContext m
  | LoadContext items => loadContext items
  end.

Definition performAll (m : ContextManager) (calls : list call)
    : ContextManager :=
  fold_left perform calls m.

(** Each entry is stored under its item's id, and no key occurs
    twice. *)
Definition wellKeyed (m : ContextManager) : Prop :=
  NoDup (map fst (contextItems m))
  /\ (forall k item, In (k, item) (contextItems m) -> k = ContextItem.id item).

End ContextOps.

(* ================================================================== *)
(** ** utils/helpers.ts                                               *)
(* ================================================================== *)

Module Utils.

(** The [escapeMap] of [sanitizeHtml], by code unit: ampersand, less
    than, greater than, double quote, apostrophe, slash, backtick and
    equals sign. *)
Definition escapeMap (char : N) : option jsstring :=
  if N.eqb char 38 then Some (js "&amp;")
  else if N.eqb char 60 then Some (js "&lt;")
  else if N.eqb char 62 then Some (js "&gt;")
  else if N.eqb char 34 then Some (js "&quot;")
  else if N.eqb char 39 then Some (js "&#39;")
  else if N.eqb char 47 then Some (js "&#x2F;")
  else if N.eqb char 96 then Some (js "&#x60;")
  else if N.eqb char 61 then Some (js "&#x3D;")
  else None.

(** What the global [replace] puts for one code unit. *)
Definition escaped (char : N) : jsstring :=
  match escapeMap char with
  | Some entity => entity
  | None => [char]
  end.

(** [sanitizeHtml(content)] *)
Definition sanitizeHtml (content : jsstring) : jsstring :=
  if JS.falsy content then []
  else flat_map escaped content.

(** The code units [sanitizeHtml] is there to remove. *)
Definition markup (c : N) : bool :=
  N.eqb c 60 || N.eqb c 62 || N.eqb c 34 || N.eqb c 39 || N.eqb c 47
  || N.eqb c 96 || N.eqb c 61.

Definition isAsciiLetter (c : N) : bool :=
  ((65 <=? c) && (c <=? 90) || (97 <=? c) && (c <=? 122))%N.

Definition COLON : N := 58%N.

(** The test of the regular expression for a drive letter: an ASCII
    letter and a colon at the start. *)
Definition hasDrivePrefix (s : jsstring) : bool :=
  match s with
  | c :: d :: _ => isAsciiLetter c && N.eqb d COLON
  | _ => false
  end.

(** Removal of every NUL code unit. *)
Definition removeNul (s : jsstring) : jsstring :=
  filter (fun c => negb (N.eqb c JSX.NUL)) s.

(** Removal of the slashes at the start. *)
Fixpoint dropLeadingSlashes (s : jsstring) : jsstring :=
  match s with
  | c :: r => if N.eqb c JSX.SLASH then dropLeadingSlashes r else s
  | [] => []
  end.

(** Every maximal run of slashes replaced by one slash: a slash is
    dropped when another one follows it. *)
Fixpoint collapseSlashes (s : jsstring) : jsstring :=
  match s with
  | [] => []
  | c :: r =>
      if N.eqb c JSX.SLASH then
        match r with
        | d :: _ =>
            if N.eqb d JSX.SLASH then collapseSlashes r
            else c :: collapseSlashes r
        | [] => [c]
        end
      else c :: collapseSlashes r
  end.

(** Removal of the slashes at the end. *)
Definition dropTrailingSlashes (s : jsstring) : jsstring :=
  rev (dropLeadingSlashes (rev s)).

(** [sanitizeFilePath(path)]; [None] is [null]. *)
Definition sanitizeFilePath (path : jsstring) : option jsstring :=
  if JS.falsy path then None
  else
    let normalized := JSX.slashes path in
    let normalized := JS.trim normalized in
    if JSX.includes normalized (js "..") then None
    else if JS.startsWith normalized (js "/") || hasDrivePrefix normalized
    then None
    else
      let normalized := removeNul normalized in
      let normalized := dropLeadingSlashes normalized in
      let normalized := collapseSlashes normalized in
      let normalized := dropTrailingSlashes normalized in
      if JS.falsy normalized then None else Some normalized.

(** [isValidFilePath(path)] *)
Definition isValidFilePath (path : jsstring) : bool :=
  match sanitizeFilePath path with
  | Some _ => true
  | None => false
  end.

(** [truncateString(str, maxLength)] for an integral [maxLength]. *)
Definition truncateString (str : jsstring) (maxLength : Z) : jsstring :=
  if JS.falsy str then []
  else if (JS.length str <=? maxLength)%Z then str
  else JS.substring str 0 (maxLength - 3) ++ js "...".

(** [isEmptyOrWhitespace(str)]; [None] is [null] or [undefined]. *)
Definition isEmptyOrWhitespace (str : option jsstring) : bool :=
  match str with
  | None => true
  | Some s => JS.falsy s || (JS.length (JS.trim s) =? 0)%Z
  end.

End Utils.

(* ================================================================== *)
(** ** services/ai-client.ts: request bodies and plain responses      *)
(* ================================================================== *)

Module AIClientOps.
Import AIClient.

(** What an attempt ends in when the loop does not go on after it. *)
Definition outcomeOf (o : FetchOutcome) : completion Response :=
  match o with
  | Responds response =>
      if ok response then Returns response else Throws (errorOf o)
  | _ => Throws (errorOf o)
  end.

(** The number of the attempt after which the loop of [makeRequest]
    is left. *)
Definition attemptsMade (fetch : nat -> FetchOutcome) : nat :=
  if negb (retried (fetch 0%nat)) then 1
  else if negb (retried (fetch 1%nat)) then 2
  else 3.

(** An entry of the [messages] array of a request body. *)
Record WireMessage := {
  wireRole : jsstring;
  wireContent : jsstring
}.

Definition roleName (r : Role) : jsstring :=
  match r with
  | user => js "user"
  | assistant => js "assistant"
  | system => js "system"
  end.

Record OpenAIRequest := {
  o_model : jsstring;
  o_messages : list WireMessage;
  o_stream : bool;
  o_temperature : JSON.number;
  o_max_tokens : Z
}.

(** [system] is [None] for [undefined]. *)
Record AnthropicRequest := {
  a_model : jsstring;
  a_messages : list WireMessage;
  a_max_tokens : Z;
  a_stream : bool;
  a_system : option jsstring
}.

Inductive RequestBody :=
| OpenAIBody (request : OpenAIRequest)
| AnthropicBody (request : AnthropicRequest).

(** [formatOpenAIRequest(model, messages, stream)]; the temperature
    is the literal 0.7. *)
Definition formatOpenAIRequest (model : AIModel.t)
    (messages : list ChatMessage.t) (stream : bool) : OpenAIRequest :=
  {| o_model := AIModel.modelIdentifier model;
     o_messages :=
       map (fun msg =>
              {| wireRole := roleName (ChatMessage.role msg);
                 wireContent := ChatMessage.content msg |}) messages;
     o_stream := stream;
     o_temperature :=
       {| JSON.negative := false; JSON.mantissa := 7; JSON.exponent := -1 |};
     o_max_tokens := 2000 |}.

Definition isSystem (m : ChatMessage.t) : bool :=
  match ChatMessage.role m with system => true | _ => false end.

(** [formatAnthropicRequest(model, messages, stream)] *)
Definition formatAnthropicRequest (model : AIModel.t)
    (messages : list ChatMessage.t) (stream : bool) : AnthropicRequest :=
  let systemMessages := filter isSystem messages in
  let otherMessages := filter (fun m => negb (isSystem m)) messages in
  {| a_model := AIModel.modelIdentifier model;
     a_messages :=
       map (fun msg =>
              {| wireRole :=
                   match ChatMessage.role msg with
                   | assistant => js "assistant"
                   | _ => js "user"
                   end;
                 wireContent := ChatMessage.content msg |}) otherMessages;
     a_max_tokens := 2000;
     a_stream := stream;
     a_system :=
       if (0 <? List.length systemMessages)%nat
       then Some (JS.join [JS.LF] (map ChatMessage.content systemMessages))
       else None |}.

(** [formatRequest(provider, model, messages, contextItems, stream)];
    [idTime] and [timestamp] are the clock readings of
    [prependContext]. *)
Definition formatRequest (provider : AIProvider.t) (model : AIModel.t)
    (messages : list ChatMessage.t) (contextItems : list ContextItem.t)
    (stream : bool) (idTime timestamp : Z) : RequestBody :=
  let formattedMessages :=
    prependContext messages contextItems idTime timestamp in
  match AIProvider.type provider with
  | openai => OpenAIBody (formatOpenAIRequest model formattedMessages stream)
  | anthropic =>
      AnthropicBody (formatAnthropicRequest model formattedMessages stream)
  | custom => OpenAIBody (formatOpenAIRequest model formattedMessages stream)
  end.

(** [v?.name] for a property name that is neither an index nor on a
    prototype. *)
Definition named (name : jsstring) (v : option JSON.value)
    : option JSON.value :=
  match v with
  | Some (JSON.JObject members) => JSON.lookup name members
  | _ => None
  end.

(** [data.choices[0]?.message?.content] when [data.choices] is
    truthy, for a [data] other than [null]; [None] otherwise. *)
Definition messageContent (data : JSON.value) : option JSON.value :=
  match JSON.get data JSON.choices with
  | Some choices =>
      if JSON.truthy choices then
        JSON.getOptional
          (named (js "message") (JSON.get choices JSON.index0))
          JSON.content
      else None
  | None => None
  end.

(** [data.content[0]?.text] when [data.content] is truthy. *)
Definition contentText (data : JSON.value) : option JSON.value :=
  match JSON.get data JSON.content with
  | Some content =>
      if JSON.truthy content then
        JSON.getOptional (JSON.get content JSON.index0) JSON.text
      else None
  | None => None
  end.

(** How [handleResponse] ends: with the value it returns, with the
    [APIError] it throws, with the [TypeError] of reading a property
    of [null], or with the [SyntaxError] of [response.json()]. *)
Inductive reply :=
| Reply (value : JSON.value)
| RaiseAPIError (error : APIError)
| RaiseTypeError
| RaiseSyntaxError.

Definition unexpectedFormat : APIError :=
  {| message := js "Unexpected API response format";
     type := unknown; statusCode := None; retryAfter := None |}.

(** The body of [handleResponse] after [response.json()] gave
    [data]. *)
Definition handleData (data : JSON.value) : reply :=
  match data with
  | JSON.JNull => RaiseTypeError
  | _ =>
      match messageContent data with
      | Some v =>
          if JSON.truthy v then Reply v
          else
            match contentText data with
            | Some t =>
                if JSON.truthy t then Reply t
                else RaiseAPIError unexpectedFormat
            | None => RaiseAPIError unexpectedFormat
            end
      | None =>
          match contentText data with
          | Some t =>
              if JSON.truthy t then Reply t
              else RaiseAPIError unexpectedFormat
          | None => RaiseAPIError unexpectedFormat
          end
      end
  end.

(** [handleResponse(response)], from the text of the response
    body. *)
Definition handleResponse (bodyText : jsstring) : reply :=
  match JSON.parse bodyText with
  | Some data => handleData data
  | None => RaiseSyntaxError
  end.

End AIClientOps.

(* ================================================================== *)
(** ** context/live-selection.ts: accessors and call sequences        *)
(* ================================================================== *)

Module LiveSelectionOps.
Import LiveSelection.

(** [getSelection()] *)
Definition getSelection (m : LiveSelectionManager) : option LiveSelection :=
  currentSelection m.

(** [getContent()] *)
Definition getContent (m : LiveSelectionManager) : jsstring :=
  match currentSelection m with
  | Some sel => content sel
  | None => []
  end.

(** [getSourcePath()] *)
Definition getSourcePath (m : LiveSelectionManager) : option jsstring :=
  match currentSelection m with
  | Some sel => sourcePath sel
  | None => None
  end.

(** The public calls that change the manager. *)
Inductive call :=
| SetSelection (content : jsstring) (sourcePath : option jsstring) (now : Z)
| ClearSelection
| SetOnChangeCallback (callback : option nat).

Definition perform (m : LiveSelectionManager) (c : call)
    : LiveSelectionManager :=
  match c with
  | SetSelection content sourcePath now =>
      setSelection m content sourcePath now
  | ClearSelection => clearSelection m
  | SetOnChangeCallback callback => setOnChangeCallback m callback
  end.

Definition performAll (m : LiveSelectionManager) (calls : list call)
    : LiveSelectionManager :=
  fold_left perform calls m.

(** A text that is empty or white space only: the texts that
    [setSelection] refuses. *)
Definition blank (s : jsstring) : bool := forallb JS.isWhiteSpace s.

(** The stored selection, when there is one, is not blank. *)
Definition meaningful (m : LiveSelectionManager) : Prop :=
  forall sel, currentSelection m = Some sel -> blank (content sel) = false.

End LiveSelectionOps.

(* ================================================================== *)
(** ** main.ts: live selection tracking and request context           *)
(* ================================================================== *)

Module Plugin.
Import LiveSelection.

(** [lastKnownSelection] *)
Record LastKnown := {
  lk_content : jsstring;
  lk_sourcePath : option jsstring
}.

(** The plugin fields that selection tracking reads and writes. *)
Record SelectionState := {
  liveSelectionManager : LiveSelectionManager;
  lastKnownSelection : option LastKnown
}.

(** The state after [onload], which registers [callback] with the
    manager. *)
Definition loaded (callback : option nat) : SelectionState :=
  {| liveSelectionManager :=
       setOnChangeCallback LiveSelection.initial callback;
     lastKnownSelection := None |}.

(** [updateLiveSelection(editor)]: [selected] is
    [editor.getSelection()], [activeFilePath] is
    [getActiveFile()?.path], [editorHasFocus] the focus test of the
    second branch, [now] the clock reading of [setSelection]. *)
Definition updateLiveSelection (p : SelectionState) (selected : jsstring)
    (activeFilePath : option jsstring) (editorHasFocus : bool) (now : Z)
    : SelectionState :=
  if negb (JS.falsy selected) && (0 <? JS.length (JS.trim selected))%Z then
    let sourcePath := activeFilePath in
    {| liveSelectionManager :=
         setSelection (liveSelectionManager p) selected sourcePath now;
       lastKnownSelection :=
         Some {| lk_content := selected; lk_sourcePath := sourcePath |} |}
  else
    match lastKnownSelection p with
    | Some _ =>
        if editorHasFocus then
          {| liveSelectionManager := clearSelection (liveSelectionManager p);
             lastKnownSelection := None |}
        else p
    | None =>
        {| liveSelectionManager := clearSelection (liveSelectionManager p);
           lastKnownSelection := lastKnownSelection p |}
    end.

(** [handleClearLiveSelection()] *)
Definition handleClearLiveSelection (p : SelectionState) : SelectionState :=
  {| liveSelectionManager := clearSelection (liveSelectionManager p);
     lastKnownSelection := None |}.

(** What happens to the tracked selection. *)
Inductive event :=
| EditorSelection (selected : jsstring) (activeFilePath : option jsstring)
    (editorHasFocus : bool) (now : Z)
| ClearLiveSelection.

Definition handle (p : SelectionState) (e : event) : SelectionState :=
  match e with
  | EditorSelection selected activeFilePath editorHasFocus now =>
      updateLiveSelection p selected activeFilePath editorHasFocus now
  | ClearLiveSelection => handleClearLiveSelection p
  end.

Definition handleAll (p : SelectionState) (events : list event)
    : SelectionState :=
  fold_left handle events p.

(** The live selection and the last known selection go together. *)
Definition inStep (p : SelectionState) : Prop :=
  match currentSelection (liveSelectionManager p), lastKnownSelection p with
  | Some sel, Some known =>
      content sel = lk_content known
      /\ sourcePath sel = lk_sourcePath known
      /\ LiveSelectionOps.blank (content sel) = false
  | None, None => True
  | _, _ => False
  end.

(** The context item made of a live selection. *)
Definition liveSelectionItem (sel : LiveSelection) : ContextItem.t :=
  {| ContextItem.id := js "live-selection-" ++ Env.decimal (timestamp sel);
     ContextItem.type := selection;
     ContextItem.path := sourcePath sel;
     ContextItem.content := content sel;
     ContextItem.displayName :=
       match sourcePath sel with
       | Some p =>
           if JS.falsy p then js "Live Selection"
           else js "Live Selection from " ++ JSX.lastSegment p
       | None => js "Live Selection"
       end |}.

(** [getContextItemsWithLiveSelection()] *)
Definition getContextItemsWithLiveSelection
    (contextManager : Context.ContextManager)
    (liveSelectionManager : LiveSelectionManager) : list ContextItem.t :=
  let contextItems := Context.getActiveContext contextManager in
  if hasSelection liveSelectionManager then
    match LiveSelectionOps.getSelection liveSelectionManager with
    | Some sel => liveSelectionItem sel :: contextItems
    | None => contextItems
    end
  else contextItems.

End Plugin.

(* ================================================================== *)
(** ** settings/settings-tab.ts: helper methods                       *)
(* ================================================================== *)

Module SettingsTab.

(** [s.slice(-n)] for a literal [n > 0]: the last [n] code units, or
    all of a shorter string. *)
Definition sliceLast (s : jsstring) (n : nat) : jsstring :=
  skipn (List.length s - n) s.

(** [maskApiKey(apiKey)] *)
Definition maskApiKey (apiKey : jsstring) : jsstring :=
  if JS.falsy apiKey || (JS.length apiKey <=? 4)%Z then js "****"
  else js "****" ++ sliceLast apiKey 4.

End SettingsTab.

(* ================================================================== *)
(** ** commands.ts and main.ts: sending a message                     *)
(* ================================================================== *)

Module Commands.
Import Context ContextOps.

(** [chatWithSelection(deps, editor, view)], as far as the context
    manager is concerned: [selected] is [editor.getSelection()],
    [sourcePath] is [view.file?.path]; opening and refreshing the view
    do not touch the manager. *)
Definition chatWithSelection (contextManager : ContextManager)
    (selected : jsstring) (sourcePath : option jsstring)
    (now : Z) (rnd : jsstring) : attempt unit * ContextManager :=
  if JS.falsy selected || (JS.length (JS.trim selected) =? 0)%Z then
    (Ok tt, contextManager)
  else
    match addSelection contextManager selected sourcePath now rnd with
    | (Ok _, contextManager') => (Ok tt, contextManager')
    | (Error message, contextManager') => (Error message, contextManager')
    end.

End Commands.

Module PluginSend.
Import ChatState ChatStateOps Settings.

(** How [aiServiceClient.sendMessage] ends: with the response text,
    with an [APIError], or with any other exception. *)
Inductive reply :=
| Answered (response : jsstring)
| RejectedAPI (error : AIClient.APIError)
| RejectedOther.









End PluginSend.

(* ================================================================== *)
(** * Properties                                                      *)
(* ================================================================== *)

(** ** Strings *)

Lemma js_eqb_eq (a b : jsstring) : JS.eqb a b = true <-> a = b.
Proof.
  revert b; induction a as [|x a IH]; intros [|y b]; simpl;
    try (split; congruence).
  rewrite andb_true_iff, N.eqb_eq, IH. split.
  - intros [-> ->]; reflexivity.
  - intros H; injection H; auto.
Qed.

Lemma js_eqb_refl (a : jsstring) : JS.eqb a a = true.
Proof. apply js_eqb_eq; reflexivity. Qed.

Lemma js_eqb_neq (a b : jsstring) : JS.eqb a b = false <-> a <> b.
Proof.
  split.
  - intros H E. apply js_eqb_eq in E. congruence.
  - intros H. destruct (JS.eqb a b) eqn:E; [|reflexivity].
    apply js_eqb_eq in E. contradiction.
Qed.

Lemma js_length_nonneg (s : jsstring) : (0 <= JS.length s)%Z.
Proof. unfold JS.length; lia. Qed.

Lemma js_substring_prefix (s : jsstring) (n : Z) :
  (0 <= n <= JS.length s)%Z ->
  JS.substring s 0 n = firstn (Z.to_nat n) s.
Proof.
  intros H. unfold JS.substring, JS.clamp, JS.length in *.
  replace (Z.min (Z.max 0 0) (Z.of_nat (List.length s))) with 0%Z by lia.
  replace (Z.min (Z.max n 0) (Z.of_nat (List.length s))) with n by lia.
  simpl. rewrite Nat.sub_0_r. reflexivity.
Qed.

Lemma startsWith_app (p t : jsstring) : JS.startsWith (p ++ t) p = true.
Proof.
  induction p as [|c r IH]; simpl; [reflexivity|].
  rewrite N.eqb_refl. exact IH.
Qed.

Lemma join_starts_with_first (sep x : jsstring) (r : list jsstring) :
  exists t, JS.join sep (x :: r) = x ++ t.
Proof.
  destruct r as [|y r']; simpl.
  - exists []. rewrite app_nil_r. reflexivity.
  - eexists. reflexivity.
Qed.

(** ** Live selection *)

Section LiveSelectionFacts.
Import LiveSelection.

Lemma clearSelection_without_selection m :
  currentSelection m = None -> clearSelection m = m.
Proof.
  destruct m as [cur cb f]; simpl; intros ->. reflexivity.
Qed.

(** C8.  [setSelection] with a content that trims to the empty string
    is [clearSelection]: the two calls leave the manager in the same
    state with the same callback log.  Without a stored selection the
    manager is unchanged (nothing fires); with one, the slot becomes
    empty and the registered change callback is invoked exactly once. *)
Theorem setSelection_blank_is_clearSelection :
  forall m content sourcePath now,
    JS.trim content = [] ->
    setSelection m content sourcePath now = clearSelection m
    /\ (currentSelection m = None ->
          setSelection m content sourcePath now = m)
    /\ (forall sel cb,
          currentSelection m = Some sel ->
          onChangeCallback m = Some cb ->
          currentSelection (setSelection m content sourcePath now) = None
          /\ fired (setSelection m content sourcePath now) = fired m ++ [cb]).
Proof.
  intros m content sourcePath now Htrim.
  assert (E : setSelection m content sourcePath now = clearSelection m).
  { unfold setSelection. rewrite Htrim. simpl.
    rewrite orb_true_r. reflexivity. }
  rewrite E. split; [reflexivity|]. split.
  - apply clearSelection_without_selection.
  - intros sel cb Hsel Hcb. destruct m as [cur c f]; simpl in *; subst.
    unfold clearSelection, notifyChange; simpl. split; reflexivity.
Qed.

Lemma setSelection_blank_is_clearSelection_witness :
  let m := {| currentSelection :=
                Some {| content := js "hello"; sourcePath := None;
                        timestamp := 5 |};
              onChangeCallback := Some 7%nat;
              fired := [] |} in
  JS.trim (js "   ") = [] /\
  currentSelection (setSelection m (js "   ") None 9) = None /\
  fired (setSelection m (js "   ") None 9) = [7%nat].
Proof.
  intros m.
  assert (H : JS.trim (js "   ") = []) by reflexivity.
  split; [exact H|].
  exact (proj2 (proj2 (setSelection_blank_is_clearSelection m (js "   ") None 9 H))
           _ 7%nat eq_refl eq_refl).
Defined.

(** C9 as stated fails: for [maxLength = 2] and the content "abcdef"
    the preview is "...", whose length is 3. *)
Lemma getPreview_short_maxLength_counterexample :
  ~ (forall m sel maxLength,
       currentSelection m = Some sel ->
       preview_as_specified (content sel) (getPreview m maxLength) maxLength).
Proof.
  intros H.
  pose (sel := {| content := js "abcdef"; sourcePath := None; timestamp := 0 |}).
  pose (m := {| currentSelection := Some sel; onChangeCallback := None;
                fired := [] |}).
  destruct (H m sel 2%Z eq_refl) as [_ H2].
  destruct H2 as [_ Hlen]; [reflexivity|].
  vm_compute in Hlen. discriminate.
Qed.

(** C9, amended.  For every stored content and every integer
    [maxLength >= 3], [getPreview maxLength] is the full content when
    [content.length <= maxLength], and otherwise the first
    [maxLength - 3] code units followed by "...", of length exactly
    [maxLength]. *)
Theorem getPreview_truncates :
  forall m sel maxLength,
    currentSelection m = Some sel ->
    (3 <= maxLength)%Z ->
    preview_as_specified (content sel) (getPreview m maxLength) maxLength.
Proof.
  intros m sel maxLength Hsel Hmax. unfold preview_as_specified, getPreview.
  rewrite Hsel. split.
  - intros Hle. apply Z.leb_le in Hle. rewrite Hle. reflexivity.
  - intros Hlt. assert (Hf : (JS.length (content sel) <=? maxLength)%Z = false)
      by (apply Z.leb_gt; exact Hlt).
    rewrite Hf. rewrite js_substring_prefix by lia. split; [reflexivity|].
    unfold JS.length in *. rewrite length_app, firstn_length_le by lia.
    simpl. lia.
Qed.

Lemma getPreview_truncates_witness :
  let sel := {| content := js "abcdefghij"; sourcePath := None;
                timestamp := 0 |} in
  let m := {| currentSelection := Some sel; onChangeCallback := None;
              fired := [] |} in
  preview_as_specified (content sel) (getPreview m 8) 8.
Proof.
  intros sel m. apply (getPreview_truncates m (sel := sel)).
  - reflexivity.
  - lia.
Defined.

End LiveSelectionFacts.

(** ** Arrays *)

Section ArrayFacts.
Variable A : Type.
Implicit Types (p : A -> bool) (l : list A).

Lemma findIndex_None p l :
  Arr.findIndex p l = None <-> find p l = None.
Proof.
  induction l as [|x r IH]; simpl; [tauto|].
  destruct (p x); [split; discriminate|].
  destruct (Arr.findIndex p r); split; intros H;
    try discriminate; try tauto.
  destruct IH as [_ IH]. specialize (IH H). discriminate.
Qed.

(** A successful [findIndex] splits the array at the first match,
    which is also what [find] returns. *)
Lemma findIndex_Some p l i :
  Arr.findIndex p l = Some i ->
  exists before x after,
    l = before ++ x :: after /\ List.length before = i /\
    p x = true /\ find p l = Some x /\
    (forall y, In y before -> p y = false).
Proof.
  revert i; induction l as [|x r IH]; simpl; intros i H; [discriminate|].
  destruct (p x) eqn:Hx.
  - injection H as <-. exists [], x, r. simpl. intuition.
  - destruct (Arr.findIndex p r) as [j|]; [|discriminate].
    injection H as <-.
    destruct (IH j eq_refl) as (before & y & after & -> & <- & Hy & Hf & Hb).
    exists (x :: before), y, after. simpl. repeat split; auto.
    intros z [<-|Hz]; auto.
Qed.

Lemma find_Some_findIndex p l x :
  find p l = Some x -> exists i, Arr.findIndex p l = Some i.
Proof.
  intros H. destruct (Arr.findIndex p l) as [i|] eqn:E; [eauto|].
  apply findIndex_None in E. congruence.
Qed.

Lemma removeAt_middle (before after : list A) x :
  Arr.removeAt (List.length before) (before ++ x :: after) = before ++ after.
Proof. induction before; simpl; congruence. Qed.

Lemma updateAt_middle (f : A -> A) (before after : list A) x :
  Arr.updateAt (List.length before) f (before ++ x :: after)
  = before ++ f x :: after.
Proof. induction before; simpl; congruence. Qed.

Lemma filter_length_app p l1 l2 :
  List.length (filter p (l1 ++ l2))
  = (List.length (filter p l1) + List.length (filter p l2))%nat.
Proof. rewrite filter_app, length_app. reflexivity. Qed.

Lemma filter_none p l :
  (forall x, In x l -> p x = false) -> filter p l = [].
Proof.
  induction l as [|x r IH]; simpl; intros H; [reflexivity|].
  rewrite (H x) by auto. apply IH. auto.
Qed.
End ArrayFacts.

(** ** The provider and model registry *)

Section SettingsFacts.
Import PluginSettings Settings.

Lemma unsetDefaults_none l :
  filter AIModel.isDefault (unsetDefaults l) = [].
Proof.
  apply filter_none. intros x Hx. unfold unsetDefaults in Hx.
  apply in_map_iff in Hx. destruct Hx as (y & <- & _). reflexivity.
Qed.

Lemma defaultCount_with_models l s :
  defaultCount (with_models l s) = List.length (filter AIModel.isDefault l).
Proof. reflexivity. Qed.

Lemma filter_filter_length (q : AIModel.t -> bool) l :
  (List.length (filter AIModel.isDefault (filter q l))
   <= List.length (filter AIModel.isDefault l))%nat.
Proof.
  induction l as [|x r IH]; simpl; [lia|].
  destruct (q x); simpl; destruct (AIModel.isDefault x); simpl; lia.
Qed.

Lemma removeAt_defaults i l :
  (List.length (filter AIModel.isDefault (Arr.removeAt i l))
   <= List.length (filter AIModel.isDefault l))%nat.
Proof.
  revert i; induction l as [|x r IH]; intros [|i]; simpl; try lia.
  - destruct (AIModel.isDefault x); simpl; lia.
  - specialize (IH i). destruct (AIModel.isDefault x); simpl; lia.
Qed.

(** After [setDefaultModel] found its target, the target alone is set. *)
Lemma setDefault_shape before target after :
  List.length
    (filter AIModel.isDefault
       (unsetDefaults before ++
        AIModel.with_isDefault true target :: unsetDefaults after)) = 1%nat.
Proof.
  rewrite filter_length_app. simpl.
  rewrite !unsetDefaults_none. reflexivity.
Qed.

Lemma unsetDefaults_app l1 l2 :
  unsetDefaults (l1 ++ l2) = unsetDefaults l1 ++ unsetDefaults l2.
Proof. apply map_app. Qed.

Lemma setDefaultModel_found s id target :
  getModel s id = Some target ->
  exists before after,
    models s = before ++ target :: after /\
    (forall m, In m before -> AIModel.id m <> id) /\
    AIModel.id target = id /\
    setDefaultModel s id
    = (true,
       with_models
         (unsetDefaults before ++
          AIModel.with_isDefault true target :: unsetDefaults after) s).
Proof.
  intros Hget. unfold getModel in Hget.
  destruct (find_Some_findIndex _ _ Hget) as [i Hi].
  destruct (findIndex_Some _ _ Hi) as (before & x & after & Hl & Hlen & Hx & Hf & Hb).
  assert (x = target) by congruence. subst x.
  exists before, after. split; [exact Hl|]. split.
  { intros m Hm. apply js_eqb_neq. apply (Hb m Hm). }
  split. { apply js_eqb_eq. exact Hx. }
  unfold setDefaultModel. rewrite Hi, Hl, unsetDefaults_app. simpl.
  replace i with (List.length (unsetDefaults before))
    by (unfold unsetDefaults; rewrite length_map; exact Hlen).
  rewrite updateAt_middle. reflexivity.
Qed.

Lemma perform_keeps_single_default s c :
  (defaultCount s <= 1)%nat -> (defaultCount (perform s c) <= 1)%nat.
Proof.
  intros Inv. destruct c as [np nid|id|id|nm nid|id u|id|id]; simpl.
  - unfold addProvider. destruct (negb _); simpl; exact Inv.
  - unfold deleteProvider.
    destruct (Arr.findIndex _ (providers s)); simpl; [|exact Inv].
    rewrite defaultCount_with_models. simpl.
    etransitivity; [apply filter_filter_length|exact Inv].
  - unfold toggleProvider.
    destruct (Arr.findIndex _ (providers s)); simpl; exact Inv.
  - unfold addModel. destruct (negb _); simpl; [exact Inv|].
    destruct (find _ (providers s)); simpl; [|exact Inv].
    rewrite defaultCount_with_models, filter_length_app. simpl.
    destruct (nm_isDefault nm); simpl.
    + rewrite unsetDefaults_none. simpl. lia.
    + unfold defaultCount in Inv. lia.
  - unfold updateModel.
    destruct (Arr.findIndex _ (models s)) as [i|] eqn:Hi; simpl; [|exact Inv].
    destruct (findIndex_Some _ _ Hi) as (before & x & after & Hl & Hlen & _).
    assert (Hnth : nth_error (models s) i = Some x).
    { rewrite Hl, <- Hlen, nth_error_app2, Nat.sub_diag by lia.
      reflexivity. }
    rewrite Hnth.
    destruct (negb _); simpl; [exact Inv|].
    match goal with |- context [if ?b then _ else _] => destruct b end;
      simpl; [exact Inv|].
    rewrite defaultCount_with_models, <- Hlen.
    destruct (u_isDefault u) as [[|]|] eqn:Hu; rewrite Hl.
    + rewrite unsetDefaults_app. simpl.
      replace (List.length before) with (List.length (unsetDefaults before))
        by (unfold unsetDefaults; apply length_map).
      rewrite updateAt_middle, filter_length_app. simpl.
      rewrite !unsetDefaults_none, Hu. simpl. lia.
    + rewrite updateAt_middle, filter_length_app. simpl.
      unfold defaultCount in Inv. rewrite Hl, filter_length_app in Inv.
      simpl in Inv. unfold applyUpdates; rewrite Hu; simpl.
      destruct (AIModel.isDefault x); simpl in *; lia.
    + rewrite updateAt_middle, filter_length_app. simpl.
      unfold defaultCount in Inv. rewrite Hl, filter_length_app in Inv.
      simpl in Inv. unfold applyUpdates; rewrite Hu; simpl.
      destruct (AIModel.isDefault x); simpl in *; lia.
  - unfold deleteModel.
    destruct (Arr.findIndex _ (models s)); simpl; [|exact Inv].
    rewrite defaultCount_with_models.
    etransitivity; [apply removeAt_defaults|exact Inv].
  - unfold setDefaultModel.
    destruct (Arr.findIndex _ (models s)) as [i|] eqn:Hi; simpl; [|exact Inv].
    destruct (findIndex_Some _ _ Hi) as (before & x & after & Hl & Hlen & _).
    rewrite defaultCount_with_models, Hl, unsetDefaults_app. simpl.
    replace i with (List.length (unsetDefaults before))
      by (unfold unsetDefaults; rewrite length_map; exact Hlen).
    rewrite updateAt_middle, setDefault_shape. lia.
Qed.

Lemma performAll_keeps_single_default calls s :
  (defaultCount s <= 1)%nat -> (defaultCount (performAll s calls) <= 1)%nat.
Proof.
  revert s; induction calls as [|c r IH]; intros s Inv; simpl; [exact Inv|].
  apply IH, perform_keeps_single_default, Inv.
Qed.

(** C5.  [setDefaultModel id] returns [false] and leaves the settings
    untouched when no model has that id.  Otherwise it returns [true],
    the first model with that id ends up with [isDefault = true] and
    every other model with [isDefault = false], so exactly one model
    is the default; and starting from a registry with at most one
    default model (the fresh registry in particular), any sequence of
    registry calls leaves at most one default model. *)
Theorem setDefaultModel_single_default :
  forall s id,
    (getModel s id = None -> setDefaultModel s id = (false, s))
    /\ (forall target, getModel s id = Some target ->
          exists before after,
            models s = before ++ target :: after /\
            setDefaultModel s id
            = (true,
               with_models
                 (unsetDefaults before ++
                  AIModel.with_isDefault true target ::
                  unsetDefaults after) s) /\
            defaultCount (snd (setDefaultModel s id)) = 1%nat)
    /\ (forall calls,
          (defaultCount s <= 1)%nat ->
          (defaultCount (performAll s calls) <= 1)%nat)
    /\ (forall calls, (defaultCount (performAll initial calls) <= 1)%nat).
Proof.
  intros s id. split; [|split; [|split]].
  - intros Hnone. unfold setDefaultModel, getModel in *.
    apply findIndex_None in Hnone. rewrite Hnone. reflexivity.
  - intros target Hget.
    destruct (setDefaultModel_found s id Hget) as (before & after & Hl & _ & _ & E).
    exists before, after. split; [exact Hl|]. split; [exact E|].
    rewrite E. simpl. rewrite defaultCount_with_models.
    apply setDefault_shape.
  - intros calls. apply performAll_keeps_single_default.
  - intros calls. apply performAll_keeps_single_default.
    unfold defaultCount; simpl; lia.
Qed.

Lemma setDefaultModel_single_default_witness :
  let m1 := {| AIModel.id := js "m1"; AIModel.name := js "A";
               AIModel.providerId := js "p"; AIModel.modelIdentifier := js "a";
               AIModel.isDefault := true |} in
  let m2 := {| AIModel.id := js "m2"; AIModel.name := js "B";
               AIModel.providerId := js "p"; AIModel.modelIdentifier := js "b";
               AIModel.isDefault := false |} in
  let s := with_models [m1; m2] initial in
  setDefaultModel s (js "zz") = (false, s) /\
  getDefaultModel (snd (setDefaultModel s (js "m2")))
    = Some (AIModel.with_isDefault true m2) /\
  defaultCount (snd (setDefaultModel s (js "m2"))) = 1%nat /\
  (defaultCount
     (performAll s [SetDefaultModel (js "m2");
                    UpdateModel (js "m1")
                      {| u_name := None; u_providerId := None;
                         u_modelIdentifier := None;
                         u_isDefault := Some true |}]) <= 1)%nat.
Proof.
  intros m1 m2 s.
  destruct (setDefaultModel_single_default s (js "zz")) as (Hnone & _).
  destruct (setDefaultModel_single_default s (js "m2")) as (_ & Hsome & Hseq & _).
  split; [apply Hnone; reflexivity|].
  split; [reflexivity|].
  split.
  - destruct (Hsome m2 eq_refl) as (before & after & _ & _ & Hcount).
    exact Hcount.
  - apply Hseq. vm_compute. repeat constructor.
Defined.

(** C7.  [deleteProvider id] returns [false] and leaves the settings
    untouched when no provider has that id.  Otherwise it returns
    [true]; the providers are the old ones without the first provider
    carrying that id, in the same order; the models are the old ones
    whose [providerId] differs from [id], in the same order; nothing
    else in the settings changes; and when provider ids are unique no
    provider with that id is left. *)
Theorem deleteProvider_cascades :
  forall s id,
    (getProvider s id = None -> deleteProvider s id = (false, s))
    /\ (forall p, getProvider s id = Some p ->
          exists before after,
            providers s = before ++ p :: after /\
            AIProvider.id p = id /\
            (forall q, In q before -> AIProvider.id q <> id) /\
            deleteProvider s id
            = (true,
               {| providers := before ++ after;
                  models :=
                    filter (fun m => negb (JS.eqb (AIModel.providerId m) id))
                           (models s);
                  currentSessionId := currentSessionId s;
                  sessions := sessions s;
                  maxHistorySize := maxHistorySize s;
                  streamingEnabled := streamingEnabled s |}) /\
            (forall m, In m (models (snd (deleteProvider s id))) <->
                       In m (models s) /\ AIModel.providerId m <> id) /\
            (NoDup (map AIProvider.id (providers s)) ->
             forall q, In q (providers (snd (deleteProvider s id))) ->
                       AIProvider.id q <> id)).
Proof.
  intros s id. split.
  - intros Hnone. unfold deleteProvider, getProvider in *.
    apply findIndex_None in Hnone. rewrite Hnone. reflexivity.
  - intros p Hget. unfold getProvider in Hget.
    destruct (find_Some_findIndex _ _ Hget) as [i Hi].
    destruct (findIndex_Some _ _ Hi)
      as (before & x & after & Hl & Hlen & Hx & Hf & Hb).
    assert (x = p) by congruence. subst x.
    assert (Hid : AIProvider.id p = id) by (apply js_eqb_eq; exact Hx).
    assert (E : deleteProvider s id
                = (true,
                   {| providers := before ++ after;
                      models :=
                        filter (fun m => negb (JS.eqb (AIModel.providerId m) id))
                               (models s);
                      currentSessionId := currentSessionId s;
                      sessions := sessions s;
                      maxHistorySize := maxHistorySize s;
                      streamingEnabled := streamingEnabled s |})).
    { unfold deleteProvider. rewrite Hi, Hl, <- Hlen, removeAt_middle.
      reflexivity. }
    exists before, after. split; [exact Hl|]. split; [exact Hid|].
    split. { intros q Hq. apply js_eqb_neq, Hb, Hq. }
    split; [exact E|]. rewrite E. simpl. split.
    + intros m. rewrite filter_In, negb_true_iff, js_eqb_neq. tauto.
    + intros Hnd q Hq. rewrite Hl, map_app in Hnd. simpl in Hnd.
      apply NoDup_remove_2 in Hnd. intros Hqid. apply Hnd.
      rewrite Hid, <- Hqid, <- map_app. apply in_map, Hq.
Qed.

Lemma deleteProvider_cascades_witness :
  let p1 := {| AIProvider.id := js "p1"; AIProvider.name := js "One";
               AIProvider.baseUrl := js "u"; AIProvider.apiKey := js "k";
               AIProvider.enabled := true; AIProvider.type := openai |} in
  let p2 := {| AIProvider.id := js "p2"; AIProvider.name := js "Two";
               AIProvider.baseUrl := js "u"; AIProvider.apiKey := js "k";
               AIProvider.enabled := true; AIProvider.type := anthropic |} in
  let m1 := {| AIModel.id := js "m1"; AIModel.name := js "A";
               AIModel.providerId := js "p1"; AIModel.modelIdentifier := js "a";
               AIModel.isDefault := true |} in
  let m2 := {| AIModel.id := js "m2"; AIModel.name := js "B";
               AIModel.providerId := js "p2"; AIModel.modelIdentifier := js "b";
               AIModel.isDefault := false |} in
  let s := with_models [m1; m2] (with_providers [p1; p2] initial) in
  deleteProvider s (js "p9") = (false, s) /\
  getProvider s (js "p1") = Some p1 /\
  NoDup (map AIProvider.id (providers s)) /\
  (forall m, In m (models (snd (deleteProvider s (js "p1")))) <->
             In m (models s) /\ AIModel.providerId m <> js "p1") /\
  (forall q, In q (providers (snd (deleteProvider s (js "p1")))) ->
             AIProvider.id q <> js "p1").
Proof.
  intros p1 p2 m1 m2 s.
  destruct (deleteProvider_cascades s (js "p9")) as (Hnone & _).
  destruct (deleteProvider_cascades s (js "p1")) as (_ & Hsome).
  assert (Hnd : NoDup (map AIProvider.id (providers s))).
  { simpl. repeat constructor; simpl; intuition discriminate. }
  split; [apply Hnone; reflexivity|].
  split; [reflexivity|].
  split; [exact Hnd|].
  destruct (Hsome p1 eq_refl) as (before & after & _ & _ & _ & _ & Hm & Hq).
  split; [exact Hm|exact (Hq Hnd)].
Defined.

End SettingsFacts.

(** ** Sorting with a comparator *)

Section SortFacts.
Variable A : Type.
Variable cmp : A -> A -> Z.

(** [before x y]: the comparator lets [x] stand before [y]. *)
Let before (x y : A) : Prop := (cmp x y <= 0)%Z.

Hypothesis before_trans : forall x y z, before x y -> before y z -> before x z.
Hypothesis before_total : forall x y, ~ before x y -> before y x.

Lemma insert_perm x l : Permutation (x :: l) (Arr.insert cmp x l).
Proof.
  induction l as [|y r IH]; simpl; [reflexivity|].
  destruct (cmp x y <=? 0)%Z; [reflexivity|].
  rewrite perm_swap. constructor. exact IH.
Qed.

Lemma sort_perm l : Permutation l (Arr.sort cmp l).
Proof.
  induction l as [|x r IH]; simpl; [constructor|].
  rewrite <- insert_perm. constructor. exact IH.
Qed.

Lemma sort_length l : List.length (Arr.sort cmp l) = List.length l.
Proof. symmetry. apply Permutation_length, sort_perm. Qed.

Lemma insert_sorted x l :
  StronglySorted before l -> StronglySorted before (Arr.insert cmp x l).
Proof.
  induction 1 as [|y r Hs IH Hall]; simpl.
  - repeat constructor.
  - destruct (cmp x y <=? 0)%Z eqn:E.
    + apply Z.leb_le in E. constructor; [constructor; assumption|].
      constructor; [exact E|].
      eapply Forall_impl; [|exact Hall].
      intros z Hz. eapply before_trans; eassumption.
    + apply Z.leb_gt in E. constructor; [exact IH|].
      rewrite <- insert_perm. constructor; [|exact Hall].
      apply before_total. unfold before. lia.
Qed.

Lemma sort_sorted l : StronglySorted before (Arr.sort cmp l).
Proof.
  induction l as [|x r IH]; simpl; [constructor|].
  apply insert_sorted, IH.
Qed.

(** In a sorted array every element of a prefix may stand before
    every element of the remaining suffix. *)
Lemma sorted_prefix_suffix n l :
  StronglySorted before l ->
  forall k d, In k (firstn n l) -> In d (skipn n l) -> before k d.
Proof.
  revert n; induction l as [|x r IH]; intros n Hs k d Hk Hd.
  - rewrite firstn_nil in Hk. destruct Hk.
  - destruct n as [|n]; simpl in *; [destruct Hk|].
    inversion Hs as [|? ? Hs' Hall]; subst.
    destruct Hk as [<-|Hk].
    + rewrite Forall_forall in Hall. apply Hall.
      rewrite <- (firstn_skipn n r). apply in_or_app. right. exact Hd.
    + eapply IH; eauto.
Qed.
End SortFacts.

Lemma StronglySorted_weaken (A : Type) (R R' : A -> A -> Prop) (l : list A) :
  (forall a b, R a b -> R' a b) -> StronglySorted R l -> StronglySorted R' l.
Proof.
  intros Himp. induction 1 as [|x r Hs IH Hall]; constructor; auto.
  eapply Forall_impl; [|exact Hall]. intros; auto.
Qed.

(** ** Chat sessions *)

Section ChatStateFacts.
Import ChatState.

Lemma byUpdatedAtDesc_newerFirst a b :
  (byUpdatedAtDesc a b <= 0)%Z <-> newerFirst a b.
Proof. unfold byUpdatedAtDesc, newerFirst. lia. Qed.

Lemma sessions_sorted l :
  StronglySorted newerFirst (Arr.sort byUpdatedAtDesc l).
Proof.
  eapply StronglySorted_weaken.
  2: { apply sort_sorted with (cmp := byUpdatedAtDesc).
       - unfold byUpdatedAtDesc. intros; lia.
       - unfold byUpdatedAtDesc. intros; lia. }
  intros a b H. apply byUpdatedAtDesc_newerFirst, H.
Qed.

Lemma generateId_truthy idTime rnd :
  JS.falsy (Env.generateId idTime rnd) = false.
Proof.
  unfold Env.generateId. destruct (Env.decimal idTime); reflexivity.
Qed.

Lemma find_hasId_None id l :
  find (hasId id) l = None <->
  (forall k, In k l -> ChatSession.id k <> id).
Proof.
  split.
  - intros H k Hk. apply js_eqb_neq. eapply find_none in H; eauto.
  - intros H. destruct (find (hasId id) l) as [k|] eqn:E; [|reflexivity].
    apply find_some in E. destruct E as [Hk Hid].
    apply js_eqb_eq in Hid. elim (H k Hk Hid).
Qed.

(** C6.  When [createSession] brings the session count above
    [MAX_SESSIONS], the manager keeps exactly the first
    [MAX_SESSIONS] sessions of the array sorted by [updatedAt]
    descending and drops the rest, so no dropped session was updated
    later than a kept one.  The current pointer stays on the new
    session when a kept session carries its id; otherwise it moves to
    the first kept session, which has the greatest [updatedAt] of
    all (and would become null were nothing kept).  With unique
    ids, the pointer moves exactly when the new session is dropped. *)
Theorem createSession_prunes :
  forall m modelId idTime rnd createdAt updatedAt,
    let session := fst (createSession m modelId idTime rnd createdAt updatedAt) in
    let m' := snd (createSession m modelId idTime rnd createdAt updatedAt) in
    let all := sessions m ++ [session] in
    let sorted := Arr.sort byUpdatedAtDesc all in
    let kept := firstn Constants.MAX_SESSIONS sorted in
    let dropped := skipn Constants.MAX_SESSIONS sorted in
    (Constants.MAX_SESSIONS < List.length all)%nat ->
    Permutation all sorted
    /\ StronglySorted newerFirst sorted
    /\ sessions m' = kept
    /\ List.length (sessions m') = Constants.MAX_SESSIONS
    /\ Permutation all (sessions m' ++ dropped)
    /\ (forall k d, In k (sessions m') -> In d dropped ->
          (ChatSession.updatedAt d <= ChatSession.updatedAt k)%Z)
    /\ ((exists k, In k kept /\ ChatSession.id k = ChatSession.id session) ->
          currentSessionId m' = Some (ChatSession.id session))
    /\ ((forall k, In k kept -> ChatSession.id k <> ChatSession.id session) ->
          currentSessionId m'
          = match kept with
            | first :: _ => Some (ChatSession.id first)
            | [] => None
            end
          /\ exists first rest,
               kept = first :: rest /\
               forall s, In s all ->
                 (ChatSession.updatedAt s <= ChatSession.updatedAt first)%Z)
    /\ (NoDup (map ChatSession.id all) ->
        In session dropped ->
        forall k, In k kept -> ChatSession.id k <> ChatSession.id session).
Proof.
  intros m modelId idTime rnd createdAt updatedAt session m' all sorted
    kept dropped Hover.
  assert (Hperm : Permutation all sorted) by apply sort_perm.
  assert (Hsorted : StronglySorted newerFirst sorted) by apply sessions_sorted.
  assert (Hlen : List.length sorted = List.length all) by apply sort_length.
  assert (Hsplit : kept ++ dropped = sorted) by apply firstn_skipn.
  assert (Hm' : m' = {| sessions := kept;
                        currentSessionId :=
                          if negb (match find (hasId (ChatSession.id session)) kept with
                                   | Some _ => true
                                   | None => false
                                   end)
                          then match kept with
                               | first :: _ => Some (ChatSession.id first)
                               | [] => None
                               end
                          else Some (ChatSession.id session) |}).
  { unfold m', createSession, pruneSessions.
    cbn [snd sessions currentSessionId].
    change (sessions m ++ [_]) with all.
    apply Nat.ltb_lt in Hover. rewrite Hover.
    change (Arr.sort byUpdatedAtDesc all) with sorted.
    change (firstn Constants.MAX_SESSIONS sorted) with kept.
    cbn [ChatSession.id]. rewrite generateId_truthy. reflexivity. }
  assert (Hkeptlen : List.length kept = Constants.MAX_SESSIONS).
  { unfold kept. rewrite firstn_length_le; [reflexivity|]. lia. }
  assert (Hge : forall k d, In k kept -> In d dropped -> newerFirst k d).
  { intros k d Hk Hd. apply byUpdatedAtDesc_newerFirst.
    eapply (sorted_prefix_suffix byUpdatedAtDesc Constants.MAX_SESSIONS).
    - eapply StronglySorted_weaken; [|exact Hsorted].
      intros a b H. apply byUpdatedAtDesc_newerFirst in H. exact H.
    - exact Hk.
    - exact Hd. }
  split; [exact Hperm|]. split; [exact Hsorted|].
  rewrite Hm'. cbn [sessions currentSessionId].
  split; [reflexivity|]. split; [exact Hkeptlen|].
  split; [rewrite Hsplit; exact Hperm|].
  split; [intros k d Hk Hd; apply (Hge k d Hk Hd)|].
  split; [|split].
  - intros (k & Hk & Hid).
    destruct (find (hasId (ChatSession.id session)) kept) eqn:E;
      [reflexivity|].
    rewrite find_hasId_None in E. elim (E k Hk Hid).
  - intros Hnone. apply find_hasId_None in Hnone. rewrite Hnone.
    cbn [negb]. split; [reflexivity|].
    destruct kept as [|first rest] eqn:Ek; [simpl in Hkeptlen; discriminate|].
    exists first, rest. split; [reflexivity|].
    intros s Hs. eapply Permutation_in in Hs; [|exact Hperm].
    rewrite <- Hsplit in Hs. apply in_app_or in Hs.
    assert (Hfirst : forall k, In k (first :: rest) -> newerFirst first k).
    { intros k [<-|Hk]; [unfold newerFirst; lia|].
      rewrite <- Hsplit in Hsorted. simpl in Hsorted.
      apply StronglySorted_inv in Hsorted. destruct Hsorted as [_ Hall].
      rewrite Forall_forall in Hall. apply Hall, in_or_app. left. exact Hk. }
    destruct Hs as [Hs|Hs].
    + apply Hfirst, Hs.
    + apply (Hge first s); [left; reflexivity|exact Hs].
  - intros Hnd Hdrop k Hk Hid.
    assert (Hnd' : NoDup (map ChatSession.id (kept ++ dropped))).
    { rewrite Hsplit. eapply Permutation_NoDup; [|exact Hnd].
      apply Permutation_map, Hperm. }
    rewrite map_app in Hnd'.
    apply in_split in Hk. destruct Hk as (k1 & k2 & Hk).
    rewrite Hk, map_app in Hnd'. simpl in Hnd'.
    rewrite <- app_assoc in Hnd'. simpl in Hnd'.
    apply NoDup_remove_2 in Hnd'. apply Hnd'.
    rewrite Hid. rewrite app_assoc. apply in_or_app. right.
    apply in_map, Hdrop.
Qed.

(** Ten sessions last updated at time 100; the one created next is
    stamped 50, so it is the one dropped and the pointer moves. *)
Lemma createSession_prunes_witness :
  let older i :=
    {| ChatSession.id := Env.generateId i (js "a");
       ChatSession.messages := [];
       ChatSession.contextItems := [];
       ChatSession.currentModelId := js "gpt";
       ChatSession.createdAt := 100;
       ChatSession.updatedAt := 100 |} in
  let m := {| sessions := map older [1; 2; 3; 4; 5; 6; 7; 8; 9; 10]%Z;
              currentSessionId := None |} in
  let created := createSession m (js "gpt") 11 (js "b") 50 50 in
  (Constants.MAX_SESSIONS < List.length (sessions m ++ [fst created]))%nat
  /\ List.length (sessions (snd created)) = Constants.MAX_SESSIONS
  /\ currentSessionId (snd created) = Some (Env.generateId 1 (js "a")).
Proof.
  intros older m created.
  assert (Hover : (Constants.MAX_SESSIONS
                   < List.length (sessions m ++ [fst created]))%nat)
    by (vm_compute; repeat constructor).
  split; [exact Hover|].
  destruct (createSession_prunes m (js "gpt") 11 (js "b") 50 50 Hover)
    as (_ & _ & _ & Hlen & _ & _ & _ & Hmove & _).
  split; [exact Hlen|].
  destruct Hmove as [Hcur _].
  - intros k Hk Hid. vm_compute in Hk.
    repeat (destruct Hk as [<-|Hk]; [vm_compute in Hid; discriminate|]).
    exact Hk.
  - unfold created. rewrite Hcur. reflexivity.
Defined.

End ChatStateFacts.

(** ** Dispatch and retry *)

Section DispatchFacts.
Import AIClient.

Variable fetch : nat -> FetchOutcome.

Lemma attempt_succeeds remaining attempt lastError w response :
  fetch (fetches w) = Responds response ->
  ok response = true ->
  attempts fetch (S remaining) attempt lastError w
  = (Returns response, fetched w).
Proof. intros Hf Hok. simpl. rewrite Hf, Hok. reflexivity. Qed.

Lemma attempt_fatal remaining attempt lastError w response :
  fetch (fetches w) = Responds response ->
  ok response = false ->
  type (classifyError response) = auth \/
  type (classifyError response) = rate_limit ->
  attempts fetch (S remaining) attempt lastError w
  = (Throws (classifyError response), fetched w).
Proof.
  intros Hf Hok Hty. simpl. rewrite Hf, Hok. simpl.
  destruct Hty as [-> | ->]; reflexivity.
Qed.

Lemma attempt_retried remaining attempt lastError w :
  retried (fetch (fetches w)) = true ->
  attempts fetch (S remaining) attempt lastError w
  = if (attempt =? MAX_RETRIES - 1)%nat
    then (Throws (errorOf (fetch (fetches w))), fetched w)
    else attempts fetch remaining (S attempt)
           (Some (errorOf (fetch (fetches w))))
           (delay (nth_error BACKOFF_DELAYS attempt) (fetched w)).
Proof.
  intros Hr. simpl. destruct (fetch (fetches w)) as [response| |];
    simpl in *; try reflexivity.
  apply andb_true_iff in Hr. destruct Hr as [Hok Hty]. rewrite Hok.
  destruct (type (classifyError response)); try discriminate; reflexivity.
Qed.

Lemma attempt_retried_again remaining attempt lastError w :
  retried (fetch (fetches w)) = true ->
  (attempt < MAX_RETRIES - 1)%nat ->
  attempts fetch (S remaining) attempt lastError w
  = attempts fetch remaining (S attempt)
      (Some (errorOf (fetch (fetches w))))
      (delay (nth_error BACKOFF_DELAYS attempt) (fetched w)).
Proof.
  intros Hr Hlt. rewrite attempt_retried by exact Hr.
  replace (attempt =? MAX_RETRIES - 1)%nat with false
    by (symmetry; apply Nat.eqb_neq; lia).
  reflexivity.
Qed.

Lemma attempt_retried_last remaining lastError w :
  retried (fetch (fetches w)) = true ->
  attempts fetch (S remaining) (MAX_RETRIES - 1) lastError w
  = (Throws (errorOf (fetch (fetches w))), fetched w).
Proof.
  intros Hr. rewrite attempt_retried by exact Hr. reflexivity.
Qed.

Lemma attempts_fetch_once remaining attempt lastError w :
  (fetches w + match remaining with O => 0 | S _ => 1 end
   <= fetches (snd (attempts fetch remaining attempt lastError w)))%nat.
Proof.
  revert attempt lastError w.
  induction remaining as [|n IH]; intros attempt lastError w; simpl; [lia|].
  assert (Hgo : forall e,
    (fetches w + 1
     <= fetches (snd (attempts fetch n (S attempt) (Some e)
                       (delay (nth_error BACKOFF_DELAYS attempt) (fetched w)))))%nat).
  { intros e. etransitivity; [|apply IH]. simpl. lia. }
  destruct (fetch (fetches w)) as [response| |].
  - destruct (negb (ok response)); simpl; [|lia].
    destruct (type (classifyError response)); simpl; try lia;
      destruct (Nat.eqb attempt _); simpl; try lia; apply Hgo.
  - destruct (Nat.eqb attempt _); simpl; [lia|apply Hgo].
  - destruct (Nat.eqb attempt _); simpl; [lia|apply Hgo].
Qed.

Lemma attempts_bounded remaining attempt lastError w :
  (fetches (snd (attempts fetch remaining attempt lastError w))
   <= fetches w + remaining)%nat.
Proof.
  revert attempt lastError w.
  induction remaining as [|n IH]; intros attempt lastError w; simpl; [lia|].
  assert (Hgo : forall e,
    (fetches (snd (attempts fetch n (S attempt) (Some e)
                    (delay (nth_error BACKOFF_DELAYS attempt) (fetched w))))
     <= fetches w + S n)%nat).
  { intros e. etransitivity; [apply IH|]. simpl. lia. }
  destruct (fetch (fetches w)) as [response| |].
  - destruct (negb (ok response)); simpl; [|lia].
    destruct (type (classifyError response)); simpl; try lia;
      destruct (Nat.eqb attempt _); simpl; try lia; apply Hgo.
  - destruct (Nat.eqb attempt _); simpl; [lia|apply Hgo].
  - destruct (Nat.eqb attempt _); simpl; [lia|apply Hgo].
Qed.
End DispatchFacts.

Section ClassifyFacts.
Import AIClient.



Lemma unclassified_retried o : unclassified o = true -> retried o = true.
Proof.
  destruct o as [response| |]; simpl; auto.
  intros H. apply andb_true_iff in H. destruct H as [-> H].
  destruct (type (classifyError response)); try discriminate; reflexivity.
Qed.



Ltac start_request :=
  unfold makeRequest; change MAX_RETRIES with 3%nat.



(** C3 as stated fails: three 404 answers are all fetched. *)
Lemma unknown_status_retried_counterexample : ~ unknown_surfaced_at_once.
Proof.
  intros H.
  specialize (H (fun _ => answering 404) _ eq_refl eq_refl eq_refl).
  vm_compute in H. discriminate.
Qed.

(** C3, amended.  A non-ok answer that classifies as [unknown]
    (404, say) is tried again like a server error: after it the loop
    waits for the backoff delay and fetches again, so at least two
    and at most three calls are made; a success that follows is
    returned, and three unclassified answers in a row end, after
    exactly three calls, in the [unknown] error of the last one. *)
Theorem makeRequest_retries_unknown :
  forall fetch,
    unclassified (fetch 0%nat) = true ->
    makeRequest fetch
    = attempts fetch 2 1 (Some (errorOf (fetch 0%nat)))
        {| fetches := 1; delays := [Some 1000%Z] |}
    /\ (2 <= fetches (snd (makeRequest fetch)) <= 3)%nat
    /\ (forall response,
          fetch 1%nat = Responds response -> ok response = true ->
          makeRequest fetch
          = (Returns response, {| fetches := 2; delays := [Some 1000%Z] |}))
    /\ (unclassified (fetch 1%nat) = true ->
        unclassified (fetch 2%nat) = true ->
        makeRequest fetch
        = (Throws (errorOf (fetch 2%nat)),
           {| fetches := 3; delays := [Some 1000; Some 2000]%Z |})
        /\ type (errorOf (fetch 2%nat)) = unknown).
Proof.
  intros fetch U0.
  assert (E : makeRequest fetch
              = attempts fetch 2 1 (Some (errorOf (fetch 0%nat)))
                  {| fetches := 1; delays := [Some 1000%Z] |}).
  { start_request.
    rewrite attempt_retried_again;
      [reflexivity|apply unclassified_retried; exact U0|repeat constructor]. }
  split; [exact E|]. split; [|split].
  - split.
    + rewrite E.
      etransitivity; [|apply attempts_fetch_once]. simpl. lia.
    + exact (attempts_bounded fetch MAX_RETRIES 0 None noEffects).
  - intros response H1 Hok. rewrite E.
    rewrite attempt_succeeds with (response := response); auto.
  - intros U1 U2. split.
    + rewrite E.
      rewrite attempt_retried_again;
        [|apply unclassified_retried; exact U1|repeat constructor].
      rewrite (attempt_retried_last fetch 0);
        [reflexivity|apply unclassified_retried; exact U2].
    + destruct (fetch 2%nat) as [r3| |]; simpl in *; try discriminate.
      destruct (type (classifyError r3)); try reflexivity;
        rewrite andb_false_r in U2; discriminate.
Qed.

Lemma makeRequest_retries_unknown_witness :
  unclassified (answering 404) = true
  /\ makeRequest (fun _ => answering 404)
     = (Throws (classifyError
                  {| status := 404; retryAfterHeader := None; body := None |}),
        {| fetches := 3; delays := [Some 1000; Some 2000]%Z |}).
Proof.
  split; [reflexivity|].
  destruct (makeRequest_retries_unknown (fun _ => answering 404) eq_refl)
    as (_ & _ & _ & H).
  destruct (H eq_refl eq_refl) as [E _]. exact E.
Defined.
End ClassifyFacts.

(** ** The context message of a request *)

Section ContextFacts.
Import AIClient.

(** C4 as stated fails: for a single file item the client's own
    rendering differs from the one of [formatContextForAPI]. *)
Lemma prependContext_formatter_counterexample :
  ~ context_rendered_by_formatter.
Proof.
  intros H.
  pose (item := {| ContextItem.id := js "ctx-1";
                   ContextItem.type := file;
                   ContextItem.path := Some (js "a.md");
                   ContextItem.content := js "x";
                   ContextItem.displayName := js "a.md" |}).
  destruct (H [] [item] 0%Z 0%Z) as (m & Hm & _ & Hcontent);
    [discriminate|].
  injection Hm as <-. vm_compute in Hcontent. discriminate.
Qed.

(** C4, amended.  For a non-empty list of context items the request
    build prepends exactly one message, of role [system], whose
    content is "Context:", an empty line, and the items in order,
    each rendered as "[displayName]", a line feed and its content,
    separated by a line of three dashes between empty lines; for an
    empty list it prepends nothing. *)
Theorem prependContext_renders_items :
  forall messages contextItems idTime timestamp,
    (contextItems = [] ->
     prependContext messages contextItems idTime timestamp = messages)
    /\ (contextItems <> [] ->
        exists contextMessage,
          prependContext messages contextItems idTime timestamp
          = contextMessage :: messages /\
          ChatMessage.role contextMessage = system /\
          ChatMessage.content contextMessage
          = js "Context:" ++ [JS.LF; JS.LF]
            ++ JS.join ([JS.LF; JS.LF] ++ js "---" ++ [JS.LF; JS.LF])
                 (map renderItem contextItems) /\
          JS.startsWith (ChatMessage.content contextMessage)
            (js "Context:" ++ [JS.LF; JS.LF]
             ++ match contextItems with
                | first :: _ => renderItem first
                | [] => []
                end) = true).
Proof.
  intros messages contextItems idTime timestamp. split.
  - intros ->. reflexivity.
  - intros Hne. destruct contextItems as [|first rest]; [congruence|].
    eexists. split; [reflexivity|]. split; [reflexivity|].
    split; [reflexivity|].
    cbn [ChatMessage.content map].
    destruct (join_starts_with_first
                ([JS.LF; JS.LF] ++ js "---" ++ [JS.LF; JS.LF])
                (renderItem first) (map renderItem rest)) as [t ->].
    rewrite !app_assoc. apply startsWith_app.
Qed.

Lemma prependContext_renders_items_witness :
  let item := {| ContextItem.id := js "ctx-1";
                 ContextItem.type := selection;
                 ContextItem.path := None;
                 ContextItem.content := js "x";
                 ContextItem.displayName := js "Selection" |} in
  prependContext [] [] 1 2 = []
  /\ exists contextMessage,
       prependContext [] [item] 1 2 = [contextMessage] /\
       ChatMessage.content contextMessage
       = js "Context:" ++ [JS.LF; JS.LF] ++ js "[Selection]" ++ [JS.LF] ++ js "x".
Proof.
  intros item.
  destruct (prependContext_renders_items [] [] 1 2) as [Hnil _].
  destruct (prependContext_renders_items [] [item] 1 2) as [_ Hcons].
  split; [exact (Hnil eq_refl)|].
  destruct Hcons as (m & Hm & _ & Hc & _); [discriminate|].
  exists m. split; [exact Hm|exact Hc].
Defined.
End ContextFacts.

(** ** JSON.parse *)

Section JsonFacts.
Import JSON.

Ltac break_match :=
  match goal with
  | H : context [match ?x with _ => _ end] |- _ =>
      destruct x eqn:?; try discriminate
  | H : context [if ?b then _ else _] |- _ =>
      destruct b eqn:?; try discriminate
  end.

Lemma slice_length (s : jsstring) n :
  List.length (JS.slice s n) = (List.length s - n)%nat.
Proof. apply length_skipn. Qed.

Lemma skipSpace_length s : (List.length (skipSpace s) <= List.length s)%nat.
Proof.
  induction s as [|c r IH]; simpl; [lia|].
  destruct (isSpace c); simpl; lia.
Qed.

Lemma parseString_shorter n : forall s acc str r,
  (List.length s <= n)%nat ->
  parseString s acc = Some (str, r) -> (List.length r < List.length s)%nat.
Proof.
  induction n as [|n IH]; intros s acc str r Hn H;
    destruct s as [|c s']; simpl in *; try discriminate; try lia.
  repeat break_match; try (injection H as <- <-; simpl; lia);
    match goal with
    | H : parseString ?t _ = Some _ |- _ =>
        apply IH in H; simpl in *; lia
    end.
Qed.

Lemma spanDigits_length s : forall acc n v k r,
  spanDigits s acc n = (v, k, r) ->
  (List.length r <= List.length s)%nat
  /\ (List.length r + k = List.length s + n)%nat
  /\ match s with
     | c :: _ => if isDigit c then (n < k)%nat else True
     | [] => True
     end.
Proof.
  induction s as [|c s' IH]; intros acc n v k r H; simpl in *.
  - injection H as <- <- <-. simpl. lia.
  - destruct (isDigit c).
    + apply IH in H. lia.
    + injection H as <- <- <-. simpl. lia.
Qed.

Lemma parseNumber_shorter s n r :
  parseNumber s = Some (n, r) -> (List.length r < List.length s)%nat.
Proof.
  unfold parseNumber. intros H.
  repeat break_match;
    repeat match goal with
    | H : (_, _) = (_, _) |- _ => inversion H; subst; clear H
    | H : Some _ = Some _ |- _ => inversion H; subst; clear H
    | H : spanDigits _ _ _ = _ |- _ => apply spanDigits_length in H
    end;
    try match goal with
    | H : isDigit _ = true |- _ => rewrite H in *
    end; simpl in *; try lia.
Qed.

Ltac length_facts :=
  repeat match goal with
  | H : skipSpace ?s = _ |- _ =>
      let L := fresh "L" in
      pose proof (skipSpace_length s) as L; rewrite H in L; revert H
  | H : parseString ?s ?acc = Some (?str, ?r) |- _ =>
      pose proof (@parseString_shorter (List.length s) s acc str r (le_n _) H);
      clear H
  | H : parseNumber ?s = Some (?n, ?r) |- _ =>
      pose proof (@parseNumber_shorter s n r H); clear H
  end; intros.

(** A successful parse consumes at least one code unit. *)
Lemma parse_consumes fuel :
  (forall s v r, parseValue fuel s = Parsed v r ->
     (List.length r < List.length s)%nat)
  /\ (forall s acc v r, parseElements fuel s acc = Parsed v r ->
        (List.length r < List.length s)%nat)
  /\ (forall s acc v r, parseMembers fuel s acc = Parsed v r ->
        (List.length r < List.length s)%nat).
Proof.
  induction fuel as [|fuel (IHv & IHe & IHm)].
  - repeat split; intros; discriminate.
  - repeat split.
    + intros s v r H. cbn [parseValue] in H.
      repeat break_match;
        try match goal with
        | H : Parsed _ _ = Parsed _ _ |- _ => injection H as ? ?; subst
        end;
        try match goal with
        | H : parseMembers _ _ _ = Parsed _ _ |- _ => apply IHm in H
        | H : parseElements _ _ _ = Parsed _ _ |- _ => apply IHe in H
        end;
        length_facts;
        repeat match goal with
        | |- context [match ?l with [] => _ | _ :: _ => _ end] => destruct l
        end;
        cbn [List.length] in *; lia.
    + intros s acc v r H. cbn [parseElements] in H.
      repeat break_match;
        try match goal with
        | H : Parsed _ _ = Parsed _ _ |- _ => injection H as ? ?; subst
        end;
        repeat match goal with
        | H : parseValue _ _ = Parsed _ _ |- _ => apply IHv in H
        | H : parseElements _ _ _ = Parsed _ _ |- _ => apply IHe in H
        end;
        length_facts; cbn [List.length] in *; lia.
    + intros s acc v r H. cbn [parseMembers] in H.
      repeat break_match;
        try match goal with
        | H : Parsed _ _ = Parsed _ _ |- _ => injection H as ? ?; subst
        end;
        repeat match goal with
        | H : parseValue _ _ = Parsed _ _ |- _ => apply IHv in H
        | H : parseMembers _ _ _ = Parsed _ _ |- _ => apply IHm in H
        end;
        length_facts; cbn [List.length] in *; lia.
Qed.

Ltac consumed_facts :=
  repeat match goal with
  | H : parseValue ?f ?s = Parsed ?v ?r |- _ =>
      pose proof (proj1 (parse_consumes f) s v r H); clear H
  end.

Ltac out_of_fuel IHv IHe IHm :=
  match goal with
  | H : parseValue _ _ = OutOfFuel |- _ => eapply IHv; [|exact H]
  | H : parseElements _ _ _ = OutOfFuel |- _ => eapply IHe; [|exact H]
  | H : parseMembers _ _ _ = OutOfFuel |- _ => eapply IHm; [|exact H]
  end.

(** With fuel above twice the length of the text the parser never runs
    out of it. *)
Lemma parse_fuel_suffices fuel :
  (forall s, (2 * List.length s < fuel)%nat ->
     parseValue fuel s <> OutOfFuel)
  /\ (forall s acc, (2 * List.length s + 1 < fuel)%nat ->
        parseElements fuel s acc <> OutOfFuel)
  /\ (forall s acc, (2 * List.length s + 1 < fuel)%nat ->
        parseMembers fuel s acc <> OutOfFuel).
Proof.
  induction fuel as [|fuel (IHv & IHe & IHm)].
  - repeat split; intros; lia.
  - repeat split.
    + intros s Hlt H. cbn [parseValue] in H.
      repeat break_match; out_of_fuel IHv IHe IHm;
        length_facts; cbn [List.length] in *; lia.
    + intros s acc Hlt H. cbn [parseElements] in H.
      repeat break_match; out_of_fuel IHv IHe IHm;
        consumed_facts; length_facts; cbn [List.length] in *; lia.
    + intros s acc Hlt H. cbn [parseMembers] in H.
      repeat break_match; out_of_fuel IHv IHe IHm;
        consumed_facts; length_facts; cbn [List.length] in *; lia.
Qed.

(** [JSON.parse] never fails for lack of fuel. *)
Lemma parse_never_out_of_fuel text :
  parseValue (fuelFor text) text <> OutOfFuel.
Proof.
  apply (proj1 (parse_fuel_suffices (fuelFor text))). unfold fuelFor. lia.
Qed.

End JsonFacts.

(** ** Lines and the decoder *)

Lemma decode_app d (a b : list Byte.byte) :
  TextDecoder.decode d (a ++ b)
  = let '(d1, t1) := TextDecoder.decode d a in
    let '(d2, t2) := TextDecoder.decode d1 b in
    (d2, t1 ++ t2).
Proof.
  revert d; induction a as [|x a IH]; intros d; simpl.
  - destruct (TextDecoder.decode d b). reflexivity.
  - destruct (TextDecoder.step d x) as [d1 u1]. rewrite IH.
    destruct (TextDecoder.decode d1 a) as [d2 u2].
    destruct (TextDecoder.decode d2 b) as [d3 u3].
    rewrite app_assoc. reflexivity.
Qed.

Lemma split_not_nil (s : jsstring) : JS.split s <> [].
Proof.
  destruct s as [|c r]; simpl; [discriminate|].
  destruct (N.eqb c JS.LF); [discriminate|].
  destruct (JS.split r); discriminate.
Qed.

Lemma split_noLF (s : jsstring) : AIClient.noLF s -> JS.split s = [s].
Proof.
  unfold AIClient.noLF. induction s as [|c r IH]; simpl; intros H; [reflexivity|].
  destruct (N.eqb c JS.LF) eqn:E.
  - apply N.eqb_eq in E. elim H. left. congruence.
  - rewrite IH by tauto. reflexivity.
Qed.

Lemma split_at_LF (buffer rest : jsstring) :
  AIClient.noLF buffer ->
  JS.split (buffer ++ JS.LF :: rest) = buffer :: JS.split rest.
Proof.
  unfold AIClient.noLF. induction buffer as [|c r IH]; simpl; intros H.
  - reflexivity.
  - destruct (N.eqb c JS.LF) eqn:E.
    + apply N.eqb_eq in E. elim H. left. congruence.
    + rewrite IH by tauto. reflexivity.
Qed.

Lemma removelast_cons (A : Type) (x : A) (l : list A) :
  l <> [] -> removelast (x :: l) = x :: removelast l.
Proof. destruct l; [congruence|reflexivity]. Qed.

Lemma last_cons (A : Type) (x : A) (l : list A) (d : A) :
  l <> [] -> last (x :: l) d = last l d.
Proof. destruct l; [congruence|reflexivity]. Qed.

Lemma noLF_snoc (buffer : jsstring) (c : N) :
  AIClient.noLF buffer -> N.eqb c JS.LF = false -> AIClient.noLF (buffer ++ [c]).
Proof.
  unfold AIClient.noLF. intros H E Hin. apply in_app_or in Hin.
  destruct Hin as [Hin|[Hc|[]]]; [tauto|].
  rewrite Hc, N.eqb_refl in E. discriminate.
Qed.

(** ** The stream parser *)

Section StreamFacts.
Import AIClient.

Lemma scan_returned st text : scanExit st = Return -> scan st text = st.
Proof.
  intros H. unfold scan. induction text as [|c r IH]; simpl; [reflexivity|].
  unfold feed at 2. rewrite H. exact IH.
Qed.

Lemma scan_app st t1 t2 : scan st (t1 ++ t2) = scan (scan st t1) t2.
Proof. unfold scan. apply fold_left_app. Qed.

Lemma scan_cons st c r : scan st (c :: r) = scan (feed st c) r.
Proof. reflexivity. Qed.

Lemma feed_LF delivered buffer :
  feed {| scanExit := Continue; scanDelivered := delivered;
          scanBuffer := buffer |} JS.LF
  = {| scanExit := fst (handleLine buffer delivered);
       scanDelivered := snd (handleLine buffer delivered);
       scanBuffer := [] |}.
Proof.
  unfold feed. simpl. destruct (handleLine buffer delivered); reflexivity.
Qed.

Lemma feed_other delivered buffer c :
  N.eqb c JS.LF = false ->
  feed {| scanExit := Continue; scanDelivered := delivered;
          scanBuffer := buffer |} c
  = {| scanExit := Continue; scanDelivered := delivered;
       scanBuffer := buffer ++ [c] |}.
Proof. intros E. unfold feed. simpl. rewrite E. reflexivity. Qed.

(** One read, as the source does it with [split], is a scan of the
    decoded text from the buffered line. *)
Lemma handleLines_scan text : forall buffer delivered,
  noLF buffer ->
  let lines := JS.split (buffer ++ text) in
  let st := scan {| scanExit := Continue; scanDelivered := delivered;
                    scanBuffer := buffer |} text in
  handleLines (removelast lines) delivered = (scanExit st, scanDelivered st)
  /\ (scanExit st = Continue -> scanBuffer st = last lines [])
  /\ noLF (scanBuffer st).
Proof.
  induction text as [|c r IH]; intros buffer delivered Hno; cbv zeta.
  - rewrite app_nil_r, split_noLF by exact Hno. simpl. auto.
  - rewrite scan_cons. destruct (N.eqb c JS.LF) eqn:E.
    + apply N.eqb_eq in E. subst c. rewrite split_at_LF by exact Hno.
      rewrite removelast_cons, last_cons by apply split_not_nil.
      rewrite feed_LF. cbn [handleLines].
      destruct (handleLine buffer delivered) as [[|] d] eqn:Hl; cbn [fst snd].
      * exact (IH [] d (fun H => H)).
      * rewrite scan_returned by reflexivity. simpl.
        split; [reflexivity|]. split; [discriminate|]. intros [].
    + rewrite feed_other by exact E.
      specialize (IH (buffer ++ [c]) delivered (@noLF_snoc buffer c Hno E)).
      cbv zeta in IH. rewrite <- app_assoc in IH. exact IH.
Qed.

(** The whole run is a scan of the text decoded from all the bytes. *)
Lemma readLoop_scan pending : forall decoder buffer delivered reads,
  noLF buffer ->
  let st := scan {| scanExit := Continue; scanDelivered := delivered;
                    scanBuffer := buffer |}
                 (snd (TextDecoder.decode decoder (List.concat pending))) in
  let run := readLoop pending decoder buffer delivered reads in
  AIClient.delivered run = closed st
  /\ (scanExit st = Return -> stoppedAtDone run = true)
  /\ (scanExit st = Continue ->
      stoppedAtDone run = false /\ AIClient.buffer run = scanBuffer st /\
      AIClient.reads run = (reads + S (List.length pending))%nat).
Proof.
  induction pending as [|value rest IH];
    intros decoder buffer delivered reads Hno; cbv zeta.
  - simpl. split; [reflexivity|]. split; [discriminate|].
    intros _. repeat split. lia.
  - cbn [List.concat readLoop]. rewrite decode_app.
    destruct (TextDecoder.decode decoder value) as [d1 t1].
    destruct (TextDecoder.decode d1 (List.concat rest)) as [d2 t2] eqn:E2.
    cbn [snd]. rewrite scan_app.
    destruct (handleLines_scan t1 delivered Hno) as (Hl & Hb & Hn).
    cbv zeta in Hl, Hb, Hn. rewrite Hl.
    remember (scan {| scanExit := Continue; scanDelivered := delivered;
                      scanBuffer := buffer |} t1) as st1 eqn:Est.
    destruct st1 as [e d b]. cbn [scanExit scanDelivered scanBuffer] in *.
    destruct e.
    + rewrite <- Hb by reflexivity.
      specialize (IH d1 b d (S reads) Hn).
      cbv zeta in IH. rewrite E2 in IH. cbn [snd] in IH.
      destruct IH as (I1 & I2 & I3). split; [exact I1|].
      split; [exact I2|]. intros Hc. destruct (I3 Hc) as (J1 & J2 & J3).
      repeat split; auto. rewrite J3. simpl. lia.
    + rewrite scan_returned by reflexivity.
      split; [reflexivity|]. split; [reflexivity|]. discriminate.
Qed.

Lemma handleLine_cases raw delivered :
  handleLine raw delivered
  = if isDone raw then (Return, delivered)
    else (Continue, delivered ++ lineDeltas raw).
Proof.
  unfold handleLine, isDone, lineDeltas.
  destruct (JS.falsy (JS.trim raw)); cbn [negb andb];
    [rewrite app_nil_r; reflexivity|].
  destruct (JS.startsWith (JS.trim raw) (js "data: ")); cbn [negb andb];
    [|rewrite app_nil_r; reflexivity].
  destruct (JS.eqb (JS.slice (JS.trim raw) 6) (js "[DONE]")); reflexivity.
Qed.

Lemma handleLines_spec lines : forall delivered,
  handleLines lines delivered
  = (if existsb isDone lines then Return else Continue,
     delivered ++ flat_map lineDeltas (untilDone lines)).
Proof.
  induction lines as [|raw rest IH]; intros delivered; simpl.
  - rewrite app_nil_r. reflexivity.
  - rewrite handleLine_cases. destruct (isDone raw); simpl.
    + rewrite app_nil_r. reflexivity.
    + rewrite IH, app_assoc. reflexivity.
Qed.

(** A run over all the bytes in one chunk. *)
Lemma scan_whole text :
  let lines := JS.split text in
  let complete := removelast lines in
  let st := scan {| scanExit := Continue; scanDelivered := [];
                    scanBuffer := [] |} text in
  scanExit st = (if existsb isDone complete then Return else Continue)
  /\ scanDelivered st = flat_map lineDeltas (untilDone complete)
  /\ (scanExit st = Continue -> scanBuffer st = last lines []).
Proof.
  cbv zeta.
  destruct (@handleLines_scan text [] [] (fun H => H)) as (Hl & Hb & _).
  cbv zeta in Hl, Hb. simpl app in Hl, Hb.
  rewrite handleLines_spec in Hl. simpl in Hl.
  injection Hl as H1 H2. auto.
Qed.

Lemma deliver_truthy data v : In v (deliver data) -> JSON.truthy v = true.
Proof.
  unfold deliver. destruct (JSON.parse data) as [parsed|]; [|intros []].
  destruct (extractStreamContent parsed) as [content|]; [|intros []].
  destruct (JSON.truthy content) eqn:E; [|intros []].
  intros [<-|[]]. exact E.
Qed.

Lemma deliver_at_most_one data : (List.length (deliver data) <= 1)%nat.
Proof.
  unfold deliver. destruct (JSON.parse data) as [parsed|]; simpl; [|lia].
  destruct (extractStreamContent parsed) as [content|]; simpl; [|lia].
  destruct (JSON.truthy content); simpl; lia.
Qed.

Lemma lineDeltas_truthy raw v : In v (lineDeltas raw) -> JSON.truthy v = true.
Proof.
  unfold lineDeltas. destruct (JS.falsy _); [intros []|].
  destruct (JS.startsWith _ _); [apply deliver_truthy|intros []].
Qed.

Lemma flush_truthy buffer v : In v (flush buffer) -> JSON.truthy v = true.
Proof.
  unfold flush. destruct (JS.startsWith _ _); [|intros []].
  destruct (negb _); [apply deliver_truthy|intros []].
Qed.

Lemma readLoop_stops chunks more : forall decoder buffer delivered reads,
  stoppedAtDone (readLoop chunks decoder buffer delivered reads) = true ->
  readLoop (chunks ++ more) decoder buffer delivered reads
  = readLoop chunks decoder buffer delivered reads
  /\ (AIClient.reads (readLoop chunks decoder buffer delivered reads)
      <= reads + List.length chunks)%nat.
Proof.
  induction chunks as [|value rest IH];
    intros decoder buffer delivered reads; simpl.
  - discriminate.
  - destruct (TextDecoder.decode decoder value) as [d1 t1].
    destruct (handleLines _ delivered) as [[|] d].
    + intros H. destruct (IH d1 _ d (S reads) H) as [E L].
      split; [exact E|lia].
    + intros _. simpl. split; [reflexivity|lia].
Qed.

Lemma readLoop_holds_back value rest decoder buffer delivered reads :
  noLF (buffer ++ snd (TextDecoder.decode decoder value)) ->
  readLoop (value :: rest) decoder buffer delivered reads
  = readLoop rest (fst (TextDecoder.decode decoder value))
      (buffer ++ snd (TextDecoder.decode decoder value)) delivered (S reads).
Proof.
  intros Hno. simpl.
  destruct (TextDecoder.decode decoder value) as [d1 t1]. simpl in *.
  rewrite split_noLF by exact Hno. reflexivity.
Qed.

Lemma untilDone_none lines :
  existsb isDone lines = false -> untilDone lines = lines.
Proof.
  induction lines as [|raw rest IH]; simpl; [reflexivity|].
  destruct (isDone raw); simpl; [discriminate|].
  intros H. rewrite IH by exact H. reflexivity.
Qed.

Lemma run_of_stream chunks :
  handleStreamResponse (streaming chunks)
  = Returns (readLoop chunks TextDecoder.initial [] [] 0).
Proof. reflexivity. Qed.

(** The run over [chunks], told from the lines of the whole text. *)
Lemma run_by_lines chunks :
  let run := readLoop chunks TextDecoder.initial [] [] 0 in
  let lines := JS.split (decoded (List.concat chunks)) in
  let complete := removelast lines in
  delivered run = streamDeltas (List.concat chunks)
  /\ stoppedAtDone run = existsb isDone complete
  /\ (stoppedAtDone run = false ->
      buffer run = last lines [] /\
      reads run = S (List.length chunks) /\
      delivered run = flat_map lineDeltas complete ++ flush (last lines [])).
Proof.
  cbv zeta.
  destruct (@readLoop_scan chunks TextDecoder.initial [] [] 0%nat (fun H => H))
    as (Hd & Hr & Hc).
  cbv zeta in Hd, Hr, Hc.
  destruct (scan_whole (decoded (List.concat chunks))) as (Se & Sd & Sb).
  cbv zeta in Se, Sd, Sb. fold (decoded (List.concat chunks)) in Hd, Hr, Hc.
  unfold streamDeltas.
  destruct (existsb isDone (removelast (JS.split (decoded (List.concat chunks)))))
    eqn:Ex.
  - rewrite Hd. unfold closed. rewrite Se, Sd, app_nil_r.
    split; [reflexivity|]. split; [apply Hr, Se|].
    rewrite (Hr Se). discriminate.
  - destruct (Hc Se) as (C1 & C2 & C3).
    assert (Hdel : delivered (readLoop chunks TextDecoder.initial [] [] 0)
                   = flat_map lineDeltas
                       (untilDone (removelast (JS.split (decoded (List.concat chunks)))))
                     ++ flush (last (JS.split (decoded (List.concat chunks))) [])).
    { rewrite Hd. unfold closed. rewrite Se, Sd, (Sb Se). reflexivity. }
    split; [exact Hdel|]. split; [exact C1|]. intros _.
    split; [rewrite C2; apply Sb, Se|]. split; [rewrite C3; reflexivity|].
    rewrite Hdel, untilDone_none by exact Ex. reflexivity.
Qed.

Lemma callbacks_streamDeltas chunks :
  callbacks (streaming chunks) = streamDeltas (List.concat chunks).
Proof. apply run_by_lines. Qed.

(** C1.  Whatever the split of the bytes into reads, the [onChunk]
    calls are those of the whole byte sequence: the deltas of the
    complete lines before the first [data: [DONE]] line, one call per
    delta in stream order, then, without such a line, the delta of a
    trailing [data: ] frame that lacks its line feed.  For the frames
    of section 8 the calls are "Hel" then "lo".  A line delivers at
    most one delta, and none when it is blank or its JSON is
    malformed.  A read that completes no line delivers nothing and
    only extends the buffer.  Once the sentinel is met the run is over:
    further chunks change nothing and are not read.  Without a
    sentinel every chunk is read, and the text after the last line
    feed is what the flush receives. *)
Theorem handleStreamResponse_delivers_frames :
  (forall chunks,
      callbacks (streaming chunks) = streamDeltas (List.concat chunks))
  /\ (forall chunks1 chunks2,
        List.concat chunks1 = List.concat chunks2 ->
        callbacks (streaming chunks1) = callbacks (streaming chunks2))
  /\ (forall chunks,
        List.concat chunks = bytes exampleFrames ->
        callbacks (streaming chunks)
        = [JSON.JString (js "Hel"); JSON.JString (js "lo")])
  /\ (forall raw,
        (List.length (lineDeltas raw) <= 1)%nat
        /\ (JS.trim raw = [] -> lineDeltas raw = [])
        /\ (JSON.parse (JS.slice (JS.trim raw) 6) = None ->
            lineDeltas raw = []))
  /\ (forall value rest decoder buffer delivered reads,
        noLF (buffer ++ snd (TextDecoder.decode decoder value)) ->
        readLoop (value :: rest) decoder buffer delivered reads
        = readLoop rest (fst (TextDecoder.decode decoder value))
            (buffer ++ snd (TextDecoder.decode decoder value))
            delivered (S reads))
  /\ (forall chunks more run,
        handleStreamResponse (streaming chunks) = Returns run ->
        stoppedAtDone run = true ->
        handleStreamResponse (streaming (chunks ++ more)) = Returns run
        /\ (reads run <= List.length chunks)%nat)
  /\ (forall chunks run,
        handleStreamResponse (streaming chunks) = Returns run ->
        let lines := JS.split (decoded (List.concat chunks)) in
        stoppedAtDone run = existsb isDone (removelast lines)
        /\ (stoppedAtDone run = false ->
            buffer run = last lines [] /\
            reads run = S (List.length chunks) /\
            delivered run
            = flat_map lineDeltas (removelast lines) ++ flush (last lines [])))
  /\ (forall buffer data v,
        JS.trim buffer = js "data: " ++ data ->
        data <> js "[DONE]" ->
        deliver data = [v] ->
        flush buffer = [v]).
Proof.
  split; [exact callbacks_streamDeltas|].
  split.
  { intros chunks1 chunks2 H. rewrite !callbacks_streamDeltas, H. reflexivity. }
  split.
  { intros chunks H. rewrite callbacks_streamDeltas, H. vm_compute. reflexivity. }
  split.
  { intros raw. unfold lineDeltas. split; [|split].
    - destruct (JS.falsy (JS.trim raw)); [simpl; lia|].
      destruct (JS.startsWith (JS.trim raw) (js "data: "));
        [apply deliver_at_most_one|simpl; lia].
    - intros ->. reflexivity.
    - intros H. destruct (JS.falsy _); [reflexivity|].
      destruct (JS.startsWith _ _); [|reflexivity].
      unfold deliver. rewrite H. reflexivity. }
  split; [exact readLoop_holds_back|].
  split.
  { intros chunks more run Hrun Hstop. rewrite run_of_stream in *.
    injection Hrun as <-.
    destruct (readLoop_stops chunks more TextDecoder.initial [] [] 0%nat Hstop)
      as [E L].
    rewrite E. split; [reflexivity|exact L]. }
  split.
  { intros chunks run Hrun. rewrite run_of_stream in Hrun.
    injection Hrun as <-. cbv zeta.
    destruct (run_by_lines chunks) as (_ & H2 & H3). split; assumption. }
  intros buffer data v Htrim Hne Hdel. unfold flush.
  rewrite Htrim, startsWith_app. unfold JS.slice.
  change (skipn 6 (js "data: " ++ data)) with data.
  apply js_eqb_neq in Hne. rewrite Hne. simpl. exact Hdel.
Qed.

(** The frames of section 8, cut inside the first frame, inside the
    second frame and inside the sentinel. *)
Lemma handleStreamResponse_delivers_frames_witness :
  let chunks :=
    [bytes (spell "data: {'choices':[{'del");
     bytes (spell "ta':{'content':'Hel'}}]}||data: {'choices':[{'delta':{'content':'l");
     bytes (spell "o'}}]}||data: [DO");
     bytes (spell "NE]||")] in
  List.concat chunks = bytes exampleFrames
  /\ callbacks (streaming chunks)
     = [JSON.JString (js "Hel"); JSON.JString (js "lo")].
Proof.
  intros chunks.
  assert (H : List.concat chunks = bytes exampleFrames) by reflexivity.
  split; [exact H|].
  exact (proj1 (proj2 (proj2 handleStreamResponse_delivers_frames)) chunks H).
Defined.

(** C10.  No [onChunk] call ever receives the empty string: every
    delivered value is truthy.  A frame whose JSON parses but whose
    [choices[0].delta.content] and [delta.text] are each missing or
    the empty string (or falsy in any other way) causes no call,
    neither as a complete line nor in the final flush. *)
Theorem onChunk_never_receives_empty :
  (forall chunks v,
      In v (callbacks (streaming chunks)) ->
      JSON.truthy v = true /\ v <> JSON.JString [])
  /\ (forall data parsed,
        JSON.parse data = Some parsed ->
        JSON.truthyOrUndefined (deltaContent parsed) = false ->
        JSON.truthyOrUndefined (deltaText parsed) = false ->
        deliver data = [])
  /\ (forall data parsed,
        JSON.parse data = Some parsed ->
        absentOrEmpty (deltaContent parsed) ->
        absentOrEmpty (deltaText parsed) ->
        deliver data = []
        /\ (forall raw, JS.slice (JS.trim raw) 6 = data ->
              lineDeltas raw = [] /\ flush raw = [])).
Proof.
  assert (Hfalsy : forall data parsed,
            JSON.parse data = Some parsed ->
            JSON.truthyOrUndefined (deltaContent parsed) = false ->
            JSON.truthyOrUndefined (deltaText parsed) = false ->
            deliver data = []).
  { intros data parsed Hp Hc Ht. unfold deliver. rewrite Hp.
    unfold extractStreamContent. rewrite Hc, Ht.
    destruct parsed; reflexivity. }
  split; [|split].
  - intros chunks v Hin. rewrite callbacks_streamDeltas in Hin.
    assert (Ht : JSON.truthy v = true).
    { unfold streamDeltas in Hin. apply in_app_or in Hin.
      destruct Hin as [Hin|Hin].
      - apply in_flat_map in Hin. destruct Hin as (raw & _ & Hin).
        eapply lineDeltas_truthy; eauto.
      - destruct (existsb isDone _); [destruct Hin|].
        eapply flush_truthy; eauto. }
    split; [exact Ht|]. intros ->. discriminate.
  - exact Hfalsy.
  - intros data parsed Hp Hc Ht.
    assert (Hd : deliver data = []).
    { apply (Hfalsy data parsed Hp).
      - destruct Hc as [-> | ->]; reflexivity.
      - destruct Ht as [-> | ->]; reflexivity. }
    split; [exact Hd|]. intros raw <-. unfold lineDeltas, flush.
    rewrite Hd. split.
    + destruct (JS.falsy _); [reflexivity|].
      destruct (JS.startsWith _ _); reflexivity.
    + destruct (JS.startsWith _ _); [|reflexivity].
      destruct (negb _); reflexivity.
Qed.

(** A frame with an empty content between two frames with text. *)
Lemma onChunk_never_receives_empty_witness :
  let data := js (spell "{'choices':[{'delta':{'content':''}}]}") in
  let parsed :=
    JSON.JObject
      [(js "choices",
        JSON.JArray
          [JSON.JObject
             [(js "delta", JSON.JObject [(js "content", JSON.JString [])])]])] in
  JSON.parse data = Some parsed
  /\ absentOrEmpty (deltaContent parsed)
  /\ absentOrEmpty (deltaText parsed)
  /\ deliver data = []
  /\ callbacks
       (streaming
          [bytes (spell "data: {'choices':[{'delta':{'content':'a'}}]}|");
           bytes (spell "data: {'choices':[{'delta':{'content':''}}]}|");
           bytes (spell "data: {'delta':{'text':'b'}}")])
     = [JSON.JString (js "a"); JSON.JString (js "b")].
Proof.
  intros data parsed.
  assert (Hp : JSON.parse data = Some parsed) by (vm_compute; reflexivity).
  assert (Hc : absentOrEmpty (deltaContent parsed)) by (right; reflexivity).
  assert (Ht : absentOrEmpty (deltaText parsed)) by (left; reflexivity).
  split; [exact Hp|]. split; [exact Hc|]. split; [exact Ht|].
  split.
  - exact (proj1 (proj2 (proj2 onChunk_never_receives_empty) data parsed Hp Hc Ht)).
  - vm_compute. reflexivity.
Defined.

End StreamFacts.

(** ** Further facts on arrays *)

Section MoreArrayFacts.
Variable A : Type.
Implicit Types (p q : A -> bool) (l : list A) (f : A -> A).

Lemma find_middle p (before after : list A) x :
  (forall y, In y before -> p y = false) -> p x = true ->
  find p (before ++ x :: after) = Some x.
Proof.
  intros Hb Hx. induction before as [|y r IH]; simpl.
  - rewrite Hx. reflexivity.
  - rewrite (Hb y) by (left; reflexivity). apply IH.
    intros z Hz. apply Hb. right. exact Hz.
Qed.

Lemma find_skip q (before after : list A) x x' :
  q x = false -> q x' = false ->
  find q (before ++ x :: after) = find q (before ++ x' :: after).
Proof.
  intros Hx Hx'. induction before as [|y r IH]; simpl.
  - rewrite Hx, Hx'. reflexivity.
  - destruct (q y); [reflexivity|exact IH].
Qed.

Lemma findIndex_updateAt p f i l :
  (forall x, p (f x) = p x) ->
  Arr.findIndex p (Arr.updateAt i f l) = Arr.findIndex p l.
Proof.
  intros Hf. revert i. induction l as [|x r IH]; intros [|i]; simpl;
    try reflexivity.
  - rewrite Hf. reflexivity.
  - rewrite IH. reflexivity.
Qed.

Lemma updateAt_length f i l :
  List.length (Arr.updateAt i f l) = List.length l.
Proof.
  revert i. induction l as [|x r IH]; intros [|i]; simpl; auto.
Qed.

Lemma updateAt_map (B : Type) (g : A -> B) f i l :
  (forall x, g (f x) = g x) ->
  map g (Arr.updateAt i f l) = map g l.
Proof.
  intros Hf. revert i. induction l as [|x r IH]; intros [|i]; simpl;
    try reflexivity.
  - rewrite Hf. reflexivity.
  - rewrite IH. reflexivity.
Qed.

Lemma updateAt_twice f g i l :
  Arr.updateAt i g (Arr.updateAt i f l) = Arr.updateAt i (fun x => g (f x)) l.
Proof.
  revert i. induction l as [|x r IH]; intros [|i]; simpl; try reflexivity.
  rewrite IH. reflexivity.
Qed.

Lemma updateAt_id f i l :
  (forall x, f x = x) -> Arr.updateAt i f l = l.
Proof.
  intros Hf. revert i. induction l as [|x r IH]; intros [|i]; simpl;
    try reflexivity.
  - rewrite Hf. reflexivity.
  - rewrite IH. reflexivity.
Qed.

Lemma removeAt_incl i l x : In x (Arr.removeAt i l) -> In x l.
Proof.
  revert i. induction l as [|y r IH]; intros [|i]; simpl; auto.
  intros [->|H]; eauto.
Qed.

Lemma find_none_iff p l :
  find p l = None <-> (forall x, In x l -> p x = false).
Proof.
  split.
  - intros H x Hx. eapply find_none; eauto.
  - intros H. destruct (find p l) as [x|] eqn:E; [|reflexivity].
    apply find_some in E. destruct E as [Hx Hp].
    rewrite (H x Hx) in Hp. discriminate.
Qed.
End MoreArrayFacts.

(** ** Sessions: pointer, messages, persistence *)

Section ChatStateOpsFacts.
Import ChatState ChatStateOps.

(** The shape shared by the calls that update one session in place. *)
Lemma find_updated (f : ChatSession.t -> ChatSession.t) l sessionId index :
  (forall s, ChatSession.id (f s) = ChatSession.id s) ->
  Arr.findIndex (hasId sessionId) l = Some index ->
  exists before s after,
    l = before ++ s :: after /\
    Arr.updateAt index f l = before ++ f s :: after /\
    find (hasId sessionId) l = Some s /\
    find (hasId sessionId) (Arr.updateAt index f l) = Some (f s) /\
    (forall other, other <> sessionId ->
       find (hasId other) (Arr.updateAt index f l) = find (hasId other) l).
Proof.
  intros Hf Hi.
  destruct (findIndex_Some _ _ Hi) as (before & s & after & Hl & Hlen & Hs & Hfind & Hb).
  exists before, s, after. subst l. rewrite <- Hlen, updateAt_middle.
  split; [reflexivity|]. split; [reflexivity|]. split; [exact Hfind|].
  split.
  - apply find_middle; [exact Hb|]. unfold hasId in *. rewrite Hf. exact Hs.
  - intros other Hne. apply find_skip; unfold hasId in *.
    + rewrite Hf. apply js_eqb_neq. apply js_eqb_eq in Hs. congruence.
    + apply js_eqb_neq. apply js_eqb_eq in Hs. congruence.
Qed.

Lemma pointerValid_ids m :
  pointerValid m <->
  match currentSessionId m with
  | None => True
  | Some c => c = [] \/ In c (map ChatSession.id (sessions m))
  end.
Proof.
  unfold pointerValid. destruct (currentSessionId m) as [c|]; [|tauto].
  rewrite in_map_iff. split; (intros [H|(s & H1 & H2)]; [left; exact H|]);
    right; exists s; tauto.
Qed.

Lemma pointerValid_updated m index f :
  (forall s, ChatSession.id (f s) = ChatSession.id s) ->
  pointerValid m ->
  pointerValid (withSessions (Arr.updateAt index f (sessions m)) m).
Proof.
  intros Hf H. apply pointerValid_ids. apply pointerValid_ids in H.
  simpl. rewrite updateAt_map by exact Hf. exact H.
Qed.

Lemma pointerValid_loadState loaded current :
  pointerValid (loadState loaded current).
Proof.
  unfold pointerValid, loadState. simpl.
  destruct current as [c|]; [|exact I].
  destruct (JS.falsy c) eqn:Ef; simpl.
  - left. destruct c; [reflexivity|discriminate].
  - destruct (find (hasId c) loaded) as [s|] eqn:E; simpl.
    + right. apply find_some in E. destruct E as [Hin Hid].
      exists s. split; [exact Hin|]. apply js_eqb_eq. exact Hid.
    + destruct loaded as [|first rest]; [exact I|].
      right. exists first. split; [left; reflexivity|reflexivity].
Qed.

Lemma pointerValid_createSession m modelId idTime rnd createdAt updatedAt :
  pointerValid (snd (createSession m modelId idTime rnd createdAt updatedAt)).
Proof.
  unfold createSession, pruneSessions. cbn [snd sessions currentSessionId].
  set (session := {| ChatSession.id := Env.generateId idTime rnd;
                     ChatSession.messages := [];
                     ChatSession.contextItems := [];
                     ChatSession.currentModelId := modelId;
                     ChatSession.createdAt := createdAt;
                     ChatSession.updatedAt := updatedAt |}).
  destruct (Constants.MAX_SESSIONS <? _)%nat eqn:Hover.
  - unfold pointerValid. cbn [sessions currentSessionId].
    set (kept := firstn Constants.MAX_SESSIONS
                   (Arr.sort byUpdatedAtDesc (sessions m ++ [session]))).
    change (JS.falsy (ChatSession.id session))
      with (JS.falsy (Env.generateId idTime rnd)).
    rewrite generateId_truthy. cbn [negb andb].
    destruct (find (hasId (ChatSession.id session)) kept) as [s|] eqn:E;
      cbn [negb].
    + right. apply find_some in E. destruct E as [Hin Hid].
      exists s. split; [exact Hin|]. apply js_eqb_eq. exact Hid.
    + destruct kept as [|first rest]; [exact I|].
      right. exists first. split; [left; reflexivity|reflexivity].
  - unfold pointerValid. cbn [sessions currentSessionId]. right.
    exists session. split; [|reflexivity].
    apply in_or_app. right. left. reflexivity.
Qed.

Lemma deleteSession_found m sessionId index :
  Arr.findIndex (hasId sessionId) (sessions m) = Some index ->
  exists before s after,
    sessions m = before ++ s :: after /\
    ChatSession.id s = sessionId /\
    (forall y, In y before -> ChatSession.id y <> sessionId) /\
    deleteSession m sessionId
    = (true,
       {| sessions := before ++ after;
          currentSessionId :=
            match currentSessionId m with
            | Some c =>
                if JS.eqb c sessionId
                then match rev (before ++ after) with
                     | lastOne :: _ => Some (ChatSession.id lastOne)
                     | [] => None
                     end
                else Some c
            | None => None
            end |}).
Proof.
  intros Hi.
  destruct (findIndex_Some _ _ Hi) as (before & s & after & Hl & Hlen & Hs & _ & Hb).
  exists before, s, after. split; [exact Hl|].
  split; [apply js_eqb_eq; exact Hs|].
  split; [intros y Hy; apply js_eqb_neq, Hb, Hy|].
  unfold deleteSession. rewrite Hi, Hl, <- Hlen, removeAt_middle. reflexivity.
Qed.

Lemma pointerValid_deleteSession m sessionId :
  pointerValid m -> pointerValid (snd (deleteSession m sessionId)).
Proof.
  intros H. destruct (Arr.findIndex (hasId sessionId) (sessions m)) as [i|] eqn:Hi.
  - destruct (deleteSession_found m sessionId Hi)
      as (before & s & after & Hl & Hid & _ & E).
    rewrite E. unfold pointerValid in *. cbn [snd sessions currentSessionId].
    destruct (currentSessionId m) as [c|]; [|exact I].
    destruct (JS.eqb c sessionId) eqn:Ec.
    + destruct (rev (before ++ after)) as [|lastOne r] eqn:Er; [exact I|].
      right. exists lastOne. split; [|reflexivity].
      apply in_rev. rewrite Er. left. reflexivity.
    + destruct H as [H|(x & Hx & Hxid)]; [left; exact H|]. right.
      exists x. split; [|exact Hxid].
      rewrite Hl in Hx. apply in_app_or in Hx. apply in_or_app.
      destruct Hx as [Hx|[Hx|Hx]]; [left; exact Hx| |right; exact Hx].
      apply js_eqb_neq in Ec. subst x. congruence.
  - unfold deleteSession. rewrite Hi. exact H.
Qed.

Lemma perform_keeps_pointer m c :
  pointerValid m -> pointerValid (perform m c).
Proof.
  intros H. destruct c; cbn [perform].
  - apply pointerValid_createSession.
  - unfold switchSession.
    destruct (find (hasId sessionId) (sessions m)) as [s|] eqn:E; [|exact H].
    unfold pointerValid. cbn [snd sessions currentSessionId]. right.
    apply find_some in E. destruct E as [Hin Hid].
    exists s. split; [exact Hin|]. apply js_eqb_eq. exact Hid.
  - unfold clearSession.
    destruct (Arr.findIndex _ (sessions m)); [|exact H].
    apply pointerValid_updated; [reflexivity|exact H].
  - apply pointerValid_deleteSession, H.
  - unfold addMessage.
    destruct (Arr.findIndex _ (sessions m)); [|exact H].
    apply pointerValid_updated; [reflexivity|exact H].
  - unfold addContextItem.
    destruct (Arr.findIndex _ (sessions m)); [|exact H].
    apply pointerValid_updated; [reflexivity|exact H].
  - unfold removeContextItem.
    destruct (Arr.findIndex _ (sessions m)) as [i|]; [|exact H].
    destruct (nth_error (sessions m) i) as [s|]; [|exact H].
    destruct (Arr.findIndex _ (ChatSession.contextItems s)); [|exact H].
    apply pointerValid_updated; [reflexivity|exact H].
  - unfold setSessionModel.
    destruct (Arr.findIndex _ (sessions m)); [|exact H].
    apply pointerValid_updated; [reflexivity|exact H].
  - apply pointerValid_loadState.
Qed.

(** X1.  The current-session pointer never dangles.  Starting from a
    manager whose pointer is null, empty or the id of a stored session
    (a new manager in particular), after any sequence of
    createSession, switchSession, clearSession, deleteSession,
    addMessage, addContextItem, removeContextItem, setSessionModel and
    loadState calls the pointer is again null, empty or the id of a
    stored session; a non-empty pointer therefore always resolves
    through getCurrentSession. *)
Theorem current_pointer_never_dangles :
  forall m calls,
    pointerValid m ->
    pointerValid (performAll m calls)
    /\ (forall c, currentSessionId (performAll m calls) = Some c ->
          c <> [] ->
          exists s, getCurrentSession (performAll m calls) = Some s
                    /\ ChatSession.id s = c).
Proof.
  intros m calls H.
  assert (Hv : pointerValid (performAll m calls)).
  { revert m H. induction calls as [|c r IH]; intros m H; simpl; [exact H|].
    apply IH, perform_keeps_pointer, H. }
  split; [exact Hv|]. intros c Hc Hne.
  unfold pointerValid in Hv. unfold getCurrentSession. rewrite Hc in *.
  destruct Hv as [Hv|(s & Hin & Hid)]; [contradiction|].
  destruct c as [|u c']; [contradiction|]. cbn [JS.falsy].
  destruct (find (hasId (u :: c')) (sessions (performAll m calls))) as [x|] eqn:E.
  - exists x. split; [reflexivity|]. apply find_some in E.
    apply js_eqb_eq. exact (proj2 E).
  - eapply find_none in E; [|exact Hin]. unfold hasId in E.
    rewrite Hid, js_eqb_refl in E. discriminate.
Qed.

Lemma current_pointer_never_dangles_witness :
  let message := {| role := user; content := js "hi"; modelId := None |} in
  let calls :=
    [CreateSession (js "gpt") 1 (js "a") 1 1;
     CreateSession (js "gpt") 2 (js "b") 2 2;
     AddMessage (Env.generateId 1 (js "a")) message 3 (js "c") 3 3;
     DeleteSession (Env.generateId 2 (js "b"))] in
  pointerValid empty
  /\ currentSessionId (performAll empty calls) = Some (Env.generateId 1 (js "a"))
  /\ exists s, getCurrentSession (performAll empty calls) = Some s
               /\ ChatSession.id s = Env.generateId 1 (js "a").
Proof.
  intros message calls.
  assert (H0 : pointerValid empty) by exact I.
  assert (Hc : currentSessionId (performAll empty calls)
               = Some (Env.generateId 1 (js "a"))) by (vm_compute; reflexivity).
  split; [exact H0|]. split; [exact Hc|].
  apply (proj2 (current_pointer_never_dangles empty calls H0) _ Hc).
  vm_compute. discriminate.
Defined.

(** X2.  getMessages returns the stored messages of the session,
    all of them and no others, ordered by non-decreasing timestamp; for
    an unknown session it returns the empty array. *)
Theorem getMessages_chronological :
  forall m sessionId,
    (getSession m sessionId = None -> getMessages m sessionId = [])
    /\ (forall session,
          getSession m sessionId = Some session ->
          Permutation (ChatSession.messages session) (getMessages m sessionId)
          /\ StronglySorted chronological (getMessages m sessionId)
          /\ List.length (getMessages m sessionId)
             = List.length (ChatSession.messages session)).
Proof.
  intros m sessionId. unfold getSession, getMessages. split.
  - intros ->. reflexivity.
  - intros session ->. split; [apply sort_perm|]. split.
    + eapply StronglySorted_weaken.
      2: { apply sort_sorted with (cmp := byTimestamp).
           - unfold byTimestamp. intros; lia.
           - unfold byTimestamp. intros; lia. }
      unfold byTimestamp, chronological. intros a b H. lia.
    + apply sort_length.
Qed.

Lemma getMessages_chronological_witness :
  let msg t := {| ChatMessage.id := Env.generateId t (js "m");
                  ChatMessage.role := user;
                  ChatMessage.content := js "x";
                  ChatMessage.timestamp := t;
                  ChatMessage.modelId := None |} in
  let session := {| ChatSession.id := js "s1";
                    ChatSession.messages := [msg 30%Z; msg 10%Z; msg 20%Z];
                    ChatSession.contextItems := [];
                    ChatSession.currentModelId := js "gpt";
                    ChatSession.createdAt := 0;
                    ChatSession.updatedAt := 30 |} in
  let m := {| sessions := [session]; currentSessionId := None |} in
  getSession m (js "s1") = Some session
  /\ StronglySorted chronological (getMessages m (js "s1"))
  /\ getMessages m (js "zz") = [].
Proof.
  intros msg session m.
  destruct (getMessages_chronological m (js "s1")) as [_ Hsome].
  destruct (getMessages_chronological m (js "zz")) as [Hnone _].
  split; [reflexivity|].
  split; [exact (proj1 (proj2 (Hsome session eq_refl)))|].
  apply Hnone. reflexivity.
Defined.

(** X3.  addMessage on an unknown session returns null and changes
    nothing.  On a known session it returns the new message, carrying
    the given role, content and model id; afterwards getMessages of
    that session holds the new message in addition to the earlier
    ones, the messages of every other session id are as before, and
    the current pointer and the number of sessions are unchanged. *)
Theorem addMessage_appends :
  forall m sessionId message idTime rnd timestamp updatedAt,
    let result :=
      addMessage m sessionId message idTime rnd timestamp updatedAt in
    (getSession m sessionId = None -> result = (None, m))
    /\ (forall session,
          getSession m sessionId = Some session ->
          exists newMessage,
            fst result = Some newMessage
            /\ ChatMessage.role newMessage = role message
            /\ ChatMessage.content newMessage = content message
            /\ ChatMessage.modelId newMessage = modelId message
            /\ ChatMessage.timestamp newMessage = timestamp
            /\ Permutation (newMessage :: getMessages m sessionId)
                 (getMessages (snd result) sessionId)
            /\ (forall other, other <> sessionId ->
                  getMessages (snd result) other = getMessages m other)
            /\ currentSessionId (snd result) = currentSessionId m
            /\ List.length (sessions (snd result)) = List.length (sessions m)).
Proof.
  intros m sessionId message idTime rnd timestamp updatedAt result.
  unfold getSession. split.
  - intros Hnone. apply findIndex_None in Hnone.
    unfold result, addMessage. rewrite Hnone. reflexivity.
  - intros session Hfind.
    destruct (find_Some_findIndex _ _ Hfind) as [i Hi].
    unfold result, addMessage. rewrite Hi. cbn [fst snd].
    eexists. split; [reflexivity|]. cbn [ChatMessage.role ChatMessage.content
      ChatMessage.modelId ChatMessage.timestamp].
    repeat (split; [reflexivity|]).
    match goal with
    | |- context [Arr.updateAt i ?f (sessions m)] => set (push := f)
    end.
    destruct (@find_updated push (sessions m) sessionId i (fun _ => eq_refl) Hi)
      as (before & s & after & Hl & Hu & Hf & Hf' & Hother).
    assert (s = session) by congruence. subst s.
    split; [|split; [|split]].
    + unfold getMessages. cbn [sessions withSessions]. rewrite Hf', Hfind.
      cbn [ChatSession.messages push].
      rewrite <- sort_perm. rewrite <- sort_perm.
      rewrite Permutation_app_comm. reflexivity.
    + intros other Hne. unfold getMessages. cbn [sessions withSessions].
      rewrite (Hother other Hne). reflexivity.
    + reflexivity.
    + cbn [sessions withSessions]. apply updateAt_length.
Qed.

Lemma addMessage_appends_witness :
  let session := {| ChatSession.id := js "s1";
                    ChatSession.messages := [];
                    ChatSession.contextItems := [];
                    ChatSession.currentModelId := js "gpt";
                    ChatSession.createdAt := 0;
                    ChatSession.updatedAt := 0 |} in
  let m := {| sessions := [session]; currentSessionId := Some (js "s1") |} in
  let message := {| role := user; content := js "hello"; modelId := None |} in
  getSession m (js "s1") = Some session
  /\ addMessage m (js "nope") message 5 (js "r") 5 5 = (None, m)
  /\ exists newMessage,
       fst (addMessage m (js "s1") message 5 (js "r") 5 5) = Some newMessage
       /\ ChatMessage.content newMessage = js "hello".
Proof.
  intros session m message.
  destruct (addMessage_appends m (js "nope") message 5 (js "r") 5 5) as [Hnone _].
  destruct (addMessage_appends m (js "s1") message 5 (js "r") 5 5) as [_ Hsome].
  split; [reflexivity|]. split; [apply Hnone; reflexivity|].
  destruct (Hsome session eq_refl) as (x & H1 & _ & H2 & _).
  exists x. split; assumption.
Defined.

(** X4.  Exporting the state and loading it back gives the same
    manager, provided its pointer does not dangle.  loadState itself
    never leaves a dangling pointer: a non-empty pointer that matches
    no loaded session is replaced by the id of the first loaded
    session, or by null when nothing was loaded. *)
Theorem loadState_exportState_round_trip :
  forall m,
    pointerValid m ->
    loadState (fst (exportState m)) (snd (exportState m)) = m
    /\ (forall loaded c,
          c <> [] ->
          (forall s, In s loaded -> ChatSession.id s <> c) ->
          currentSessionId (loadState loaded (Some c))
          = match loaded with
            | first :: _ => Some (ChatSession.id first)
            | [] => None
            end).
Proof.
  intros [l cur] H. split.
  - unfold exportState, loadState. cbn [fst snd sessions currentSessionId].
    f_equal. unfold pointerValid in H. cbn [sessions currentSessionId] in H.
    destruct cur as [c|]; [|reflexivity].
    destruct H as [->|(s & Hin & Hid)]; [reflexivity|].
    destruct (find (hasId c) l) as [x|] eqn:E.
    + rewrite andb_false_r. reflexivity.
    + eapply find_none in E; [|exact Hin]. unfold hasId in E.
      rewrite Hid, js_eqb_refl in E. discriminate.
  - intros loaded c Hne Hnone. apply find_hasId_None in Hnone.
    unfold loadState. cbn [sessions currentSessionId]. rewrite Hnone.
    destruct c; [contradiction|]. reflexivity.
Qed.

Lemma loadState_exportState_round_trip_witness :
  let session := {| ChatSession.id := js "s1";
                    ChatSession.messages := [];
                    ChatSession.contextItems := [];
                    ChatSession.currentModelId := js "gpt";
                    ChatSession.createdAt := 0;
                    ChatSession.updatedAt := 0 |} in
  let m := {| sessions := [session]; currentSessionId := Some (js "s1") |} in
  pointerValid m
  /\ loadState (fst (exportState m)) (snd (exportState m)) = m
  /\ currentSessionId (loadState [session] (Some (js "gone"))) = Some (js "s1").
Proof.
  intros session m.
  assert (H : pointerValid m).
  { right. exists session. split; [left; reflexivity|reflexivity]. }
  destruct (loadState_exportState_round_trip m H) as [Hrt Hfall].
  split; [exact H|]. split; [exact Hrt|].
  apply (Hfall [session] (js "gone")); [discriminate|].
  intros s [<-|[]]. discriminate.
Defined.

(** X5.  switchSession on an unknown id returns false and changes
    nothing; on the id of a stored session it returns true and, when
    that id is not the empty string, getCurrentSession then returns the
    first stored session with that id. *)
Theorem switchSession_selects :
  forall m sessionId,
    (getSession m sessionId = None -> switchSession m sessionId = (false, m))
    /\ (forall session,
          getSession m sessionId = Some session ->
          fst (switchSession m sessionId) = true
          /\ sessions (snd (switchSession m sessionId)) = sessions m
          /\ (sessionId <> [] ->
              getCurrentSession (snd (switchSession m sessionId))
              = Some session)).
Proof.
  intros m sessionId. unfold getSession, switchSession. split.
  - intros ->. reflexivity.
  - intros session E. rewrite E. cbn [fst snd sessions].
    split; [reflexivity|]. split; [reflexivity|].
    intros Hne. unfold getCurrentSession. cbn [sessions currentSessionId].
    destruct sessionId; [contradiction|]. cbn [JS.falsy]. exact E.
Qed.

Lemma switchSession_selects_witness :
  let mk i := {| ChatSession.id := i;
                 ChatSession.messages := [];
                 ChatSession.contextItems := [];
                 ChatSession.currentModelId := js "gpt";
                 ChatSession.createdAt := 0;
                 ChatSession.updatedAt := 0 |} in
  let m := {| sessions := [mk (js "s1"); mk (js "s2")];
              currentSessionId := Some (js "s1") |} in
  getSession m (js "s2") = Some (mk (js "s2"))
  /\ js "s2" <> []
  /\ getCurrentSession (snd (switchSession m (js "s2"))) = Some (mk (js "s2"))
  /\ switchSession m (js "s9") = (false, m).
Proof.
  intros mk m.
  destruct (switchSession_selects m (js "s2")) as [_ Hsome].
  destruct (switchSession_selects m (js "s9")) as [Hnone _].
  assert (Hne : js "s2" <> []) by discriminate.
  split; [reflexivity|]. split; [exact Hne|].
  split; [exact (proj2 (proj2 (Hsome _ eq_refl)) Hne)|].
  apply Hnone. reflexivity.
Defined.

(** X6.  deleteSession on an unknown id returns false and changes
    nothing.  Otherwise it removes the first session with that id and
    no other; when the pointer held that id it moves to the last
    remaining session of the array (null when none remains), and
    otherwise it stays. *)
Theorem deleteSession_falls_back_to_last :
  forall m sessionId,
    (getSession m sessionId = None -> deleteSession m sessionId = (false, m))
    /\ (forall session,
          getSession m sessionId = Some session ->
          exists before after,
            sessions m = before ++ session :: after
            /\ fst (deleteSession m sessionId) = true
            /\ sessions (snd (deleteSession m sessionId)) = before ++ after
            /\ (currentSessionId m = Some sessionId ->
                currentSessionId (snd (deleteSession m sessionId))
                = match rev (before ++ after) with
                  | lastOne :: _ => Some (ChatSession.id lastOne)
                  | [] => None
                  end)
            /\ (currentSessionId m <> Some sessionId ->
                currentSessionId (snd (deleteSession m sessionId))
                = currentSessionId m)).
Proof.
  intros m sessionId. unfold getSession. split.
  - intros Hnone. apply findIndex_None in Hnone.
    unfold deleteSession. rewrite Hnone. reflexivity.
  - intros session Hfind.
    destruct (find_Some_findIndex _ _ Hfind) as [i Hi].
    destruct (deleteSession_found m sessionId Hi)
      as (before & s & after & Hl & Hid & Hb & E).
    assert (s = session).
    { rewrite Hl in Hfind. rewrite find_middle in Hfind.
      - congruence.
      - intros y Hy. apply js_eqb_neq, Hb, Hy.
      - apply js_eqb_eq, Hid. }
    subst s. exists before, after. rewrite E. cbn [fst snd sessions currentSessionId].
    split; [exact Hl|]. split; [reflexivity|]. split; [reflexivity|]. split.
    + intros ->. rewrite js_eqb_refl. reflexivity.
    + intros Hne. destruct (currentSessionId m) as [c|]; [|reflexivity].
      destruct (JS.eqb c sessionId) eqn:Ec; [|reflexivity].
      apply js_eqb_eq in Ec. congruence.
Qed.

Lemma deleteSession_falls_back_to_last_witness :
  let mk i := {| ChatSession.id := i;
                 ChatSession.messages := [];
                 ChatSession.contextItems := [];
                 ChatSession.currentModelId := js "gpt";
                 ChatSession.createdAt := 0;
                 ChatSession.updatedAt := 0 |} in
  let m := {| sessions := [mk (js "s1"); mk (js "s2"); mk (js "s3")];
              currentSessionId := Some (js "s2") |} in
  getSession m (js "s2") = Some (mk (js "s2"))
  /\ fst (deleteSession m (js "s2")) = true
  /\ deleteSession m (js "s9") = (false, m).
Proof.
  intros mk m.
  destruct (deleteSession_falls_back_to_last m (js "s2")) as [_ Hsome].
  destruct (deleteSession_falls_back_to_last m (js "s9")) as [Hnone _].
  split; [reflexivity|].
  destruct (Hsome _ eq_refl) as (before & after & _ & Ht & _).
  split; [exact Ht|]. apply Hnone. reflexivity.
Defined.

End ChatStateOpsFacts.

(** ** Validation *)

Section ValidationFacts.
Import Validation SettingsOps.

Lemma trimStart_head s c r :
  JS.trimStart s = c :: r -> JS.isWhiteSpace c = false.
Proof.
  induction s as [|x s IH]; simpl; [discriminate|].
  destruct (JS.isWhiteSpace x) eqn:E; [exact IH|].
  intros H. injection H as <- <-. exact E.
Qed.

Lemma trimStart_nil s :
  JS.trimStart s = [] <-> forallb JS.isWhiteSpace s = true.
Proof.
  induction s as [|x s IH]; simpl; [tauto|].
  destruct (JS.isWhiteSpace x); simpl; [exact IH|].
  split; discriminate.
Qed.

Lemma forallb_rev (A : Type) (p : A -> bool) l :
  forallb p (rev l) = forallb p l.
Proof.
  induction l as [|x r IH]; simpl; [reflexivity|].
  rewrite forallb_app, IH. simpl. rewrite andb_true_r. apply andb_comm.
Qed.

(** [s.trim()] is empty exactly for a string of white space. *)
Lemma trim_nil s :
  JS.trim s = [] <-> forallb JS.isWhiteSpace s = true.
Proof.
  unfold JS.trim, JS.trimEnd. split.
  - intros H. destruct (JS.trimStart s) as [|c r] eqn:E.
    + apply trimStart_nil, E.
    + pose proof (trimStart_head _ E) as Hc.
      assert (H' : JS.trimStart (rev (c :: r)) = []).
      { destruct (JS.trimStart (rev (c :: r))) as [|y t]; [reflexivity|].
        apply (f_equal (@List.length _)) in H. rewrite length_rev in H.
        discriminate. }
      apply trimStart_nil in H'. rewrite forallb_rev in H'. simpl in H'.
      rewrite Hc in H'. discriminate.
  - intros H. apply trimStart_nil in H. rewrite H. reflexivity.
Qed.

Lemma missing_filled field : missing field = false <-> filled field.
Proof.
  unfold missing, filled. destruct field as [v|].
  - split.
    + intros H. apply orb_false_iff in H. destruct H as [_ H].
      apply js_eqb_neq in H.
      destruct (forallb JS.isWhiteSpace v) eqn:E.
      * apply trim_nil in E. contradiction.
      * assert (Hex : existsb (fun c => negb (JS.isWhiteSpace c)) v = true).
        { clear H. induction v as [|x v IH]; simpl in *; [discriminate|].
          destruct (JS.isWhiteSpace x); simpl in *; auto. }
        apply existsb_exists in Hex. destruct Hex as (c & Hin & Hc).
        exists v, c. apply negb_true_iff in Hc. auto.
    + intros (v' & c & Hv & Hin & Hc). injection Hv as <-.
      apply orb_false_iff. split.
      * destruct v; [destruct Hin|reflexivity].
      * apply js_eqb_neq. intros Ht. apply trim_nil in Ht.
        rewrite forallb_forall in Ht. rewrite (Ht c Hin) in Hc. discriminate.
  - split; [discriminate|]. intros (v & c & H & _). discriminate.
Qed.

Lemma valid_three a b c ma mb mc :
  valid (result (check a ma ++ check b mb ++ check c mc)) = true
  <-> missing a = false /\ missing b = false /\ missing c = false.
Proof.
  unfold result, check. simpl.
  destruct (missing a), (missing b), (missing c); simpl;
    intuition discriminate.
Qed.

(** X7.  validateProvider accepts exactly the configurations whose
    name, base URL and API key are each given with a character other
    than white space; otherwise it reports one message per offending
    field, in that order, so a rejected configuration always comes with
    a non-empty error list.  validateModel does the same for name,
    provider id and model identifier. *)
Theorem validation_requires_every_field :
  forall a b c,
    (valid (validateProvider a b c) = true
     <-> filled a /\ filled b /\ filled c)
    /\ (valid (validateModel a b c) = true
        <-> filled a /\ filled b /\ filled c)
    /\ (valid (validateProvider a b c) = true
        <-> errors (validateProvider a b c) = [])
    /\ errors (validateProvider a b c)
       = (if missing a then [js "Provider name is required"] else [])
         ++ (if missing b then [js "Base URL is required"] else [])
         ++ (if missing c then [js "API key is required"] else [])
    /\ errors (validateModel a b c)
       = (if missing a then [js "Model name is required"] else [])
         ++ (if missing b then [js "Provider ID is required"] else [])
         ++ (if missing c then [js "Model identifier is required"] else []).
Proof.
  intros a b c. unfold validateProvider, validateModel.
  rewrite !valid_three, !missing_filled.
  split; [tauto|]. split; [tauto|]. split; [|split; reflexivity].
  rewrite <- !missing_filled. unfold result, check. simpl.
  destruct (missing a), (missing b), (missing c); simpl;
    intuition discriminate.
Qed.

Lemma validation_requires_every_field_witness :
  valid (validateProvider (Some (js "Local")) (Some (js "http://x"))
           (Some (js "k"))) = true.
Proof.
  apply (proj1 (validation_requires_every_field _ _ _)).
  split; [|split].
  - exists (js "Local"), 76%N. repeat split. left. reflexivity.
  - exists (js "http://x"), 104%N. repeat split. left. reflexivity.
  - exists (js "k"), 107%N. repeat split. left. reflexivity.
Defined.

End ValidationFacts.

(** ** The provider and model registry *)

Section RegistryFacts.
Import PluginSettings Settings SettingsOps.

Lemma updateAt_In (A : Type) (f : A -> A) i l x :
  In x (Arr.updateAt i f l) -> In x l \/ exists y, In y l /\ x = f y.
Proof.
  revert i; induction l as [|y r IH]; intros [|i]; simpl; try tauto.
  - intros [<-|H]; [right; exists y; auto|auto].
  - intros [<-|H]; [auto|].
    destruct (IH _ H) as [H'|(z & Hz & ->)]; [auto|].
    right; exists z; auto.
Qed.

Lemma findIndex_nth (A : Type) (p : A -> bool) l i :
  Arr.findIndex p l = Some i ->
  exists before x after,
    l = before ++ x :: after /\ List.length before = i /\
    nth_error l i = Some x /\ p x = true /\
    (forall y, In y before -> p y = false).
Proof.
  intros H. destruct (findIndex_Some _ _ H)
    as (before & x & after & -> & <- & Hx & _ & Hb).
  exists before, x, after. repeat split; auto.
  rewrite nth_error_app2 by lia. rewrite Nat.sub_diag. reflexivity.
Qed.

Lemma referencesHold_ids s :
  referencesHold s <->
  forall m, In m (models s) ->
    In (AIModel.providerId m) (map AIProvider.id (providers s)).
Proof.
  unfold referencesHold. split; intros H m Hm.
  - destruct (H m Hm) as (p & Hp & <-). apply in_map, Hp.
  - specialize (H m Hm). apply in_map_iff in H.
    destruct H as (p & Hp & Hin). exists p. auto.
Qed.

Lemma unsetDefaults_providerId l m :
  In m (unsetDefaults l) ->
  exists m0, In m0 l /\ AIModel.providerId m0 = AIModel.providerId m.
Proof.
  unfold unsetDefaults. intros H. apply in_map_iff in H.
  destruct H as (m0 & <- & H0). exists m0. split; [exact H0|reflexivity].
Qed.

Lemma valid_model_provider a b c :
  Validation.valid (Validation.validateModel a (Some b) c) = true ->
  JS.falsy b = false.
Proof.
  unfold Validation.validateModel. rewrite valid_three.
  intros (_ & H & _). simpl in H. apply orb_false_iff in H. tauto.
Qed.

Lemma find_provider_In s pid p :
  find (hasProviderId pid) (providers s) = Some p ->
  In pid (map AIProvider.id (providers s)).
Proof.
  intros H. apply find_some in H. destruct H as [Hin Hp].
  apply js_eqb_eq in Hp. rewrite <- Hp. apply in_map, Hin.
Qed.

Lemma registry_keeps_references s c :
  referencesHold s -> referencesHold (Settings.perform s c).
Proof.
  rewrite !referencesHold_ids. intros Inv.
  destruct c as [np nid|id|id|nm nid|id u|id|id]; simpl.
  - unfold addProvider. destruct (negb _); simpl; [exact Inv|].
    intros m Hm. rewrite map_app. apply in_or_app. left. apply Inv, Hm.
  - unfold deleteProvider.
    destruct (Arr.findIndex _ _) as [i|] eqn:E; simpl; [|exact Inv].
    destruct (findIndex_nth _ _ E)
      as (before & x & after & Hl & <- & _ & Hx & _).
    rewrite Hl, removeAt_middle. intros m Hm.
    apply filter_In in Hm. destruct Hm as [Hm Hne].
    specialize (Inv m Hm). rewrite Hl in Inv.
    rewrite map_app in *. simpl in Inv.
    apply in_app_or in Inv. apply in_or_app.
    destruct Inv as [H|[H|H]]; auto.
    apply js_eqb_eq in Hx. apply negb_true_iff, js_eqb_neq in Hne.
    congruence.
  - unfold toggleProvider.
    destruct (Arr.findIndex _ _) as [i|]; simpl; [|exact Inv].
    rewrite updateAt_map by reflexivity. exact Inv.
  - unfold addModel. destruct (negb _); simpl; [exact Inv|].
    destruct (find _ _) as [p|] eqn:E; simpl; [|exact Inv].
    intros m Hm. apply in_app_or in Hm. destruct Hm as [Hm|[<-|[]]].
    + destruct (nm_isDefault nm); [|apply Inv, Hm].
      destruct (unsetDefaults_providerId _ _ Hm) as (m0 & H0 & <-).
      apply Inv, H0.
    + simpl. eapply find_provider_In, E.
  - unfold updateModel.
    destruct (Arr.findIndex _ _) as [i|] eqn:E; [|exact Inv].
    destruct (nth_error _ _) as [old|] eqn:Hold; [|exact Inv].
    cbv zeta.
    destruct (Validation.valid _) eqn:Hv; cbn [negb]; [|exact Inv].
    match goal with |- context [if ?b then _ else _] =>
      destruct b eqn:Hmiss end; [exact Inv|].
    cbn [snd models providers with_models].
    assert (Hothers : forall m,
      In m (match u_isDefault u with
            | Some true => unsetDefaults (models s)
            | _ => models s end) ->
      In (AIModel.providerId m) (map AIProvider.id (providers s))).
    { intros m Hm. destruct (u_isDefault u) as [[|]|]; try (apply Inv, Hm).
      destruct (unsetDefaults_providerId _ _ Hm) as (m0 & H0 & <-).
      apply Inv, H0. }
    intros m Hm. apply updateAt_In in Hm.
    destruct Hm as [Hm|(y & _ & ->)]; [apply Hothers, Hm|].
    unfold applyUpdates in *.
    cbn [AIModel.providerId AIModel.name AIModel.modelIdentifier] in *.
    destruct (u_providerId u) as [pid|]; cbn [override] in *.
    + apply valid_model_provider in Hv. rewrite Hv in Hmiss.
      cbn [negb andb] in Hmiss.
      destruct (find (hasProviderId pid) (providers s)) eqn:Ef;
        [|discriminate].
      eapply find_provider_In, Ef.
    + apply Inv. eapply nth_error_In, Hold.
  - unfold deleteModel.
    destruct (Arr.findIndex _ _) as [i|]; simpl; [|exact Inv].
    intros m Hm. apply Inv. eapply removeAt_incl, Hm.
  - unfold setDefaultModel.
    destruct (Arr.findIndex _ _) as [i|]; simpl; [|exact Inv].
    intros m Hm. apply updateAt_In in Hm.
    destruct Hm as [Hm|(y & Hy & ->)].
    + destruct (unsetDefaults_providerId _ _ Hm) as (m0 & H0 & <-).
      apply Inv, H0.
    + destruct (unsetDefaults_providerId _ _ Hy) as (m0 & H0 & Heq).
      specialize (Inv m0 H0). rewrite Heq in Inv. exact Inv.
Qed.

Lemma updateProvider_ids s id u :
  map AIProvider.id (providers (snd (updateProvider s id u)))
  = map AIProvider.id (providers s)
  /\ models (snd (updateProvider s id u)) = models s.
Proof.
  unfold updateProvider.
  destruct (Arr.findIndex _ _) as [i|] eqn:E; simpl; [|auto].
  destruct (findIndex_nth _ _ E)
    as (before & x & after & Hl & <- & Hn & _ & _).
  rewrite Hn. destruct (negb _); simpl; [auto|]. split; [|reflexivity].
  rewrite Hl, updateAt_middle, !map_app. reflexivity.
Qed.

Lemma perform_keeps_references s c :
  referencesHold s -> referencesHold (SettingsOps.perform s c).
Proof.
  destruct c as [c|id u]; simpl; [apply registry_keeps_references|].
  rewrite !referencesHold_ids. intros Inv.
  destruct (updateProvider_ids s id u) as [-> ->]. exact Inv.
Qed.

(** X8.  Referential integrity of the registry: when every stored model
    names the id of a stored provider, this still holds after any
    sequence of addProvider, updateProvider, deleteProvider,
    toggleProvider, addModel, updateModel, deleteModel and
    setDefaultModel calls, whatever their arguments and whether they
    succeed or fail.  In particular it holds for every registry built
    from the default settings. *)
Theorem registry_references_hold :
  forall calls,
    (forall s, referencesHold s ->
       referencesHold (SettingsOps.performAll s calls))
    /\ referencesHold (SettingsOps.performAll Settings.initial calls).
Proof.
  intros calls.
  assert (H : forall s, referencesHold s ->
                referencesHold (SettingsOps.performAll s calls)).
  { induction calls as [|c r IH]; intros s Inv; simpl; [exact Inv|].
    apply IH, perform_keeps_references, Inv. }
  split; [exact H|]. apply H. intros m [].
Qed.

Lemma registry_references_hold_witness :
  let p1 := {| AIProvider.id := js "p1"; AIProvider.name := js "One";
               AIProvider.baseUrl := js "u"; AIProvider.apiKey := js "k";
               AIProvider.enabled := true; AIProvider.type := openai |} in
  let m1 := {| AIModel.id := js "m1"; AIModel.name := js "A";
               AIModel.providerId := js "p1"; AIModel.modelIdentifier := js "a";
               AIModel.isDefault := true |} in
  let s := with_models [m1] (with_providers [p1] Settings.initial) in
  referencesHold s
  /\ referencesHold
       (SettingsOps.performAll s
          [Registry (DeleteProvider (js "p1"));
           UpdateProvider (js "p1")
             {| pu_name := None; pu_baseUrl := None; pu_apiKey := None;
                pu_enabled := Some false; pu_type := None |}]).
Proof.
  intros p1 m1 s.
  assert (H : referencesHold s).
  { intros m [<-|[]]. exists p1. split; [left|]; reflexivity. }
  split; [exact H|].
  exact (proj1 (registry_references_hold _) s H).
Defined.

Lemma flip_ids i l :
  map AIProvider.id
    (Arr.updateAt i
       (fun p =>
          {| AIProvider.id := AIProvider.id p;
             AIProvider.name := AIProvider.name p;
             AIProvider.baseUrl := AIProvider.baseUrl p;
             AIProvider.apiKey := AIProvider.apiKey p;
             AIProvider.enabled := negb (AIProvider.enabled p);
             AIProvider.type := AIProvider.type p |}) l)
  = map AIProvider.id l.
Proof. apply updateAt_map. reflexivity. Qed.

(** X9.  toggleProvider on an unknown id reports failure and changes
    nothing.  On a known id it flips the enabled flag of the first
    provider with that id, returns the new flag, and leaves every other
    provider, every model and every provider id as it was; toggling the
    same id a second time restores the settings exactly. *)
Theorem toggleProvider_flips :
  forall s id,
    (getProvider s id = None -> toggleProvider s id = (None, s))
    /\ (forall p, getProvider s id = Some p ->
          exists before after,
            providers s = before ++ p :: after
            /\ (forall q, In q before -> AIProvider.id q <> id)
            /\ fst (toggleProvider s id)
               = Some (negb (AIProvider.enabled p))
            /\ providers (snd (toggleProvider s id))
               = before
                 ++ {| AIProvider.id := AIProvider.id p;
                       AIProvider.name := AIProvider.name p;
                       AIProvider.baseUrl := AIProvider.baseUrl p;
                       AIProvider.apiKey := AIProvider.apiKey p;
                       AIProvider.enabled := negb (AIProvider.enabled p);
                       AIProvider.type := AIProvider.type p |} :: after
            /\ models (snd (toggleProvider s id)) = models s
            /\ toggleProvider (snd (toggleProvider s id)) id
               = (Some (AIProvider.enabled p), s)).
Proof.
  intros s id. unfold getProvider. split.
  - intros H. unfold toggleProvider.
    apply findIndex_None in H. rewrite H. reflexivity.
  - intros p Hp. destruct (find_Some_findIndex _ _ Hp) as [i Hi].
    destruct (findIndex_nth _ _ Hi)
      as (before & x & after & Hl & Hlen & Hn & Hx & Hb).
    assert (x = p) as ->.
    { assert (Hf : find (hasProviderId id) (providers s) = Some x).
      { rewrite Hl. apply find_middle; assumption. }
      congruence. }
    exists before, after. split; [exact Hl|]. split.
    { intros q Hq. apply js_eqb_neq, Hb, Hq. }
    assert (Hts : toggleProvider s id
              = (Some (negb (AIProvider.enabled p)),
                 with_providers
                   (before
                    ++ {| AIProvider.id := AIProvider.id p;
                          AIProvider.name := AIProvider.name p;
                          AIProvider.baseUrl := AIProvider.baseUrl p;
                          AIProvider.apiKey := AIProvider.apiKey p;
                          AIProvider.enabled := negb (AIProvider.enabled p);
                          AIProvider.type := AIProvider.type p |} :: after)
                   s)).
    { unfold toggleProvider. rewrite Hi. cbn [providers with_providers].
      rewrite Hl, <- Hlen, updateAt_middle.
      rewrite nth_error_app2 by lia. rewrite Nat.sub_diag. reflexivity. }
    rewrite Hts. cbn [fst snd providers models with_providers].
    repeat split.
    unfold toggleProvider. cbn [providers with_providers].
    assert (Hi' : Arr.findIndex (hasProviderId id)
              (before
               ++ {| AIProvider.id := AIProvider.id p;
                     AIProvider.name := AIProvider.name p;
                     AIProvider.baseUrl := AIProvider.baseUrl p;
                     AIProvider.apiKey := AIProvider.apiKey p;
                     AIProvider.enabled := negb (AIProvider.enabled p);
                     AIProvider.type := AIProvider.type p |} :: after)
              = Some (List.length before)).
    { clear - Hb Hx. induction before as [|y r IH]; simpl.
      - unfold hasProviderId in *. simpl. rewrite Hx. reflexivity.
      - rewrite (Hb y) by (left; reflexivity).
        rewrite IH; [reflexivity|]. intros z Hz. apply Hb. right. exact Hz. }
    rewrite Hi'. rewrite updateAt_middle.
    rewrite nth_error_app2 by lia. rewrite Nat.sub_diag.
    cbn [nth_error option_map AIProvider.enabled AIProvider.id
         AIProvider.name AIProvider.baseUrl AIProvider.apiKey AIProvider.type].
    rewrite negb_involutive. f_equal.
    destruct s as [ps ms cs ss mh se]. cbn in Hl |- *. subst ps.
    destruct p. reflexivity.
Qed.

Lemma toggleProvider_flips_witness :
  let p1 := {| AIProvider.id := js "p1"; AIProvider.name := js "One";
               AIProvider.baseUrl := js "u"; AIProvider.apiKey := js "k";
               AIProvider.enabled := true; AIProvider.type := openai |} in
  let s := with_providers [p1] Settings.initial in
  toggleProvider (snd (toggleProvider s (js "p1"))) (js "p1")
  = (Some true, s).
Proof.
  intros p1 s.
  destruct (proj2 (toggleProvider_flips s (js "p1")) p1 eq_refl)
    as (before & after & _ & _ & _ & _ & _ & H).
  exact H.
Defined.

Lemma NoDup_map_inj (A B : Type) (f : A -> B) l x y :
  NoDup (map f l) -> In x l -> In y l -> f x = f y -> x = y.
Proof.
  induction l as [|z r IH]; simpl; [tauto|].
  intros Hnd Hx Hy Heq. inversion Hnd as [|? ? Hz Hr]; subst.
  destruct Hx as [<-|Hx], Hy as [<-|Hy]; auto.
  - exfalso. apply Hz. rewrite Heq. apply in_map, Hy.
  - exfalso. apply Hz. rewrite <- Heq. apply in_map, Hx.
Qed.

Lemma available_iff s m :
  In m (getAvailableModels s) <->
  In m (models s)
  /\ exists p, In p (providers s) /\ AIProvider.enabled p = true
               /\ AIProvider.id p = AIModel.providerId m.
Proof.
  unfold getAvailableModels. rewrite filter_In, existsb_exists.
  split; intros [Hm H]; (split; [exact Hm|]).
  - destruct H as (pid & Hin & Heq). apply in_map_iff in Hin.
    destruct Hin as (p & <- & Hp). apply filter_In in Hp.
    apply js_eqb_eq in Heq. exists p. intuition.
  - destruct H as (p & Hp & He & Hid). exists (AIProvider.id p). split.
    + apply in_map, filter_In. auto.
    + apply js_eqb_eq. auto.
Qed.

(** X10.  getAvailableModels offers a stored model exactly when some
    enabled provider carries the model's provider id, and it keeps the
    stored order.  When provider ids are unique, a model is offered
    exactly when its own provider is enabled, so disabling a provider
    hides each of its models and enabling it shows them again. *)
Theorem getAvailableModels_enabled_only :
  forall s,
    (forall m, In m (getAvailableModels s) <->
       In m (models s)
       /\ exists p, In p (providers s) /\ AIProvider.enabled p = true
                    /\ AIProvider.id p = AIModel.providerId m)
    /\ (NoDup (map AIProvider.id (providers s)) ->
        forall m p,
          In m (models s) ->
          getProvider s (AIModel.providerId m) = Some p ->
          (In m (getAvailableModels s) <-> AIProvider.enabled p = true))
    /\ (forall m, In m (models s) ->
          getProvider s (AIModel.providerId m) = None ->
          ~ In m (getAvailableModels s))
    /\ (exists keep, getAvailableModels s = filter keep (models s)).
Proof.
  intros s. split; [apply available_iff|]. split; [|split].
  - intros Hnd m p Hm Hp. unfold getProvider in Hp.
    apply find_some in Hp. destruct Hp as [Hin Hid].
    apply js_eqb_eq in Hid. rewrite available_iff. split.
    + intros (_ & q & Hq & He & Hqid).
      assert (q = p) as ->; [|exact He].
      apply (NoDup_map_inj AIProvider.id (providers s)); auto. congruence.
    + intros He. split; [exact Hm|]. exists p. auto.
  - intros m Hm Hnone. rewrite available_iff.
    intros (_ & q & Hq & _ & Hqid). unfold getProvider in Hnone.
    apply (find_none _ _ Hnone) in Hq. apply js_eqb_neq in Hq. auto.
  - eexists. reflexivity.
Qed.

Lemma getAvailableModels_enabled_only_witness :
  let p1 := {| AIProvider.id := js "p1"; AIProvider.name := js "One";
               AIProvider.baseUrl := js "u"; AIProvider.apiKey := js "k";
               AIProvider.enabled := false; AIProvider.type := openai |} in
  let m1 := {| AIModel.id := js "m1"; AIModel.name := js "A";
               AIModel.providerId := js "p1"; AIModel.modelIdentifier := js "a";
               AIModel.isDefault := true |} in
  let s := with_models [m1] (with_providers [p1] Settings.initial) in
  In m1 (getAvailableModels s) <-> false = true.
Proof.
  intros p1 m1 s.
  apply (proj1 (proj2 (getAvailableModels_enabled_only s))
           ltac:(repeat constructor; simpl; tauto) m1 p1).
  - left. reflexivity.
  - reflexivity.
Defined.

Lemma find_app_none (A : Type) (p : A -> bool) l x :
  p x = false -> find p (l ++ [x]) = find p l.
Proof.
  intros Hx. induction l as [|y r IH]; simpl.
  - rewrite Hx. reflexivity.
  - destruct (p y); [reflexivity|exact IH].
Qed.

Lemma find_app_fresh (A : Type) (p : A -> bool) l x :
  (forall y, In y l -> p y = false) -> p x = true ->
  find p (l ++ [x]) = Some x.
Proof. intros Hl Hx. apply find_middle; assumption. Qed.

(** X11.  addModel has three outcomes.  A model whose name, provider id
    or model identifier is blank is rejected with the validation errors;
    a valid model naming no stored provider is rejected with
    'Provider not found'; in both cases the settings are unchanged.
    Otherwise the model is stored last under the fresh id with the given
    fields and the providers are untouched; a model added as default is
    then the only default, one added as non-default leaves the default
    as it was, and a fresh id that no stored model has resolves to the
    new model. *)
Theorem addModel_outcomes :
  forall s model newId,
    let fieldsGiven :=
      filled (Some (nm_name model)) /\ filled (Some (nm_providerId model))
      /\ filled (Some (nm_modelIdentifier model)) in
    (~ fieldsGiven ->
       exists errors, errors <> []
         /\ addModel s model newId = (Failure errors, s))
    /\ (fieldsGiven -> getProvider s (nm_providerId model) = None ->
        addModel s model newId = (Failure [js "Provider not found"], s))
    /\ (fieldsGiven -> getProvider s (nm_providerId model) <> None ->
        let newModel :=
          {| AIModel.id := newId;
             AIModel.name := nm_name model;
             AIModel.providerId := nm_providerId model;
             AIModel.modelIdentifier := nm_modelIdentifier model;
             AIModel.isDefault := nm_isDefault model |} in
        let s' := snd (addModel s model newId) in
        fst (addModel s model newId) = Success newModel
        /\ providers s' = providers s
        /\ models s'
           = (if nm_isDefault model then unsetDefaults (models s)
              else models s) ++ [newModel]
        /\ (nm_isDefault model = true ->
            getDefaultModel s' = Some newModel /\ defaultCount s' = 1%nat)
        /\ (nm_isDefault model = false ->
            getDefaultModel s' = getDefaultModel s)
        /\ ((forall m, In m (models s) -> AIModel.id m <> newId) ->
            getModel s' newId = Some newModel)).
Proof.
  intros s model newId fieldsGiven. unfold addModel.
  pose proof (valid_three (Some (nm_name model)) (Some (nm_providerId model))
                (Some (nm_modelIdentifier model))
                "Model name is required" "Provider ID is required"
                "Model identifier is required") as Hv.
  rewrite !missing_filled in Hv. fold fieldsGiven in Hv.
  change (Validation.result _) with
    (Validation.validateModel (Some (nm_name model))
       (Some (nm_providerId model)) (Some (nm_modelIdentifier model))) in Hv.
  split; [|split].
  - intros Hno. cbv zeta.
    destruct (Validation.valid _) eqn:E;
      [exfalso; apply Hno, Hv; reflexivity|].
    cbn [negb]. eexists. split; [|reflexivity].
    intros Herr. unfold Validation.validateModel, Validation.result in E.
    cbn [Validation.valid] in E. unfold Validation.validateModel in Herr.
    cbn [Validation.errors Validation.result] in Herr.
    rewrite Herr in E. discriminate.
  - intros Hyes Hnone. apply Hv in Hyes. cbv zeta. rewrite Hyes. cbn [negb].
    unfold getProvider in Hnone. rewrite Hnone. reflexivity.
  - intros Hyes Hsome. cbv zeta.
    apply Hv in Hyes. cbv zeta. rewrite Hyes. cbn [negb].
    unfold getProvider in Hsome.
    destruct (find _ (providers s)) as [p|]; [|contradiction].
    cbn [fst snd providers models with_models AIModel.isDefault].
    split; [reflexivity|]. split; [reflexivity|]. split; [reflexivity|].
    split; [|split].
    + intros H. split.
      * unfold getDefaultModel. cbn [models with_models]. rewrite H.
        apply find_app_fresh; [|reflexivity].
        intros y Hy. unfold unsetDefaults in Hy. apply in_map_iff in Hy.
        destruct Hy as (y0 & <- & _). reflexivity.
      * unfold defaultCount. cbn [models with_models]. rewrite H.
        rewrite filter_app, unsetDefaults_none. reflexivity.
    + intros H. unfold getDefaultModel. cbn [models with_models]. rewrite H.
      apply find_app_none. reflexivity.
    + intros Hfresh. unfold getModel. cbn [models with_models].
      apply find_app_fresh.
      * intros y Hy. apply js_eqb_neq.
        destruct (nm_isDefault model); [|apply Hfresh, Hy].
        unfold unsetDefaults in Hy. apply in_map_iff in Hy.
        destruct Hy as (y0 & <- & Hy0). apply (Hfresh y0 Hy0).
      * apply js_eqb_refl.
Qed.

Lemma addModel_outcomes_witness :
  let p1 := {| AIProvider.id := js "p1"; AIProvider.name := js "One";
               AIProvider.baseUrl := js "u"; AIProvider.apiKey := js "k";
               AIProvider.enabled := true; AIProvider.type := openai |} in
  let s := with_providers [p1] Settings.initial in
  let model := {| nm_name := js "A"; nm_providerId := js "p1";
                  nm_modelIdentifier := js "a"; nm_isDefault := true |} in
  fst (addModel s model (js "m1"))
  = Success {| AIModel.id := js "m1"; AIModel.name := js "A";
               AIModel.providerId := js "p1";
               AIModel.modelIdentifier := js "a";
               AIModel.isDefault := true |}.
Proof.
  intros p1 s model.
  refine (proj1 (proj2 (proj2 (addModel_outcomes s model (js "m1"))) _ _)).
  - split; [|split].
    + exists (js "A"), 65%N. repeat split. left. reflexivity.
    + exists (js "p1"), 112%N. repeat split. left. reflexivity.
    + exists (js "a"), 97%N. repeat split. left. reflexivity.
  - discriminate.
Defined.

(** X12.  deleteModel on an unknown id reports failure and changes
    nothing.  On a known id it removes the first model with that id and
    nothing else.  No other model is promoted: when at most one model
    was the default and the deleted one was it, the registry has no
    default model afterwards. *)
Theorem deleteModel_drops_default :
  forall s id,
    (getModel s id = None -> deleteModel s id = (false, s))
    /\ (forall m, getModel s id = Some m ->
          exists before after,
            models s = before ++ m :: after
            /\ (forall q, In q before -> AIModel.id q <> id)
            /\ deleteModel s id = (true, with_models (before ++ after) s)
            /\ ((defaultCount s <= 1)%nat -> AIModel.isDefault m = true ->
                getDefaultModel (snd (deleteModel s id)) = None)).
Proof.
  intros s id. unfold getModel. split.
  - intros H. unfold deleteModel.
    apply findIndex_None in H. rewrite H. reflexivity.
  - intros m Hm. destruct (find_Some_findIndex _ _ Hm) as [i Hi].
    destruct (findIndex_nth _ _ Hi)
      as (before & x & after & Hl & Hlen & Hn & Hx & Hb).
    assert (x = m) as ->.
    { assert (Hf : find (hasModelId id) (models s) = Some x).
      { rewrite Hl. apply find_middle; assumption. }
      congruence. }
    exists before, after. split; [exact Hl|]. split.
    { intros q Hq. apply js_eqb_neq, Hb, Hq. }
    assert (Hd : deleteModel s id = (true, with_models (before ++ after) s)).
    { unfold deleteModel. rewrite Hi, Hl, <- Hlen, removeAt_middle.
      reflexivity. }
    split; [exact Hd|]. intros Hone Hdef. rewrite Hd.
    unfold getDefaultModel, defaultCount in *. cbn [snd models with_models].
    rewrite Hl in Hone. rewrite filter_app in Hone. simpl in Hone.
    rewrite Hdef in Hone. rewrite length_app in Hone. simpl in Hone.
    apply find_none_iff. intros y Hy.
    destruct (AIModel.isDefault y) eqn:Ey; [|reflexivity]. exfalso.
    apply in_app_or in Hy. destruct Hy as [Hy|Hy].
    + assert (Hin : In y (filter AIModel.isDefault before))
        by (apply filter_In; auto).
      destruct (filter AIModel.isDefault before); [destruct Hin|].
      simpl in Hone. lia.
    + assert (Hin : In y (filter AIModel.isDefault after))
        by (apply filter_In; auto).
      destruct (filter AIModel.isDefault after); [destruct Hin|].
      simpl in Hone. lia.
Qed.

Lemma deleteModel_drops_default_witness :
  let m1 := {| AIModel.id := js "m1"; AIModel.name := js "A";
               AIModel.providerId := js "p"; AIModel.modelIdentifier := js "a";
               AIModel.isDefault := true |} in
  let m2 := {| AIModel.id := js "m2"; AIModel.name := js "B";
               AIModel.providerId := js "p"; AIModel.modelIdentifier := js "b";
               AIModel.isDefault := false |} in
  let s := with_models [m1; m2] Settings.initial in
  getDefaultModel (snd (deleteModel s (js "m1"))) = None.
Proof.
  intros m1 m2 s.
  destruct (proj2 (deleteModel_drops_default s (js "m1")) m1 eq_refl)
    as (before & after & _ & _ & _ & H).
  apply H; [vm_compute; lia|reflexivity].
Defined.

End RegistryFacts.

(** ** The context manager *)

Section ContextOpsFacts.
Import Context ContextOps.

Lemma mapSet_keys k v l :
  map fst (mapSet k v l)
  = if existsb (fun kv => JS.eqb (fst kv) k) l then map fst l
    else map fst l ++ [k].
Proof.
  induction l as [|[k' v'] r IH]; simpl; [reflexivity|].
  destruct (JS.eqb k' k); simpl; [reflexivity|].
  rewrite IH. destruct (existsb _ r); reflexivity.
Qed.

Lemma mapSet_fresh k v l :
  ~ In k (map fst l) -> mapSet k v l = l ++ [(k, v)].
Proof.
  induction l as [|[k' v'] r IH]; simpl; intros H; [reflexivity|].
  destruct (JS.eqb k' k) eqn:E.
  - apply js_eqb_eq in E. tauto.
  - rewrite IH by tauto. reflexivity.
Qed.

Lemma mapSet_In k v l k0 v0 :
  In (k0, v0) (mapSet k v l) -> In (k0, v0) l \/ (k0, v0) = (k, v).
Proof.
  induction l as [|[k' v'] r IH]; simpl.
  - intros [H|[]]; auto.
  - destruct (JS.eqb k' k) eqn:E; simpl.
    + apply js_eqb_eq in E. subst k'. intros [H|H]; auto.
    + intros [H|H]; [auto|]. destruct (IH H); auto.
Qed.

Lemma existsb_key_In k (l : list (jsstring * ContextItem.t)) :
  existsb (fun kv => JS.eqb (fst kv) k) l = true <-> In k (map fst l).
Proof.
  rewrite existsb_exists, in_map_iff. split.
  - intros (kv & Hin & He). apply js_eqb_eq in He. eauto.
  - intros (kv & He & Hin). exists kv. split; [exact Hin|].
    apply js_eqb_eq, He.
Qed.

Lemma setItem_wellKeyed m item :
  wellKeyed m -> wellKeyed (setItem m item).
Proof.
  intros [Hnd Hk]. split; simpl.
  - rewrite mapSet_keys.
    destruct (existsb _ _) eqn:E; [exact Hnd|].
    apply NoDup_app; [exact Hnd|repeat constructor; simpl; tauto|].
    intros k Hin [<-|[]]. apply existsb_key_In in Hin. congruence.
  - intros k it Hin. apply mapSet_In in Hin.
    destruct Hin as [Hin|Heq]; [apply Hk, Hin|].
    injection Heq as -> ->. reflexivity.
Qed.

Lemma empty_wellKeyed : wellKeyed empty.
Proof. split; simpl; [constructor|tauto]. Qed.

Lemma loadContext_fold items acc :
  wellKeyed {| contextItems := acc |} ->
  wellKeyed
    {| contextItems :=
         fold_left (fun acc item => mapSet (ContextItem.id item) item acc)
                   items acc |}.
Proof.
  revert acc; induction items as [|x r IH]; intros acc H; simpl; [exact H|].
  apply IH. apply (setItem_wellKeyed x H).
Qed.

Lemma loadContext_wellKeyed items : wellKeyed (loadContext items).
Proof. apply loadContext_fold, empty_wellKeyed. Qed.

Lemma NoDup_filter (A : Type) (p : A -> bool) l :
  NoDup l -> NoDup (filter p l).
Proof.
  induction 1 as [|x l Hx Hl IH]; simpl; [constructor|].
  destruct (p x); [|exact IH]. constructor; [|exact IH].
  intros H. apply filter_In in H. tauto.
Qed.

Lemma filter_keys id (l : list (jsstring * ContextItem.t)) :
  map fst (filter (fun kv => negb (JS.eqb (fst kv) id)) l)
  = filter (fun k => negb (JS.eqb k id)) (map fst l).
Proof.
  induction l as [|[k v] r IH]; simpl; [reflexivity|].
  destruct (JS.eqb k id); simpl; rewrite IH; reflexivity.
Qed.

Lemma perform_wellKeyed m c : wellKeyed m -> wellKeyed (perform m c).
Proof.
  intros H. destruct c as [fs path now rnd|content sp now rnd|id| |items];
    simpl.
  - unfold addFile. destruct (negb _); [exact H|].
    destruct fs as [fs|]; [|exact H].
    destruct (negb _); [exact H|].
    destruct (readFile fs path); [|exact H].
    apply setItem_wellKeyed, H.
  - unfold addSelection. destruct (_ || _); [exact H|].
    apply setItem_wellKeyed, H.
  - destruct H as [Hnd Hk]. split; simpl.
    + rewrite filter_keys. apply NoDup_filter, Hnd.
    + intros k it Hin. apply filter_In in Hin. apply Hk, Hin.
  - apply empty_wellKeyed.
  - apply loadContext_wellKeyed.
Qed.

Lemma performAll_wellKeyed calls m :
  wellKeyed m -> wellKeyed (performAll m calls).
Proof.
  revert m; induction calls as [|c r IH]; intros m H; simpl; [exact H|].
  apply IH, perform_wellKeyed, H.
Qed.

Lemma wellKeyed_ids m :
  wellKeyed m ->
  map ContextItem.id (getActiveContext m) = map fst (contextItems m).
Proof.
  intros [_ Hk]. unfold getActiveContext. rewrite map_map.
  apply map_ext_in. intros [k v] Hin. simpl. symmetry. apply Hk, Hin.
Qed.

Lemma wellKeyed_filter m id :
  wellKeyed m ->
  map snd (filter (fun kv => negb (JS.eqb (fst kv) id)) (contextItems m))
  = filter (fun item => negb (JS.eqb (ContextItem.id item) id))
           (map snd (contextItems m)).
Proof.
  intros [_ Hk]. induction (contextItems m) as [|[k v] r IH];
    simpl; [reflexivity|].
  rewrite (Hk k v) by (left; reflexivity).
  destruct (JS.eqb (ContextItem.id v) id); simpl;
    (rewrite IH; [reflexivity|]); intros k' it Hin; apply Hk; right; exact Hin.
Qed.

(** X13.  Whatever files and selections were added, removed or loaded
    before, the active context items carry pairwise distinct ids, and
    removeContext(id) reports true exactly when an active item has that
    id; afterwards no active item has it, the other items are kept in
    their order, and removing the same id again reports false. *)
Theorem removeContext_excludes_item :
  forall m calls id,
    wellKeyed m ->
    let before := performAll m calls in
    let after := snd (removeContext before id) in
    NoDup (map ContextItem.id (getActiveContext before))
    /\ (fst (removeContext before id) = true
        <-> exists item, In item (getActiveContext before)
                         /\ ContextItem.id item = id)
    /\ getActiveContext after
       = filter (fun item => negb (JS.eqb (ContextItem.id item) id))
                (getActiveContext before)
    /\ (forall item, In item (getActiveContext after) ->
          ContextItem.id item <> id)
    /\ fst (removeContext after id) = false.
Proof.
  intros m calls id Hm before after.
  assert (H : wellKeyed before) by (apply performAll_wellKeyed, Hm).
  assert (Hf : getActiveContext after
       = filter (fun item => negb (JS.eqb (ContextItem.id item) id))
                (getActiveContext before)).
  { apply (wellKeyed_filter id H). }
  split; [|split; [|split; [exact Hf|split]]].
  - rewrite (wellKeyed_ids H). apply H.
  - unfold removeContext. cbn [fst]. rewrite existsb_key_In.
    rewrite <- (wellKeyed_ids H), in_map_iff. split.
    + intros (item & He & Hin). eauto.
    + intros (item & Hin & He). eauto.
  - intros item Hin. rewrite Hf in Hin. apply filter_In in Hin.
    destruct Hin as [_ Hne]. apply negb_true_iff, js_eqb_neq in Hne.
    exact Hne.
  - unfold after, removeContext. cbn [fst snd contextItems].
    destruct (existsb _ _) eqn:E; [|reflexivity].
    apply existsb_exists in E. destruct E as (kv & Hin & He).
    apply filter_In in Hin. destruct Hin as [_ Hne].
    rewrite He in Hne. discriminate.
Qed.

Lemma removeContext_excludes_item_witness :
  let calls :=
    [AddSelection (js "quoted") (Some (js "notes/a.md")) 5 (js "r1");
     AddSelection (js "other") None 6 (js "r2")] in
  fst (removeContext
         (snd (removeContext (performAll empty calls) (js "ctx-5-r1")))
         (js "ctx-5-r1")) = false.
Proof.
  intros calls.
  exact (proj2 (proj2 (proj2 (proj2
    (removeContext_excludes_item calls (js "ctx-5-r1") empty_wellKeyed))))).
Defined.

Lemma loadContext_fresh items acc :
  NoDup (map fst acc ++ map ContextItem.id items) ->
  fold_left (fun acc item => mapSet (ContextItem.id item) item acc) items acc
  = acc ++ map (fun item => (ContextItem.id item, item)) items.
Proof.
  revert acc; induction items as [|x r IH]; intros acc H; simpl.
  - rewrite app_nil_r. reflexivity.
  - simpl in H. pose proof (NoDup_remove_2 _ _ _ H) as Hx.
    rewrite mapSet_fresh by (intros Hin; apply Hx, in_or_app; auto).
    rewrite IH.
    + rewrite <- app_assoc. reflexivity.
    + rewrite map_app. simpl. rewrite <- app_assoc. simpl.
      apply NoDup_remove_1 in H.
      apply NoDup_Add with (a := ContextItem.id x)
                           (l := map fst acc ++ map ContextItem.id r).
      * apply Add_app.
      * split; [exact H|exact Hx].
Qed.

(** X14.  exportContext after loadContext gives back the saved items
    unchanged and in order whenever their ids are pairwise distinct; in
    every case the exported items have pairwise distinct ids.
    Conversely, loading what a manager exports rebuilds that manager. *)
Theorem loadContext_exportContext_round_trip :
  (forall items,
     NoDup (map ContextItem.id items) ->
     exportContext (loadContext items) = items)
  /\ (forall items,
        NoDup (map ContextItem.id (exportContext (loadContext items))))
  /\ (forall m, wellKeyed m -> loadContext (exportContext m) = m).
Proof.
  assert (H1 : forall items,
     NoDup (map ContextItem.id items) ->
     contextItems (loadContext items)
     = map (fun item => (ContextItem.id item, item)) items).
  { intros items H. unfold loadContext. cbn [contextItems].
    rewrite loadContext_fresh; [reflexivity|exact H]. }
  split; [|split].
  - intros items H. unfold exportContext, getActiveContext.
    rewrite (H1 items H), map_map. simpl. apply map_id.
  - intros items. unfold exportContext.
    rewrite (wellKeyed_ids (loadContext_wellKeyed items)).
    apply loadContext_wellKeyed.
  - intros m H. pose proof (wellKeyed_ids H) as Hids.
    destruct m as [l].
    assert (Hl : contextItems
                   (loadContext (exportContext {| contextItems := l |})) = l);
      [|destruct (loadContext _); cbn [contextItems] in Hl; congruence].
    rewrite H1.
    + unfold exportContext, getActiveContext. cbn [contextItems].
      rewrite map_map. destruct H as [_ Hk]. cbn [contextItems] in Hk.
      rewrite <- (map_id l) at 2. apply map_ext_in.
      intros [k v] Hin. simpl. rewrite (Hk k v Hin). reflexivity.
    + unfold exportContext. rewrite Hids. apply H.
Qed.

Lemma loadContext_exportContext_round_trip_witness :
  let item id :=
    {| ContextItem.id := id; ContextItem.type := file;
       ContextItem.path := Some (js "a.md"); ContextItem.content := js "text";
       ContextItem.displayName := js "a.md" |} in
  exportContext (loadContext [item (js "one"); item (js "two")])
  = [item (js "one"); item (js "two")].
Proof.
  intros item.
  apply (proj1 loadContext_exportContext_round_trip).
  repeat constructor; simpl; intuition discriminate.
Defined.

Lemma mapSet_find k v l :
  option_map snd (find (fun kv => JS.eqb (fst kv) k) (mapSet k v l)) = Some v.
Proof.
  induction l as [|[k' v'] r IH]; simpl.
  - rewrite js_eqb_refl. reflexivity.
  - destruct (JS.eqb k' k) eqn:E; simpl; rewrite E; [reflexivity|exact IH].
Qed.

(** X15.  addSelection rejects a selection that is empty or consists of
    white space only: it throws 'Selection content cannot be empty' and
    stores nothing.  Any other selection is stored under a fresh
    'ctx-' id with its content verbatim (untrimmed), type selection and
    the given source path; it is named after the last path segment of
    the source, or 'Text selection' without one.  The stored item is
    found under its id, and when that id was not in use it is appended
    after the items already active. *)
Theorem addSelection_stores_verbatim :
  forall m content sourcePath now rnd,
    (forallb JS.isWhiteSpace content = true ->
       addSelection m content sourcePath now rnd
       = (Error (js "Selection content cannot be empty"), m))
    /\ (forallb JS.isWhiteSpace content = false ->
        let item :=
          {| ContextItem.id := js "ctx-" ++ Env.decimal now ++ js "-" ++ rnd;
             ContextItem.type := selection;
             ContextItem.path := sourcePath;
             ContextItem.content := content;
             ContextItem.displayName :=
               match sourcePath with
               | Some (c :: p) =>
                   js "Selection from " ++ JSX.lastSegment (c :: p)
               | _ => js "Text selection"
               end |} in
        let m' := snd (addSelection m content sourcePath now rnd) in
        fst (addSelection m content sourcePath now rnd) = Ok item
        /\ getContextItem m' (ContextItem.id item) = Some item
        /\ (hasContext m (ContextItem.id item) = false ->
            getActiveContext m' = getActiveContext m ++ [item])).
Proof.
  intros m content sourcePath now rnd. unfold addSelection.
  assert (Hblank : JS.falsy content || (JS.length (JS.trim content) =? 0)%Z
                   = forallb JS.isWhiteSpace content).
  { destruct (forallb JS.isWhiteSpace content) eqn:E.
    - apply trim_nil in E. rewrite E. apply orb_true_r.
    - apply orb_false_iff. split.
      + destruct content; [discriminate|reflexivity].
      + destruct (JS.trim content) eqn:Et.
        * apply trim_nil in Et. congruence.
        * unfold JS.length. simpl. lia. }
  rewrite Hblank. split; intros H; rewrite H; [reflexivity|].
  cbv zeta. cbn [fst snd].
  assert (Hname :
    match sourcePath with
    | Some p =>
        if JS.falsy p then js "Text selection"
        else js "Selection from " ++ JSX.lastSegment p
    | None => js "Text selection"
    end
    = match sourcePath with
      | Some (c :: p) => js "Selection from " ++ JSX.lastSegment (c :: p)
      | _ => js "Text selection"
      end).
  { destruct sourcePath as [[|c p]|]; reflexivity. }
  rewrite Hname. unfold generateContextId. split; [reflexivity|]. split.
  - unfold getContextItem, setItem. cbn [contextItems ContextItem.id].
    apply mapSet_find.
  - intros Hfresh. unfold getActiveContext, setItem, hasContext in *.
    cbn [contextItems ContextItem.id] in *.
    rewrite mapSet_fresh.
    + rewrite map_app. reflexivity.
    + intros Hin. apply existsb_key_In in Hin. congruence.
Qed.

Lemma addSelection_stores_verbatim_witness :
  fst (addSelection empty (js " note ") (Some (js "daily/today.md")) 7
         (js "abc"))
  = Ok {| ContextItem.id := js "ctx-7-abc";
          ContextItem.type := selection;
          ContextItem.path := Some (js "daily/today.md");
          ContextItem.content := js " note ";
          ContextItem.displayName := js "Selection from today.md" |}.
Proof.
  exact (proj1 (proj2 (addSelection_stores_verbatim empty (js " note ")
                         (Some (js "daily/today.md")) 7 (js "abc"))
                 eq_refl)).
Defined.

Lemma split_lines_noLF s : Forall AIClient.noLF (JS.split s).
Proof.
  unfold AIClient.noLF. induction s as [|c r IH]; simpl.
  - repeat constructor. tauto.
  - destruct (N.eqb c JS.LF) eqn:E.
    + constructor; [tauto|exact IH].
    + destruct (JS.split r) as [|h t].
      * repeat constructor. intros [H|[]]. rewrite H, N.eqb_refl in E.
        discriminate.
      * inversion IH as [|? ? Hh Ht]; subst. constructor; [|exact Ht].
        intros [H|H]; [|tauto]. rewrite H, N.eqb_refl in E. discriminate.
Qed.

Lemma join_cons2 sep x y (r : list jsstring) :
  JS.join sep (x :: y :: r) = x ++ sep ++ JS.join sep (y :: r).
Proof. reflexivity. Qed.

Lemma join_split s : JS.join [JS.LF] (JS.split s) = s.
Proof.
  induction s as [|c r IH]; [reflexivity|]. cbn [JS.split].
  destruct (N.eqb c JS.LF) eqn:E.
  - apply N.eqb_eq in E. subst c.
    destruct (JS.split r) as [|h t] eqn:Er; [elim (split_not_nil _ Er)|].
    rewrite join_cons2, IH. reflexivity.
  - destruct (JS.split r) as [|h t] eqn:Er; [elim (split_not_nil _ Er)|].
    destruct t as [|y t].
    + cbn [JS.join] in *. rewrite IH. reflexivity.
    + rewrite join_cons2 in *. rewrite <- IH. reflexivity.
Qed.

Lemma split_join ls :
  ls <> [] -> Forall AIClient.noLF ls ->
  JS.split (JS.join [JS.LF] ls) = ls.
Proof.
  induction ls as [|x r IH]; [congruence|]. intros _ H.
  inversion H as [|? ? Hx Hr]; subst. destruct r as [|y r].
  - simpl. apply split_noLF, Hx.
  - rewrite join_cons2.
    change (x ++ [JS.LF] ++ JS.join [JS.LF] (y :: r))
      with (x ++ JS.LF :: JS.join [JS.LF] (y :: r)).
    rewrite split_at_LF by exact Hx.
    f_equal. apply IH; [discriminate|exact Hr].
Qed.

(** X16.  formatSelectionContext quotes line by line: the result has
    exactly the lines of the content, each prefixed with '> ', so an
    empty line becomes '> ' and no line is lost or merged; removing the
    two-character prefix from every line gives the content back. *)
Theorem formatSelectionContext_quotes_each_line :
  forall content,
    JS.split (formatSelectionContext content)
    = map (fun line => js "> " ++ line) (JS.split content)
    /\ List.length (JS.split (formatSelectionContext content))
       = List.length (JS.split content)
    /\ JS.join [JS.LF]
         (map (fun line => JS.slice line 2)
              (JS.split (formatSelectionContext content)))
       = content.
Proof.
  intros content.
  assert (H : JS.split (formatSelectionContext content)
              = map (fun line => js "> " ++ line) (JS.split content)).
  { unfold formatSelectionContext. apply split_join.
    - pose proof (split_not_nil content).
      destruct (JS.split content); [congruence|discriminate].
    - apply Forall_map. eapply Forall_impl; [|apply split_lines_noLF].
      unfold AIClient.noLF. intros line Hl [E|[E|Hin]];
        [discriminate E|discriminate E|tauto]. }
  rewrite H. split; [reflexivity|]. split; [apply length_map|].
  rewrite map_map. simpl. rewrite map_id. apply join_split.
Qed.

Lemma splitOn_head sep s h t :
  JSX.splitOn sep s = h :: t -> JS.startsWith s h = true.
Proof.
  revert h t; induction s as [|c r IH]; simpl; intros h t H.
  - injection H as <- <-. reflexivity.
  - destruct (N.eqb c sep).
    + injection H as <- <-. reflexivity.
    + destruct (JSX.splitOn sep r) as [|h' t'] eqn:E.
      * injection H as <- <-. simpl. rewrite N.eqb_refl. reflexivity.
      * injection H as <- <-. simpl. rewrite N.eqb_refl. eapply IH.
        reflexivity.
Qed.

Lemma startsWith_nil s : JS.startsWith s [] = true.
Proof. destruct s; reflexivity. Qed.

Lemma includes_cons c s t : JSX.includes s t = true ->
  JSX.includes (c :: s) t = true.
Proof. intros H. simpl. rewrite H. apply orb_true_r. Qed.

Lemma includes_start s t : JS.startsWith s t = true ->
  JSX.includes s t = true.
Proof. intros H. destruct s; simpl; rewrite H; reflexivity. Qed.

Lemma splitOn_includes sep s seg :
  In seg (JSX.splitOn sep s) -> JSX.includes s seg = true.
Proof.
  induction s as [|c r IH]; simpl.
  - intros [<-|[]]. reflexivity.
  - destruct (N.eqb c sep).
    + intros [<-|H].
      * reflexivity.
      * rewrite (IH H). apply orb_true_r.
    + destruct (JSX.splitOn sep r) as [|h t] eqn:E.
      * intros [<-|[]]. simpl. rewrite N.eqb_refl. reflexivity.
      * intros [<-|H].
        -- simpl. rewrite N.eqb_refl.
           rewrite (splitOn_head _ _ E). reflexivity.
        -- rewrite IH by (right; exact H). apply orb_true_r.
Qed.

(** X17.  validateFilePath accepts only relative paths without
    directory traversal: an accepted path is not empty, does not begin
    with a slash or a backslash, and none of its segments (split at
    slashes and backslashes alike) is '..'.  A path with a '..'
    segment, a leading separator or no characters is rejected. *)
Theorem validateFilePath_no_traversal :
  forall path,
    (validateFilePath path = true ->
       path <> []
       /\ JS.startsWith path (js "/") = false
       /\ JS.startsWith path [JSX.BACKSLASH] = false
       /\ forall seg, In seg (JSX.splitOn JSX.SLASH (JSX.slashes path)) ->
            seg <> js "..")
    /\ (In (js "..") (JSX.splitOn JSX.SLASH (JSX.slashes path)) ->
        validateFilePath path = false)
    /\ validateFilePath [] = false.
Proof.
  intros path. unfold validateFilePath. split; [|split; [|reflexivity]].
  - destruct path as [|c r]; [discriminate|]. cbn [JS.falsy]. cbv zeta.
    destruct (JSX.includes _ _) eqn:Ei; [discriminate|].
    destruct (JS.startsWith _ _) eqn:Es; [discriminate|]. intros _.
    split; [discriminate|]. split; [|split].
    + simpl in *. unfold JSX.BACKSLASH, JSX.SLASH in *.
      destruct (N.eqb c 92) eqn:E92.
      * simpl in Es. discriminate.
      * destruct (N.eqb c 47); [discriminate|reflexivity].
    + simpl in *. unfold JSX.BACKSLASH, JSX.SLASH in *.
      destruct (N.eqb c 92) eqn:E92; [|reflexivity].
      simpl in Es. discriminate.
    + intros seg Hin ->. apply splitOn_includes in Hin. congruence.
  - intros Hin. apply splitOn_includes in Hin.
    destruct path as [|c r]; [reflexivity|]. cbn [JS.falsy]. cbv zeta.
    rewrite Hin. reflexivity.
Qed.

Lemma validateFilePath_no_traversal_witness :
  validateFilePath (js "notes/../../secret.md") = false.
Proof.
  apply (proj1 (proj2 (validateFilePath_no_traversal _))).
  simpl. tauto.
Defined.

End ContextOpsFacts.

(** ** Helpers *)

Section UtilsFacts.
Import Utils.

Ltac escape_cases :=
  unfold escaped, escapeMap;
  repeat match goal with
         | |- context [N.eqb ?a ?b] => destruct (N.eqb_spec a b); subst
         end.

Lemma escaped_markup char c : In c (escaped char) -> markup c = false.
Proof.
  escape_cases; simpl; intros H;
    repeat (destruct H as [<-|H]; [try reflexivity|]); try destruct H.
  unfold markup.
  repeat match goal with
         | H : ?a <> ?b |- context [N.eqb ?a ?b] =>
             rewrite (proj2 (N.eqb_neq a b) H)
         end.
  reflexivity.
Qed.

Lemma escaped_prefix_free c d x y :
  escaped c ++ x = escaped d ++ y -> c = d /\ x = y.
Proof.
  escape_cases; simpl; intros H; inversion H; subst;
    try (split; reflexivity); congruence.
Qed.

Lemma escaped_not_nil c : escaped c <> [].
Proof. escape_cases; discriminate. Qed.

Lemma flat_map_escaped_inj a b :
  flat_map escaped a = flat_map escaped b -> a = b.
Proof.
  revert b; induction a as [|c a IH]; intros [|d b]; simpl; intros H.
  - reflexivity.
  - symmetry in H. apply app_eq_nil in H. destruct H as [H _].
    elim (escaped_not_nil _ H).
  - apply app_eq_nil in H. destruct H as [H _]. elim (escaped_not_nil _ H).
  - apply escaped_prefix_free in H. destruct H as [-> H].
    f_equal. apply IH, H.
Qed.

Lemma sanitizeHtml_flat content :
  sanitizeHtml content = flat_map escaped content.
Proof. destruct content; reflexivity. Qed.

(** X18.  sanitizeHtml leaves no markup character in its result: no
    less-than or greater-than sign, no quote of either kind, no slash,
    backtick or equals sign.  Escaping loses nothing: different
    contents have different results, text is escaped piece by piece, a
    content without ampersand or markup characters is returned as it
    is, and the result is never shorter than the content. *)
Theorem sanitizeHtml_escapes_markup :
  forall content,
    (forall c, In c (sanitizeHtml content) -> markup c = false)
    /\ (forall other, sanitizeHtml content = sanitizeHtml other ->
          content = other)
    /\ (forall other, sanitizeHtml (content ++ other)
          = sanitizeHtml content ++ sanitizeHtml other)
    /\ ((forall c, In c content -> escapeMap c = None) ->
        sanitizeHtml content = content)
    /\ (List.length content <= List.length (sanitizeHtml content))%nat.
Proof.
  intros content. split; [|split; [|split; [|split]]].
  - intros c H. rewrite sanitizeHtml_flat in H. apply in_flat_map in H.
    destruct H as (char & _ & H). apply (escaped_markup _ _ H).
  - intros other H. rewrite !sanitizeHtml_flat in H.
    apply flat_map_escaped_inj, H.
  - intros other. rewrite !sanitizeHtml_flat. apply flat_map_app.
  - intros H. rewrite sanitizeHtml_flat.
    induction content as [|c r IH]; simpl; [reflexivity|].
    unfold escaped at 1. rewrite (H c) by (left; reflexivity). simpl.
    f_equal. apply IH. intros c' Hc'. apply H. right. exact Hc'.
  - rewrite sanitizeHtml_flat.
    induction content as [|c r IH]; simpl; [lia|].
    rewrite length_app. pose proof (escaped_not_nil c).
    destruct (escaped c); [congruence|]. simpl. lia.
Qed.

Lemma sanitizeHtml_escapes_markup_witness :
  sanitizeHtml (js "plain text") = js "plain text".
Proof.
  apply (proj1 (proj2 (proj2 (proj2 (sanitizeHtml_escapes_markup _))))).
  intros c H. simpl in H.
  repeat (destruct H as [<-|H]; [reflexivity|]). destruct H.
Defined.

Lemma startsWith_prefix a b t :
  JS.startsWith a t = true -> JS.startsWith (a ++ b) t = true.
Proof.
  revert a; induction t as [|y t IH]; intros a H; [reflexivity|].
  destruct a as [|x a]; simpl in *; [discriminate|].
  apply andb_true_iff in H. destruct H as [-> H]. simpl. apply IH, H.
Qed.

Lemma includes_prefix a b t :
  JSX.includes a t = true -> JSX.includes (a ++ b) t = true.
Proof.
  induction a as [|x a IH]; intros H.
  - simpl in H. rewrite orb_false_r in H. destruct t; [|discriminate].
    apply includes_start, startsWith_nil.
  - simpl in H. apply orb_true_iff in H. destruct H as [H|H].
    + apply includes_start. apply (startsWith_prefix _ b) in H. exact H.
    + simpl app. apply includes_cons, IH, H.
Qed.

Lemma dropLeading_suffix s :
  exists u, s = u ++ dropLeadingSlashes s.
Proof.
  induction s as [|c r [u IH]]; simpl; [exists []; reflexivity|].
  destruct (N.eqb c JSX.SLASH).
  - exists (c :: u). simpl. congruence.
  - exists []. reflexivity.
Qed.

Lemma dropLeading_head s :
  JS.startsWith (dropLeadingSlashes s) [JSX.SLASH] = false.
Proof.
  induction s as [|c r IH]; simpl; [reflexivity|].
  destruct (N.eqb c JSX.SLASH) eqn:E; [exact IH|].
  simpl. rewrite E. reflexivity.
Qed.

Lemma dropLeading_id s :
  JS.startsWith s [JSX.SLASH] = false -> dropLeadingSlashes s = s.
Proof.
  destruct s as [|c r]; simpl; [reflexivity|].
  destruct (N.eqb c JSX.SLASH); [discriminate|reflexivity].
Qed.

Lemma dropTrailing_prefix s :
  exists t, s = dropTrailingSlashes s ++ t.
Proof.
  unfold dropTrailingSlashes.
  destruct (dropLeading_suffix (rev s)) as [u Hu].
  exists (rev u). rewrite <- rev_app_distr, <- Hu, rev_involutive.
  reflexivity.
Qed.

Lemma collapse_head s p :
  JS.startsWith (collapseSlashes s) [p] = JS.startsWith s [p].
Proof.
  induction s as [|c r IH]; [reflexivity|]. cbn [collapseSlashes].
  destruct (N.eqb c JSX.SLASH) eqn:E; [|reflexivity].
  destruct r as [|d r']; [reflexivity|].
  destruct (N.eqb d JSX.SLASH) eqn:E'; [|reflexivity].
  rewrite IH. apply N.eqb_eq in E, E'. subst. reflexivity.
Qed.

Lemma includes_pair c r a b :
  JSX.includes (c :: r) [a; b]
  = N.eqb c a && JS.startsWith r [b] || JSX.includes r [a; b].
Proof. reflexivity. Qed.

Lemma collapse_pairs s a b :
  N.eqb JSX.SLASH a && N.eqb JSX.SLASH b = false ->
  JSX.includes (collapseSlashes s) [a; b] = JSX.includes s [a; b].
Proof.
  intros Hab. induction s as [|c r IH]; [reflexivity|].
  cbn [collapseSlashes].
  assert (Hkeep : JSX.includes (c :: collapseSlashes r) [a; b]
                  = JSX.includes (c :: r) [a; b]).
  { rewrite !includes_pair, collapse_head, IH. reflexivity. }
  destruct (N.eqb c JSX.SLASH) eqn:E; [|exact Hkeep].
  destruct r as [|d r']; [reflexivity|].
  destruct (N.eqb d JSX.SLASH) eqn:E'; [|exact Hkeep].
  rewrite IH, (includes_pair c). apply N.eqb_eq in E, E'. subst c d.
  cbn [JS.startsWith]. rewrite andb_true_r, Hab. reflexivity.
Qed.

Lemma collapse_no_double s :
  JSX.includes (collapseSlashes s) [JSX.SLASH; JSX.SLASH] = false.
Proof.
  induction s as [|c r IH]; [reflexivity|]. cbn [collapseSlashes].
  assert (Hkeep : JS.startsWith r [JSX.SLASH] = false \/
                  N.eqb c JSX.SLASH = false ->
                  JSX.includes (c :: collapseSlashes r)
                    [JSX.SLASH; JSX.SLASH] = false).
  { intros H. rewrite includes_pair, collapse_head, IH, orb_false_r.
    destruct H as [->| ->]; [apply andb_false_r|reflexivity]. }
  destruct (N.eqb c JSX.SLASH) eqn:E; [|apply Hkeep; auto].
  destruct r as [|d r']; [apply Hkeep; left; reflexivity|].
  destruct (N.eqb d JSX.SLASH) eqn:E'; [exact IH|].
  apply Hkeep. left. simpl. rewrite E'. reflexivity.
Qed.

Lemma collapse_In s c : In c (collapseSlashes s) -> In c s.
Proof.
  induction s as [|x r IH]; [tauto|]. cbn [collapseSlashes].
  destruct (N.eqb x JSX.SLASH).
  - destruct r as [|d r']; [tauto|].
    destruct (N.eqb d JSX.SLASH).
    + intros H. right. apply IH, H.
    + intros [H|H]; [left; exact H|right; apply IH, H].
  - intros [H|H]; [left; exact H|right; apply IH, H].
Qed.

Lemma trimStart_suffix s : exists u, s = u ++ JS.trimStart s.
Proof.
  induction s as [|c r [u IH]]; simpl; [exists []; reflexivity|].
  destruct (JS.isWhiteSpace c).
  - exists (c :: u). simpl. congruence.
  - exists []. reflexivity.
Qed.

Lemma trim_In s c : In c (JS.trim s) -> In c s.
Proof.
  unfold JS.trim, JS.trimEnd. intros H. apply in_rev in H.
  destruct (trimStart_suffix (rev (JS.trimStart s))) as [u Hu].
  assert (H1 : In c (rev (JS.trimStart s))).
  { rewrite Hu. apply in_or_app. right. exact H. }
  apply in_rev in H1. destruct (trimStart_suffix s) as [v Hv].
  rewrite Hv. apply in_or_app. right. exact H1.
Qed.

Lemma slashes_no_backslash s : ~ In JSX.BACKSLASH (JSX.slashes s).
Proof.
  unfold JSX.slashes. intros H. apply in_map_iff in H.
  destruct H as (c & Hc & _).
  destruct (N.eqb c JSX.BACKSLASH) eqn:E; [discriminate|].
  apply N.eqb_neq in E. congruence.
Qed.

Lemma slashes_In_NUL s : In JSX.NUL (JSX.slashes s) -> In JSX.NUL s.
Proof.
  unfold JSX.slashes. intros H. apply in_map_iff in H.
  destruct H as (c & Hc & Hin).
  destruct (N.eqb c JSX.BACKSLASH); [discriminate|]. congruence.
Qed.

Lemma removeNul_id s : ~ In JSX.NUL s -> removeNul s = s.
Proof.
  unfold removeNul. induction s as [|c r IH]; simpl; intros H; [reflexivity|].
  destruct (N.eqb c JSX.NUL) eqn:E.
  - apply N.eqb_eq in E. tauto.
  - simpl. rewrite IH by tauto. reflexivity.
Qed.

(** X19.  A path returned by sanitizeFilePath is never empty, holds no
    backslash and no NUL, neither starts nor ends with a slash and has
    no doubled slash; isValidFilePath is true exactly when a path is
    returned.  For an input without NUL the returned path also has no
    '..' anywhere and no drive-letter prefix.  That restriction is
    needed: the traversal check runs before NUL removal, so a NUL
    between two dots passes it and the result then begins with '..'. *)
Theorem sanitizeFilePath_result_is_relative :
  (forall path r,
     sanitizeFilePath path = Some r ->
     r <> []
     /\ ~ In JSX.BACKSLASH r
     /\ ~ In JSX.NUL r
     /\ JS.startsWith r (js "/") = false
     /\ JSX.endsWith r (js "/") = false
     /\ JSX.includes r (js "//") = false
     /\ isValidFilePath path = true
     /\ (~ In JSX.NUL path ->
         JSX.includes r (js "..") = false /\ hasDrivePrefix r = false))
  /\ (forall path, sanitizeFilePath path = None ->
        isValidFilePath path = false)
  /\ sanitizeFilePath [JSX.DOT; JSX.NUL; JSX.DOT; JSX.SLASH; 120%N]
     = Some (js "../x").
Proof.
  split; [|split; [|reflexivity]].
  2: { intros path H. unfold isValidFilePath. rewrite H. reflexivity. }
  intros path r H. assert (Hv : isValidFilePath path = true).
  { unfold isValidFilePath. rewrite H. reflexivity. }
  unfold sanitizeFilePath in H.
  destruct (JS.falsy path); [discriminate|]. cbv zeta in H.
  set (t := JS.trim (JSX.slashes path)) in *.
  destruct (JSX.includes t (js "..")) eqn:Hdots; [discriminate|].
  destruct (JS.startsWith t (js "/")) eqn:Hstart; [discriminate|].
  destruct (hasDrivePrefix t) eqn:Hdrive; [discriminate|]. cbn [orb] in H.
  set (x := collapseSlashes (dropLeadingSlashes (removeNul t))) in *.
  destruct (JS.falsy (dropTrailingSlashes x)) eqn:Hf; [discriminate|].
  injection H as <-.
  destruct (dropTrailing_prefix x) as [rest Hx].
  assert (Hne : dropTrailingSlashes x <> []).
  { intros E. rewrite E in Hf. discriminate. }
  assert (Hin : forall c, In c (dropTrailingSlashes x) -> In c (removeNul t)).
  { intros c Hc.
    assert (H1 : In c x) by (rewrite Hx; apply in_or_app; auto).
    apply collapse_In in H1.
    destruct (dropLeading_suffix (removeNul t)) as [u Hu].
    rewrite Hu. apply in_or_app. right. exact H1. }
  assert (Hhead : forall p, JS.startsWith (dropTrailingSlashes x) [p]
                            = JS.startsWith x [p]).
  { intros p. rewrite Hx at 2.
    destruct (dropTrailingSlashes x) as [|c r']; [congruence|].
    reflexivity. }
  split; [exact Hne|]. split; [|split; [|split; [|split; [|split; [|split]]]]].
  - intros Hb. apply Hin in Hb. apply filter_In in Hb.
    destruct Hb as [Hb _]. apply trim_In in Hb.
    apply (slashes_no_backslash _ Hb).
  - intros Hn. apply Hin in Hn. apply filter_In in Hn.
    destruct Hn as [_ Hn]. discriminate.
  - change (js "/") with [JSX.SLASH]. rewrite Hhead. unfold x.
    rewrite collapse_head. apply dropLeading_head.
  - unfold JSX.endsWith, dropTrailingSlashes. rewrite rev_involutive.
    apply dropLeading_head.
  - destruct (JSX.includes (dropTrailingSlashes x) (js "//")) eqn:E;
      [|reflexivity].
    apply (includes_prefix _ rest) in E. rewrite <- Hx in E.
    unfold x in E. change (js "//") with [JSX.SLASH; JSX.SLASH] in E.
    rewrite collapse_no_double in E. discriminate.
  - exact Hv.
  - intros Hnul.
    assert (Ht : removeNul t = t).
    { apply removeNul_id. intros Hn. apply trim_In, slashes_In_NUL in Hn.
      contradiction. }
    assert (Hxt : x = collapseSlashes t).
    { unfold x. rewrite Ht, dropLeading_id by exact Hstart. reflexivity. }
    split.
    + destruct (JSX.includes (dropTrailingSlashes x) (js "..")) eqn:E;
        [|reflexivity].
      apply (includes_prefix _ rest) in E. rewrite <- Hx, Hxt in E.
      change (js "..") with [JSX.DOT; JSX.DOT] in E.
      rewrite collapse_pairs in E by reflexivity.
      change [JSX.DOT; JSX.DOT] with (js "..") in E. congruence.
    + destruct (hasDrivePrefix (dropTrailingSlashes x)) eqn:E;
        [|reflexivity].
      assert (E' : hasDrivePrefix x = true).
      { rewrite Hx. destruct (dropTrailingSlashes x) as [|c [|d r']];
          try discriminate. exact E. }
      rewrite Hxt in E'. clear - E' Hdrive. exfalso.
      destruct t as [|c r]; [discriminate|]. cbn [collapseSlashes] in E'.
      destruct (N.eqb c JSX.SLASH) eqn:Ec.
      * apply N.eqb_eq in Ec. subst c.
        assert (Hs : forall s, hasDrivePrefix (JSX.SLASH :: s) = false)
          by (intros [|? ?]; reflexivity).
        destruct r as [|d r']; [discriminate|].
        destruct (N.eqb d JSX.SLASH) eqn:Ed.
        -- pose proof (collapse_head (d :: r') JSX.SLASH) as Hh.
           simpl JS.startsWith in Hh at 2. rewrite Ed in Hh.
           destruct (collapseSlashes (d :: r')) as [|c' r'']; [discriminate|].
           simpl in Hh. rewrite andb_true_r in Hh.
           apply N.eqb_eq in Hh. subst c'. rewrite Hs in E'. discriminate.
        -- rewrite Hs in E'. discriminate.
      * pose proof (collapse_head r COLON) as Hh.
        destruct (collapseSlashes r) as [|d' r'']; [discriminate|].
        cbn [hasDrivePrefix] in E'. apply andb_true_iff in E'.
        destruct E' as [El Ed]. cbn [JS.startsWith] in Hh.
        rewrite andb_true_r, Ed in Hh.
        destruct r as [|d r']; [discriminate Hh|].
        cbn [JS.startsWith hasDrivePrefix] in Hh, Hdrive.
        rewrite andb_true_r in Hh. rewrite <- Hh, El in Hdrive.
        discriminate.
Qed.

Lemma sanitizeFilePath_result_is_relative_witness :
  JSX.includes (js "notes/sub/a.md") (js "..") = false
  /\ hasDrivePrefix (js "notes/sub/a.md") = false.
Proof.
  refine (proj2 (proj2 (proj2 (proj2 (proj2 (proj2 (proj2
    (proj1 sanitizeFilePath_result_is_relative
       (js "notes\\sub//a.md/") (js "notes/sub/a.md") eq_refl)))))))
    _).
  simpl. intuition discriminate.
Defined.

(** X20.  truncateString returns a string that fits as it is.  A longer
    one is cut to its first maxLength - 3 code units followed by '...',
    which has exactly maxLength code units when maxLength is at least
    3; for a smaller maxLength the result is just '...', three code
    units and so longer than asked for.  The empty string is returned
    as it is whatever maxLength is. *)
Theorem truncateString_fits :
  forall str maxLength,
    ((JS.length str <= maxLength)%Z -> truncateString str maxLength = str)
    /\ ((maxLength < JS.length str)%Z -> (3 <= maxLength)%Z ->
        truncateString str maxLength
        = firstn (Z.to_nat (maxLength - 3)) str ++ js "..."
        /\ JS.length (truncateString str maxLength) = maxLength)
    /\ (str <> [] -> (maxLength < JS.length str)%Z -> (maxLength < 3)%Z ->
        truncateString str maxLength = js "...")
    /\ truncateString [] maxLength = [].
Proof.
  intros str maxLength. unfold truncateString, JS.length.
  assert (Hsub : forall k, (0 <= k <= Z.of_nat (List.length str))%Z ->
            JS.substring str 0 k = firstn (Z.to_nat k) str).
  { intros k Hk. unfold JS.substring, JS.clamp, JS.length.
    rewrite Z.max_l by lia. rewrite Z.min_l by lia. simpl Z.to_nat.
    rewrite Z.max_l by lia. rewrite Z.min_l by lia.
    rewrite Nat.max_0_l, Nat.min_0_l, Nat.sub_0_r. reflexivity. }
  split; [|split; [|split]].
  - intros H. destruct str as [|c r]; [reflexivity|]. cbn [JS.falsy].
    apply Z.leb_le in H. rewrite H. reflexivity.
  - intros Hlong Hmax. destruct str as [|c r]; [simpl in Hlong; lia|].
    cbn [JS.falsy]. apply Z.leb_gt in Hlong. rewrite Hlong.
    apply Z.leb_gt in Hlong. rewrite Hsub by lia. split; [reflexivity|].
    rewrite length_app, length_firstn.
    change (List.length (js "...")) with 3%nat.
    remember (List.length (c :: r)) as n. lia.
  - intros Hne Hlong Hmax. destruct str as [|c r]; [congruence|].
    cbn [JS.falsy]. apply Z.leb_gt in Hlong. rewrite Hlong.
    unfold JS.substring, JS.clamp, JS.length.
    rewrite (Z.max_r (maxLength - 3)) by lia.
    rewrite Z.max_l by lia. rewrite !Z.min_l by lia. reflexivity.
  - reflexivity.
Qed.

Lemma truncateString_fits_witness :
  truncateString (js "abcdefgh") 6 = js "abc..."
  /\ truncateString (js "abcdefgh") 2 = js "...".
Proof.
  split.
  - apply (proj1 (proj2 (truncateString_fits (js "abcdefgh") 6)));
      [reflexivity|lia].
  - apply (proj1 (proj2 (proj2 (truncateString_fits (js "abcdefgh") 2))));
      [discriminate|reflexivity|lia].
Defined.

End UtilsFacts.

(** ** Requests and plain responses *)

Section AIClientOpsFacts.
Import AIClient AIClientOps.

Lemma attempt_settled fetch remaining attempt lastError w :
  retried (fetch (fetches w)) = false ->
  attempts fetch (S remaining) attempt lastError w
  = (outcomeOf (fetch (fetches w)), fetched w).
Proof.
  intros Hr. unfold outcomeOf.
  destruct (fetch (fetches w)) as [response| |] eqn:Hf; try discriminate.
  simpl in Hr. destruct (ok response) eqn:Hok.
  - apply attempt_succeeds; assumption.
  - simpl in Hr.
    rewrite attempt_fatal with (response := response); auto.
    destruct (type (classifyError response)); auto; discriminate.
Qed.

Lemma classifyError_message response :
  message (classifyError response) <> js "Unknown error".
Proof.
  unfold classifyError.
  destruct (_ || _); [discriminate|].
  destruct (_ =? 429)%Z; [discriminate|].
  destruct (_ >=? 500)%Z; discriminate.
Qed.

(** X21.  The outcome of makeRequest is decided by at most the first
    three fetch outcomes.  The loop is left after the first attempt that
    is not retried, or after the third; it returns that attempt's
    response when it is ok and otherwise throws that attempt's own
    error.  Before each further attempt it waits 1000 ms, then 2000 ms;
    the third backoff delay is never awaited.  A returned response is
    always ok, and the fallback error 'Unknown error' is never
    thrown. *)
Theorem makeRequest_closed_form :
  forall fetch,
    makeRequest fetch
    = (outcomeOf (fetch (attemptsMade fetch - 1)%nat),
       {| fetches := attemptsMade fetch;
          delays := firstn (attemptsMade fetch - 1)
                      [Some 1000; Some 2000]%Z |})
    /\ (1 <= attemptsMade fetch <= 3)%nat
    /\ (forall response,
          fst (makeRequest fetch) = Returns response -> ok response = true)
    /\ (forall error,
          fst (makeRequest fetch) = Throws error ->
          error = errorOf (fetch (attemptsMade fetch - 1)%nat)
          /\ message error <> js "Unknown error").
Proof.
  intros fetch.
  assert (H : makeRequest fetch
    = (outcomeOf (fetch (attemptsMade fetch - 1)%nat),
       {| fetches := attemptsMade fetch;
          delays := firstn (attemptsMade fetch - 1)
                      [Some 1000; Some 2000]%Z |})).
  { unfold attemptsMade, makeRequest. change MAX_RETRIES with 3%nat.
    destruct (retried (fetch 0%nat)) eqn:R0; cbn [negb].
    - rewrite attempt_retried_again; [|exact R0|repeat constructor].
      destruct (retried (fetch 1%nat)) eqn:R1; cbn [negb].
      + rewrite attempt_retried_again; [|exact R1|repeat constructor].
        destruct (retried (fetch 2%nat)) eqn:R2.
        * rewrite (attempt_retried_last fetch 0); [|exact R2].
          cbn [fetches delay fetched noEffects].
          unfold outcomeOf. simpl Nat.sub.
          destruct (fetch 2%nat) as [response| |]; try reflexivity.
          simpl in R2. apply andb_true_iff in R2. destruct R2 as [Hok _].
          apply negb_true_iff in Hok. rewrite Hok. reflexivity.
        * rewrite attempt_settled by exact R2. reflexivity.
      + rewrite attempt_settled by exact R1. reflexivity.
    - rewrite attempt_settled by exact R0. reflexivity. }
  split; [exact H|]. split.
  { unfold attemptsMade. destruct (negb _); [lia|].
    destruct (negb _); lia. }
  rewrite H. cbn [fst]. unfold outcomeOf. split.
  - intros response Hr.
    destruct (fetch (attemptsMade fetch - 1)%nat) as [r| |];
      try discriminate.
    destruct (ok r) eqn:Hok; [|discriminate]. congruence.
  - intros error He.
    assert (error = errorOf (fetch (attemptsMade fetch - 1)%nat)).
    { destruct (fetch (attemptsMade fetch - 1)%nat) as [r| |];
        [destruct (ok r)|..]; congruence. }
    split; [assumption|]. subst error.
    destruct (fetch (attemptsMade fetch - 1)%nat) as [r| |];
      [apply classifyError_message|discriminate..].
Qed.

Lemma makeRequest_closed_form_witness :
  fst (makeRequest (scripted [answering 404; Aborts; answering 200]))
  = Returns {| status := 200; retryAfterHeader := None; body := None |}
  /\ ok {| status := 200; retryAfterHeader := None; body := None |} = true.
Proof.
  pose (fetch := scripted [answering 404; Aborts; answering 200]).
  assert (H : fst (makeRequest fetch)
              = Returns {| status := 200; retryAfterHeader := None;
                           body := None |}) by reflexivity.
  split; [exact H|].
  exact (proj1 (proj2 (proj2 (makeRequest_closed_form fetch))) _ H).
Defined.

Lemma filter_isSystem_role messages w :
  In w (map (fun msg =>
               {| wireRole :=
                    match ChatMessage.role msg with
                    | assistant => js "assistant"
                    | _ => js "user"
                    end;
                  wireContent := ChatMessage.content msg |})
            (filter (fun m => negb (isSystem m)) messages)) ->
  wireRole w = js "user" \/ wireRole w = js "assistant".
Proof.
  intros H. apply in_map_iff in H. destruct H as (m & <- & _).
  simpl. destruct (ChatMessage.role m); auto.
Qed.

Lemma filter_split_length (A : Type) (p : A -> bool) l :
  (List.length (filter p l) + List.length (filter (fun x => negb (p x)) l)
   = List.length l)%nat.
Proof.
  induction l as [|x r IH]; simpl; [reflexivity|].
  destruct (p x); simpl; lia.
Qed.

(** X22.  The request body follows the provider type.  For an
    Anthropic provider no entry of the messages array has the role
    system: the system messages, the context message first, are taken
    out and their contents joined by line feeds form the system field,
    which is absent only when there is none; the other messages are
    sent in order as user or assistant, so no message is lost.  For an
    OpenAI or custom provider every message is sent in order with its
    own role and content, after the context message when there are
    context items.  In both cases the model identifier, the stream flag
    and max_tokens 2000 are sent. *)
Theorem formatRequest_by_provider :
  forall provider model messages contextItems stream idTime timestamp,
    let sent := prependContext messages contextItems idTime timestamp in
    match formatRequest provider model messages contextItems stream
            idTime timestamp with
    | AnthropicBody r =>
        AIProvider.type provider = anthropic
        /\ a_model r = AIModel.modelIdentifier model
        /\ a_stream r = stream /\ a_max_tokens r = 2000%Z
        /\ (forall w, In w (a_messages r) ->
              wireRole w = js "user" \/ wireRole w = js "assistant")
        /\ map wireContent (a_messages r)
           = map ChatMessage.content
               (filter (fun m => negb (isSystem m)) sent)
        /\ (List.length (a_messages r)
            + List.length (filter isSystem sent) = List.length sent)%nat
        /\ a_system r
           = match filter isSystem sent with
             | [] => None
             | systemMessages =>
                 Some (JS.join [JS.LF]
                         (map ChatMessage.content systemMessages))
             end
        /\ (contextItems <> [] ->
            exists rest,
              a_system r = Some (js "Context:" ++ [JS.LF; JS.LF] ++ rest))
    | OpenAIBody r =>
        AIProvider.type provider <> anthropic
        /\ o_model r = AIModel.modelIdentifier model
        /\ o_stream r = stream /\ o_max_tokens r = 2000%Z
        /\ map wireRole (o_messages r)
           = map (fun m => roleName (ChatMessage.role m)) sent
        /\ map wireContent (o_messages r) = map ChatMessage.content sent
        /\ List.length (o_messages r)
           = (List.length messages
              + match contextItems with [] => 0 | _ => 1 end)%nat
    end.
Proof.
  intros provider model messages contextItems stream idTime timestamp sent.
  assert (Hopen :
    let r := formatOpenAIRequest model sent stream in
    o_model r = AIModel.modelIdentifier model
    /\ o_stream r = stream /\ o_max_tokens r = 2000%Z
    /\ map wireRole (o_messages r)
       = map (fun m => roleName (ChatMessage.role m)) sent
    /\ map wireContent (o_messages r) = map ChatMessage.content sent
    /\ List.length (o_messages r)
       = (List.length messages
          + match contextItems with [] => 0 | _ => 1 end)%nat).
  { cbn [formatOpenAIRequest o_model o_stream o_max_tokens o_messages].
    rewrite !map_map, length_map. repeat split.
    unfold sent, prependContext. destruct contextItems; simpl; lia. }
  unfold formatRequest. fold sent.
  destruct (AIProvider.type provider) eqn:Ety.
  - split; [discriminate|exact Hopen].
  - cbn [formatAnthropicRequest a_model a_stream a_max_tokens a_messages
         a_system].
    split; [reflexivity|]. split; [reflexivity|]. split; [reflexivity|].
    split; [reflexivity|]. split; [apply filter_isSystem_role|].
    split; [rewrite map_map; reflexivity|].
    split; [rewrite length_map; pose proof (filter_split_length isSystem sent);
            lia|].
    split.
    + destruct (filter isSystem sent); reflexivity.
    + intros Hne. unfold sent, prependContext.
      destruct contextItems as [|item items]; [congruence|].
      cbn [List.length Nat.eqb filter isSystem ChatMessage.role map
           ChatMessage.content].
      match goal with
      | |- context [JS.join ?sep (?x :: ?r)] =>
          destruct (join_starts_with_first sep x r) as [t Ht]; rewrite Ht
      end.
      cbn [Nat.ltb Nat.leb]. eexists. rewrite <- !app_assoc. reflexivity.
  - split; [discriminate|exact Hopen].
Qed.

Lemma formatRequest_by_provider_witness :
  let provider :=
    {| AIProvider.id := js "p"; AIProvider.name := js "A";
       AIProvider.baseUrl := js "u"; AIProvider.apiKey := js "k";
       AIProvider.enabled := true; AIProvider.type := anthropic |} in
  let model :=
    {| AIModel.id := js "m"; AIModel.name := js "M";
       AIModel.providerId := js "p"; AIModel.modelIdentifier := js "claude";
       AIModel.isDefault := true |} in
  let item :=
    {| ContextItem.id := js "c"; ContextItem.type := file;
       ContextItem.path := Some (js "a.md"); ContextItem.content := js "text";
       ContextItem.displayName := js "a.md" |} in
  match formatRequest provider model [] [item] false 1 2 with
  | AnthropicBody r =>
      exists rest,
        a_system r = Some (js "Context:" ++ [JS.LF; JS.LF] ++ rest)
  | OpenAIBody _ => False
  end.
Proof.
  intros provider model item.
  pose proof (formatRequest_by_provider provider model [] [item] false 1 2)
    as H.
  cbv zeta in H.
  destruct (formatRequest provider model [] [item] false 1 2) as [r|r].
  - destruct H as [H _]. apply H. reflexivity.
  - destruct H as (_ & _ & _ & _ & _ & _ & _ & _ & H).
    apply H. discriminate.
Defined.

(** X23.  handleResponse never returns an empty or otherwise falsy
    value.  It returns the content of the first choice's message when
    that is truthy, taking it before the Anthropic shape, and else the
    text of the first content entry when that is truthy.  A body that
    offers neither, such as a completion whose content is the empty
    string, ends in the APIError 'Unexpected API response format' of
    type unknown rather than in an empty answer; a body that is the
    JSON null ends in a TypeError, and a body that is not JSON in a
    SyntaxError. *)
Theorem handleResponse_never_empty :
  (forall data,
     match handleData data with
     | Reply v =>
         JSON.truthy v = true
         /\ ((messageContent data = Some v)
             \/ (JSON.truthyOrUndefined (messageContent data) = false
                 /\ contentText data = Some v))
     | RaiseAPIError e =>
         e = unexpectedFormat
         /\ JSON.truthyOrUndefined (messageContent data) = false
         /\ JSON.truthyOrUndefined (contentText data) = false
     | RaiseTypeError => data = JSON.JNull
     | RaiseSyntaxError => False
     end)
  /\ (forall data v,
        data <> JSON.JNull -> messageContent data = Some v ->
        JSON.truthy v = true -> handleData data = Reply v)
  /\ (forall text others more,
        handleData
          (JSON.JObject
             [(js "choices",
               JSON.JArray
                 (JSON.JObject
                    [(js "message",
                      JSON.JObject
                        ((js "role", JSON.JString (js "assistant"))
                         :: (js "content", JSON.JString text) :: more))]
                  :: others))])
        = match JSON.lookup (js "content") more with
          | Some later =>
              if JSON.truthy later then Reply later
              else RaiseAPIError unexpectedFormat
          | None =>
              if JS.falsy text then RaiseAPIError unexpectedFormat
              else Reply (JSON.JString text)
          end)
  /\ (forall bodyText,
        JSON.parse bodyText = None ->
        handleResponse bodyText = RaiseSyntaxError)
  /\ (forall bodyText data,
        JSON.parse bodyText = Some data ->
        handleResponse bodyText = handleData data).
Proof.
  split; [|split; [|split; [|split]]].
  - intros data. unfold handleData.
    destruct (messageContent data) as [v|] eqn:Hm;
      [destruct (JSON.truthy v) eqn:Hv|];
      (destruct (contentText data) as [t|] eqn:Ht;
       [destruct (JSON.truthy t) eqn:Htt|]);
      destruct data; simpl; try rewrite Hv; try rewrite Htt; auto;
      try (unfold messageContent in Hm; simpl in Hm; discriminate);
      try (unfold contentText in Ht; simpl in Ht; discriminate).
  - intros data v Hn Hm Hv. unfold handleData. rewrite Hm, Hv.
    destruct data; congruence.
  - intros text others more. unfold handleData, messageContent, contentText.
    simpl. destruct (JSON.lookup _ more) as [later|].
    + destruct (JSON.truthy later); reflexivity.
    + destruct text; reflexivity.
  - intros bodyText H. unfold handleResponse. rewrite H. reflexivity.
  - intros bodyText data H. unfold handleResponse. rewrite H. reflexivity.
Qed.

Lemma handleResponse_never_empty_witness :
  handleData
    (JSON.JObject
       [(js "choices",
         JSON.JArray
           [JSON.JObject
              [(js "message",
                JSON.JObject [(js "content", JSON.JString (js "Hi"))])]])])
  = Reply (JSON.JString (js "Hi"))
  /\ handleResponse (js "not json") = RaiseSyntaxError.
Proof.
  split.
  - apply (proj1 (proj2 handleResponse_never_empty));
      [discriminate|reflexivity|reflexivity].
  - apply (proj1 (proj2 (proj2 (proj2 handleResponse_never_empty)))).
    vm_compute. reflexivity.
Defined.

End AIClientOpsFacts.

(** ** Live selection tracking *)

Section LiveSelectionOpsFacts.
Import LiveSelection LiveSelectionOps Plugin.

Lemma blank_test s :
  JS.falsy s || (JS.length (JS.trim s) =? 0)%Z = blank s.
Proof.
  unfold blank. destruct (forallb JS.isWhiteSpace s) eqn:E.
  - apply trim_nil in E. rewrite E. apply orb_true_r.
  - apply orb_false_iff. split.
    + destruct s; [discriminate|reflexivity].
    + destruct (JS.trim s) eqn:Et.
      * apply trim_nil in Et. congruence.
      * unfold JS.length. simpl. lia.
Qed.

Lemma nonblank_test s :
  negb (JS.falsy s) && (0 <? JS.length (JS.trim s))%Z = negb (blank s).
Proof.
  rewrite <- blank_test. destruct s as [|c r]; [reflexivity|].
  cbn [JS.falsy negb andb orb]. unfold JS.length.
  destruct (JS.trim (c :: r)); simpl; [reflexivity|]. reflexivity.
Qed.

Lemma setSelection_blank m text path now :
  blank text = true -> setSelection m text path now = clearSelection m.
Proof. intros H. unfold setSelection. rewrite blank_test, H. reflexivity. Qed.

Lemma setSelection_nonblank m text path now :
  blank text = false ->
  setSelection m text path now
  = {| currentSelection :=
         Some {| content := text; sourcePath := path; timestamp := now |};
       onChangeCallback := onChangeCallback m;
       fired := fired m ++ match onChangeCallback m with
                           | Some cb => [cb]
                           | None => []
                           end |}.
Proof.
  intros H. unfold setSelection. rewrite blank_test, H.
  unfold notifyChange. cbn [onChangeCallback currentSelection fired].
  destruct (onChangeCallback m); [reflexivity|].
  rewrite app_nil_r. reflexivity.
Qed.

Lemma clearSelection_cleared m : currentSelection (clearSelection m) = None.
Proof.
  unfold clearSelection, notifyChange.
  destruct (currentSelection m); [|reflexivity].
  cbn [onChangeCallback]. destruct (onChangeCallback m); reflexivity.
Qed.

Lemma perform_meaningful m c : meaningful m -> meaningful (perform m c).
Proof.
  intros H. destruct c as [text path now| |cb]; simpl.
  - destruct (blank text) eqn:E.
    + rewrite setSelection_blank by exact E.
      intros sel Hsel. rewrite clearSelection_cleared in Hsel. discriminate.
    + rewrite setSelection_nonblank by exact E.
      intros sel Hsel. injection Hsel as <-. exact E.
  - intros sel Hsel. rewrite clearSelection_cleared in Hsel. discriminate.
  - exact H.
Qed.

(** X24.  The manager never holds a blank selection.  After any
    sequence of setSelection, clearSelection and setOnChangeCallback
    calls the stored selection, if any, has a character other than
    white space, so getContent is empty exactly when there is no
    selection.  Setting a selection that is not blank stores it
    verbatim with its source path and the time of the call, whatever
    was stored before, and invokes the registered callback exactly
    once; clearing leaves no selection, and clearing again changes
    nothing. *)
Theorem live_selection_never_blank :
  forall m calls,
    meaningful m ->
    let m' := performAll m calls in
    meaningful m'
    /\ (getContent m' = [] <-> hasSelection m' = false)
    /\ (forall text path now,
          blank text = false ->
          getSelection (setSelection m' text path now)
          = Some {| content := text; sourcePath := path; timestamp := now |}
          /\ getContent (setSelection m' text path now) = text
          /\ fired (setSelection m' text path now)
             = fired m' ++ match onChangeCallback m' with
                           | Some cb => [cb]
                           | None => []
                           end)
    /\ hasSelection (clearSelection m') = false
    /\ clearSelection (clearSelection m') = clearSelection m'.
Proof.
  intros m calls Hm m'.
  assert (H : meaningful m').
  { unfold m', performAll. clear m'. revert m Hm.
    induction calls as [|c r IH]; intros m Hm; simpl; [exact Hm|].
    apply IH, perform_meaningful, Hm. }
  split; [exact H|]. split; [|split; [|split]].
  - unfold getContent, hasSelection.
    destruct (currentSelection m') as [sel|] eqn:E; [|tauto].
    split; [|discriminate]. intros Hc. specialize (H sel E).
    rewrite Hc in H. discriminate.
  - intros text path now Hb. rewrite setSelection_nonblank by exact Hb.
    repeat split.
  - unfold hasSelection. rewrite clearSelection_cleared. reflexivity.
  - apply clearSelection_without_selection, clearSelection_cleared.
Qed.

Lemma live_selection_never_blank_witness :
  let m := performAll LiveSelection.initial
             [SetOnChangeCallback (Some 4%nat);
              SetSelection (js "first") None 1; ClearSelection] in
  getSelection (setSelection m (js " kept ") (Some (js "a.md")) 9)
  = Some {| content := js " kept "; sourcePath := Some (js "a.md");
            timestamp := 9 |}.
Proof.
  intros m.
  assert (H0 : meaningful LiveSelection.initial) by (intros sel; discriminate).
  exact (proj1 (proj1 (proj2 (proj2
    (live_selection_never_blank
       [SetOnChangeCallback (Some 4%nat);
        SetSelection (js "first") None 1; ClearSelection] H0)))
    (js " kept ") (Some (js "a.md")) 9%Z eq_refl)).
Defined.

Lemma handle_inStep p e : inStep p -> inStep (handle p e).
Proof.
  intros H. destruct e as [text path focus now|]; simpl.
  - unfold updateLiveSelection. rewrite nonblank_test.
    destruct (blank text) eqn:E; cbn [negb].
    + destruct (lastKnownSelection p) as [known|] eqn:Ek.
      * destruct focus; [|exact H]. unfold inStep.
        cbn [liveSelectionManager lastKnownSelection].
        rewrite clearSelection_cleared. exact I.
      * unfold inStep. cbn [liveSelectionManager lastKnownSelection].
        rewrite clearSelection_cleared. exact I.
    + unfold inStep. cbn [liveSelectionManager lastKnownSelection].
      rewrite setSelection_nonblank by exact E.
      cbn [currentSelection content sourcePath lk_content lk_sourcePath].
      auto.
  - unfold inStep, handleClearLiveSelection.
    cbn [liveSelectionManager lastKnownSelection].
    rewrite clearSelection_cleared. exact I.
Qed.

(** X25.  The plugin keeps the live selection and its last known
    selection in step: after any sequence of editor selection events
    and clear requests either both are absent or both hold the same
    text, which is not blank, and the same source path.  An editor
    event with an empty or blank selection while the editor does not
    have the focus leaves everything as it was and notifies nobody, so
    a selection survives the move to the chat input; with the focus in
    the editor the same event removes the selection.  An event with a
    selection that is not blank replaces the selection by it. *)
Theorem live_selection_survives_focus_loss :
  forall callback events,
    let p := handleAll (loaded callback) events in
    inStep p
    /\ (forall text path now,
          blank text = true ->
          updateLiveSelection p text path false now = p)
    /\ (forall text path now,
          blank text = true ->
          let p' := updateLiveSelection p text path true now in
          hasSelection (liveSelectionManager p') = false
          /\ lastKnownSelection p' = None)
    /\ (forall text path focus now,
          blank text = false ->
          let p' := updateLiveSelection p text path focus now in
          getSelection (liveSelectionManager p')
          = Some {| content := text; sourcePath := path; timestamp := now |}
          /\ lastKnownSelection p'
             = Some {| lk_content := text; lk_sourcePath := path |}).
Proof.
  intros callback events p.
  assert (H : inStep p).
  { unfold p, handleAll. clear p.
    assert (H0 : inStep (loaded callback)) by exact I.
    revert H0. generalize (loaded callback).
    induction events as [|e r IH]; intros q Hq; simpl; [exact Hq|].
    apply IH, handle_inStep, Hq. }
  split; [exact H|]. split; [|split].
  - intros text path now Hb. unfold updateLiveSelection.
    rewrite nonblank_test, Hb. cbn [negb].
    unfold inStep in H. destruct p as [lsm known].
    cbn [liveSelectionManager lastKnownSelection] in *.
    destruct known as [k|]; [reflexivity|].
    destruct (currentSelection lsm) eqn:E; [contradiction|].
    rewrite clearSelection_without_selection by exact E. reflexivity.
  - intros text path now Hb p'. unfold p', updateLiveSelection.
    rewrite nonblank_test, Hb. cbn [negb]. unfold hasSelection.
    destruct (lastKnownSelection p) eqn:Ek;
      cbn [liveSelectionManager lastKnownSelection];
      rewrite clearSelection_cleared; auto.
  - intros text path focus now Hb p'. unfold p', updateLiveSelection.
    rewrite nonblank_test, Hb. cbn [negb liveSelectionManager
                                    lastKnownSelection].
    rewrite setSelection_nonblank by exact Hb. split; reflexivity.
Qed.

Lemma live_selection_survives_focus_loss_witness :
  let p := handleAll (loaded (Some 1%nat))
             [EditorSelection (js "chosen text") (Some (js "n/a.md")) true 3]
  in
  updateLiveSelection p [] None false 4 = p.
Proof.
  intros p.
  exact (proj1 (proj2
    (live_selection_survives_focus_loss (Some 1%nat)
       [EditorSelection (js "chosen text") (Some (js "n/a.md")) true 3]))
    [] None 4%Z eq_refl).
Defined.

(** X26.  The request context is the permanent context with the live
    selection, when there is one, put first as a selection item named
    'Live Selection' or 'Live Selection from' the last segment of its
    source path; without a live selection it is the permanent context
    alone.  The client then opens the conversation with a system
    message whose content starts with 'Context:', a blank line, the
    bracketed item name and on the next line the selected text
    verbatim, before any permanent item. *)
Theorem live_selection_leads_request_context :
  forall contextManager live messages idTime timestamp,
    (currentSelection live = None ->
       getContextItemsWithLiveSelection contextManager live
       = Context.getActiveContext contextManager)
    /\ (forall sel,
          currentSelection live = Some sel ->
          getContextItemsWithLiveSelection contextManager live
          = liveSelectionItem sel :: Context.getActiveContext contextManager
          /\ exists contextMessage rest,
               AIClient.prependContext messages
                 (getContextItemsWithLiveSelection contextManager live)
                 idTime timestamp
               = contextMessage :: messages
               /\ ChatMessage.role contextMessage = system
               /\ ChatMessage.content contextMessage
                  = js "Context:" ++ [JS.LF; JS.LF] ++ js "["
                    ++ ContextItem.displayName (liveSelectionItem sel)
                    ++ js "]" ++ [JS.LF] ++ content sel ++ rest
               /\ (Context.getActiveContext contextManager = [] ->
                   rest = [])).
Proof.
  intros cm live messages idTime ts. unfold getContextItemsWithLiveSelection,
    hasSelection, getSelection. split.
  - intros ->. reflexivity.
  - intros sel ->. split; [reflexivity|].
    unfold AIClient.prependContext. cbn [List.length Nat.eqb map].
    destruct (Context.getActiveContext cm) as [|item items].
    + eexists _, []. split; [reflexivity|]. split; [reflexivity|].
      split; [|reflexivity].
      cbn [ChatMessage.content JS.join map]. unfold AIClient.renderItem.
      cbn [ContextItem.content ContextItem.displayName liveSelectionItem].
      rewrite app_nil_r. repeat rewrite <- app_assoc. reflexivity.
    + eexists _, _. split; [reflexivity|]. split; [reflexivity|].
      split; [|discriminate].
      cbn [ChatMessage.content map]. rewrite join_cons2.
      unfold AIClient.renderItem at 1.
      cbn [ContextItem.content ContextItem.displayName liveSelectionItem].
      repeat rewrite <- app_assoc. reflexivity.
Qed.

Lemma live_selection_leads_request_context_witness :
  let live :=
    {| currentSelection :=
         Some {| content := js "chosen"; sourcePath := Some (js "n/a.md");
                 timestamp := 3 |};
       onChangeCallback := None; fired := [] |} in
  map ContextItem.displayName
    (getContextItemsWithLiveSelection ContextOps.empty live)
  = [js "Live Selection from a.md"].
Proof.
  intros live.
  destruct (proj2 (live_selection_leads_request_context
                     ContextOps.empty live [] 0 0) _ eq_refl) as [H _].
  rewrite H. reflexivity.
Defined.

End LiveSelectionOpsFacts.

(** ** The settings tab *)

Section SettingsTabFacts.
Import SettingsTab.

(** X27.  maskApiKey shows at most the last four code units of a key.
    A key of four code units or fewer is shown as '****' alone, so
    nothing of it appears; a longer key is shown as '****' followed by
    its last four code units.  The result never has more than eight
    code units, and two keys longer than four with the same last four
    code units are shown alike, whatever else they contain. *)
Theorem maskApiKey_reveals_at_most_four :
  forall apiKey,
    ((List.length apiKey <= 4)%nat -> maskApiKey apiKey = js "****")
    /\ (forall hidden tail,
          apiKey = hidden ++ tail -> hidden <> [] ->
          List.length tail = 4%nat ->
          maskApiKey apiKey = js "****" ++ tail)
    /\ (List.length (maskApiKey apiKey) <= 8)%nat
    /\ (forall hidden hidden' tail,
          hidden <> [] -> hidden' <> [] -> List.length tail = 4%nat ->
          maskApiKey (hidden ++ tail) = maskApiKey (hidden' ++ tail)).
Proof.
  assert (Hlong : forall hidden tail,
            hidden <> [] -> List.length tail = 4%nat ->
            maskApiKey (hidden ++ tail) = js "****" ++ tail).
  { intros hidden tail Hh Ht. unfold maskApiKey, JS.length, sliceLast.
    rewrite length_app, Ht.
    destruct hidden as [|c r]; [congruence|]. cbn [app JS.falsy orb].
    replace (Z.of_nat (List.length (c :: r) + 4) <=? 4)%Z with false
      by (symmetry; apply Z.leb_gt; simpl List.length; lia).
    f_equal. change (c :: r ++ tail) with ((c :: r) ++ tail).
    replace (List.length (c :: r) + 4 - 4)%nat with (List.length (c :: r))
      by lia.
    rewrite skipn_app, skipn_all, Nat.sub_diag. reflexivity. }
  intros apiKey. split; [|split; [|split]].
  - intros H. unfold maskApiKey, JS.length.
    replace (Z.of_nat (List.length apiKey) <=? 4)%Z with true
      by (symmetry; apply Z.leb_le; lia).
    rewrite orb_true_r. reflexivity.
  - intros hidden tail -> Hh Ht. apply Hlong; assumption.
  - unfold maskApiKey, sliceLast.
    destruct (_ || _); [simpl; lia|].
    rewrite length_app, length_skipn. simpl List.length at 1. lia.
  - intros hidden hidden' tail Hh Hh' Ht.
    rewrite !Hlong by assumption. reflexivity.
Qed.

Lemma maskApiKey_reveals_at_most_four_witness :
  maskApiKey (js "sk-secret-1234") = js "****1234"
  /\ maskApiKey (js "abc") = js "****".
Proof.
  split.
  - apply (proj1 (proj2 (maskApiKey_reveals_at_most_four _))
             (js "sk-secret-") (js "1234"));
      [reflexivity|discriminate|reflexivity].
  - apply (proj1 (maskApiKey_reveals_at_most_four _)). simpl. lia.
Defined.

End SettingsTabFacts.

(** ** Commands and sending a message *)

Section SendFacts.
Import ChatState ChatStateOps Settings PluginSend.

(** X28.  The chat-with-selection command never fails on the selection:
    its own test for an empty or blank selection is the one by which
    addSelection rejects, so a blank selection only opens the chat and
    leaves the context as it is, and any other selection is stored as a
    selection item with its text verbatim and its source path. *)
Theorem chatWithSelection_never_rejected :
  forall contextManager selected sourcePath now rnd,
    let result :=
      Commands.chatWithSelection contextManager selected sourcePath now rnd in
    fst result = ContextOps.Ok tt
    /\ (forallb JS.isWhiteSpace selected = true ->
        snd result = contextManager)
    /\ (forallb JS.isWhiteSpace selected = false ->
        exists item,
          ContextOps.getContextItem (snd result)
            (ContextOps.generateContextId now rnd) = Some item
          /\ ContextItem.content item = selected
          /\ ContextItem.type item = selection
          /\ ContextItem.path item = sourcePath).
Proof.
  intros cm selected sourcePath now rnd result. unfold result.
  unfold Commands.chatWithSelection, ContextOps.addSelection.
  change (forallb JS.isWhiteSpace selected)
    with (LiveSelectionOps.blank selected).
  rewrite blank_test.
  destruct (LiveSelectionOps.blank selected) eqn:E; cbn [fst snd].
  - split; [reflexivity|]. split; [reflexivity|discriminate].
  - split; [reflexivity|]. split; [discriminate|]. intros _.
    eexists. split.
    + unfold ContextOps.getContextItem, ContextOps.setItem.
      cbn [Context.contextItems ContextItem.id]. apply mapSet_find.
    + repeat split.
Qed.

Lemma chatWithSelection_never_rejected_witness :
  snd (Commands.chatWithSelection ContextOps.empty (js "  ") None 1 (js "r"))
  = ContextOps.empty.
Proof.
  exact (proj1 (proj2
    (chatWithSelection_never_rejected ContextOps.empty (js "  ") None 1%Z
       (js "r"))) eq_refl).
Defined.





End SendFacts.
